(** * RAG sources app: hybrid retrieval and corrective gating

    A shallow embedding of the retrieval core of the backend
    ([services/ingestion.py], [services/hybrid_search.py],
    [services/bm25_store.py], [services/crag.py], [services/generator.py])
    and the properties its specification states about it.

    Conventions of the embedding.
    - A Python [str] is a [string]; its characters are Rocq's 8-bit [ascii],
      read as the code points U+0000..U+00FF.
    - A Python [int] is a [Z]; slicing and [rfind] follow Python's rules for
      negative and out-of-range indices.
    - A Python [float] is the rational [Q] it denotes. The float arithmetic
      of the fusion ranker and of the relevance gate is the exact operation
      followed by the rounding of IEEE 754 binary64, to the nearest float
      with ties to even ([Float.round]); the range of the exponent is not
      bounded above, so that overflow is outside the model. The scores that
      external libraries compute (BM25, the product of two embeddings) are
      taken as they come.
    - A raised exception is the [Raise] outcome of a [result]; a [while] loop
      runs on fuel and yields [None] when the fuel is exhausted.
    - A [dict] used as a record of a ranked result is a [Record] whose
      optional keys are [option] fields; the metadata [dict] is a
      [gmap string string]; a [dict] whose iteration order matters is an
      association list in insertion order. *)

From Stdlib Require Import ZArith QArith Qround Qpower Ascii String Sorted.
From Stdlib Require Import Lia Lqa.
From Stdlib Require Import DecimalString DecimalPos.
From stdpp Require Import gmap strings list fin_maps.

#[local] Open Scope string_scope.
#[local] Open Scope list_scope.
#[local] Open Scope Z_scope.

(** ** Part I: the embedding *)

(** *** Python strings *)

Module PyStr.

Definition len (s : string) : Z := Z.of_nat (String.length s).

Definition is_empty (s : string) : bool :=
  match s with EmptyString => true | String _ _ => false end.

(** [str.isspace] on one character of the range U+0000..U+00FF: the ASCII
    controls TAB, LF, VT, FF, CR, FS, GS, RS, US, the space, NEL (U+0085)
    and the no-break space (U+00A0). *)
Definition isspace (c : ascii) : bool :=
  let n := Z.of_N (N_of_ascii c) in
  ((9 <=? n) && (n <=? 13)) || ((28 <=? n) && (n <=? 32))
  || (n =? 133) || (n =? 160).

Fixpoint lstrip (s : string) : string :=
  match s with
  | EmptyString => EmptyString
  | String c r => if isspace c then lstrip r else s
  end.

Fixpoint rstrip (s : string) : string :=
  match s with
  | EmptyString => EmptyString
  | String c r =>
      let r' := rstrip r in
      if is_empty r' && isspace c then EmptyString else String c r'
  end.

(** [s.strip()] *)
Definition strip (s : string) : string := lstrip (rstrip s).

Fixpoint take (n : nat) (s : string) : string :=
  match n, s with
  | S n', String c r => String c (take n' r)
  | _, _ => EmptyString
  end.

Fixpoint drop (n : nat) (s : string) : string :=
  match n, s with
  | S n', String _ r => drop n' r
  | _, _ => s
  end.

(** How a slice bound [i] is resolved against a sequence of length [n]: a
    negative bound counts from the end, and the result is clamped to
    [0..n]. *)
Definition slice_bound (n i : Z) : Z :=
  if i <? 0 then Z.max 0 (n + i) else Z.min i n.

(** [s[:i]] *)
Definition slice_to (s : string) (i : Z) : string :=
  take (Z.to_nat (slice_bound (len s) i)) s.

(** [s[i:]] *)
Definition slice_from (s : string) (i : Z) : string :=
  drop (Z.to_nat (slice_bound (len s) i)) s.

(** Candidates [lo + n], [lo + n - 1], ..., [lo], highest first. *)
Fixpoint rfind_down (sub s : string) (lo n : nat) : Z :=
  if String.prefix sub (drop (lo + n) s) then Z.of_nat (lo + n)
  else match n with
       | O => -1
       | S n' => rfind_down sub s lo n'
       end.

(** [s.rfind(sub, start, stop)]: the highest index at which [sub] occurs
    inside [s[start:stop]], or [-1]. *)
Definition rfind (s sub : string) (start stop : Z) : Z :=
  let a := slice_bound (len s) start in
  let b := slice_bound (len s) stop in
  let m := len sub in
  if b - a <? m then -1
  else rfind_down sub s (Z.to_nat a) (Z.to_nat (b - m - a)).

End PyStr.

(** *** Settings ([config.py]) *)

Record Settings := {
  llm_provider : string;
  crag_relevance_threshold : Q;
  rrf_k : Z;
  chunk_size : Z;
  chunk_overlap : Z
}.

(** The defaults of the [Settings] class. *)
Definition settings : Settings := {|
  llm_provider := "ollama";
  crag_relevance_threshold := 20 # 100;
  rrf_k := 60;
  chunk_size := 512;
  chunk_overlap := 64
|}.

(** *** Exceptions and effects *)

Inductive exn : Type :=
| ZeroDivisionError
| ValueError
| IndexError
| KeyError (key : string)
| CollaboratorError (message : string).

Inductive result (A : Type) : Type :=
| Ok (a : A)
| Raise (e : exn).

Arguments Ok {A} a.
Arguments Raise {A} e.

#[export] Instance result_ret : MRet result := fun A a => Ok a.

#[export] Instance result_bind : MBind result := fun A B f m =>
  match m with
  | Ok a => f a
  | Raise e => Raise e
  end.

(** A computation that threads a state of type [St] (a call log, a store)
    and may raise: the state reached is kept when it raises. *)
Definition Eff (St A : Type) : Type := St -> result A * St.

#[export] Instance Eff_ret {St} : MRet (Eff St) := fun A a st => (Ok a, st).

#[export] Instance Eff_bind {St} : MBind (Eff St) := fun A B f m st =>
  match m st with
  | (Ok a, st') => f a st'
  | (Raise e, st') => (Raise e, st')
  end.

Definition lift {St A} (r : result A) : Eff St A := fun st => (r, st).

(** *** Python lists and dicts *)

Module Py.

Definition is_nil {A} (l : list A) : bool :=
  match l with [] => true | _ :: _ => false end.

(** [l[:i]] *)
Definition slice_to {A} (l : list A) (i : Z) : list A :=
  take (Z.to_nat (PyStr.slice_bound (Z.of_nat (length l)) i)) l.

(** [d.get(key)] on a dict kept in insertion order. *)
Fixpoint get {V} (key : string) (d : list (string * V)) : option V :=
  match d with
  | [] => None
  | (k, v) :: d' => if String.eqb k key then Some v else get key d'
  end.

(** [d[key] = v]: an existing key keeps its place, a new key goes last. *)
Fixpoint set {V} (key : string) (v : V) (d : list (string * V))
    : list (string * V) :=
  match d with
  | [] => [(key, v)]
  | (k, v0) :: d' =>
      if String.eqb k key then (k, v) :: d' else (k, v0) :: set key v d'
  end.

Definition Qltb (a b : Q) : bool := negb (Qle_bool b a).

(** [sorted(l, key=key, reverse=True)]. Python's sort is stable and the
    keys are totally ordered, which determines its result: the stable
    descending insertion sort below computes it. *)
Fixpoint insert_desc {A} (key : A -> Q) (x : A) (l : list A) : list A :=
  match l with
  | [] => [x]
  | y :: l' =>
      if Qltb (key x) (key y) then y :: insert_desc key x l' else x :: l
  end.

Fixpoint sorted_desc {A} (key : A -> Q) (l : list A) : list A :=
  match l with
  | [] => []
  | x :: l' => insert_desc key x (sorted_desc key l')
  end.

(** No element is followed, later in the list, by one of a greater key. *)
Definition descending {A} (key : A -> Q) (l : list A) : Prop :=
  StronglySorted (fun a b => (key b <= key a)%Q) l.

(** [enumerate(l, start)] *)
Fixpoint enumerate {A} (start : Z) (l : list A) : list (Z * A) :=
  match l with
  | [] => []
  | x :: l' => (start, x) :: enumerate (start + 1) l'
  end.

(** [enumerate(l)], where the indices serve to read lists again: they are
    kept as naturals. *)
Fixpoint indexed {A} (start : nat) (l : list A) : list (nat * A) :=
  match l with
  | [] => []
  | x :: l' => (start, x) :: indexed (S start) l'
  end.

(** [l[i]] for an index [i >= 0]. *)
Definition item {A} (l : list A) (i : nat) : result A :=
  match nth_error l i with
  | Some x => Ok x
  | None => Raise IndexError
  end.

(** [[l[i] for i in indices]] *)
Fixpoint items {A} (l : list A) (indices : list nat) : result (list A) :=
  match indices with
  | [] => Ok []
  | i :: rest => x ← item l i; xs ← items l rest; Ok (x :: xs)
  end.

End Py.

(** *** Floats *)

(** The arithmetic of Python's [float], an IEEE 754 binary64 number: 53
    significant bits, least exponent [-1074], results rounded to the nearest
    float, ties to the even significand. *)
Module Float.

(** The integer nearest to [y], ties to even. *)
Definition rne (y : Q) : Z :=
  let f := Qfloor y in
  match (y - inject_Z f ?= 1 # 2)%Q with
  | Lt => f
  | Gt => f + 1
  | Eq => if Z.even f then f else f + 1
  end.

(** [floor (log2 x)] for [x > 0]: the estimate from the sizes of the
    numerator and the denominator is this number or one more. *)
Definition ilog2 (x : Q) : Z :=
  let e0 := Z.log2 (Qnum x) - Z.log2 (Zpos (Qden x)) in
  if Qle_bool (2 ^ e0) x then e0 else e0 - 1.

(** The exponent of the last bit of the floats around [x > 0]: the
    significand has 53 bits, and below [2^-1022] the floats are spaced by
    [2^-1074]. *)
Definition quantum (x : Q) : Z := Z.max (ilog2 x - 52) (-1074).

Definition round_pos (x : Q) : Q :=
  let q := quantum x in
  Qred (inject_Z (rne (x * 2 ^ (- q))) * 2 ^ q).

(** The float nearest to [x]. *)
Definition round (x : Q) : Q :=
  let x := Qred x in
  if Qle_bool 0 x then round_pos x else (- round_pos (- x))%Q.

(** [a + b] and [a / b] on floats, and [float(z)] on an [int]. *)
Definition add (a b : Q) : Q := round (a + b).
Definition div (a b : Q) : Q := round (a / b).
Definition of_int (z : Z) : Q := round (inject_Z z).

End Float.

(** *** Ranked results *)

(** The [dict] that travels from the indices through fusion and the gate to
    generation: [id], [text], [metadata] always, [score] from the index
    that produced it, [rrf_score] after fusion, [relevance] after the
    gate. *)
Module Doc.

Record t : Type := {
  id : string;
  text : string;
  metadata : gmap string string;
  score : option Q;
  rrf_score : option Q;
  relevance : option Q
}.

(** [entry["rrf_score"] = s] *)
Definition set_rrf_score (s : Q) (d : t) : t :=
  {| id := id d; text := text d; metadata := metadata d; score := score d;
     rrf_score := Some s; relevance := relevance d |}.

(** [chunk["relevance"] = r] *)
Definition set_relevance (r : Q) (d : t) : t :=
  {| id := id d; text := text d; metadata := metadata d; score := score d;
     rrf_score := rrf_score d; relevance := Some r |}.

End Doc.

(** *** Text segmenter ([services/ingestion.py]) *)

Module Ingestion.

Definition LF : string := String "010"%char EmptyString.

Definition boundaries : list string := [LF +:+ LF; LF; ". "; " "; ""].

(** The [for b in boundaries] loop, started from [split_idx = -1]. *)
Fixpoint find_split (bs : list string) (text_to_process : string)
    (chunk_size : Z) : Z :=
  match bs with
  | [] => -1
  | b :: bs' =>
      if PyStr.is_empty b then chunk_size
      else
        let last_b_idx := PyStr.rfind text_to_process b 0 chunk_size in
        if negb (last_b_idx =? -1) then last_b_idx + PyStr.len b
        else find_split bs' text_to_process chunk_size
  end.

(** One iteration of the [while] loop on [(text_to_process, chunks)]. *)
Definition split_step (chunk_size overlap : Z) (st : string * list string)
    : string * list string :=
  let '(text_to_process, chunks) := st in
  let split_idx := find_split boundaries text_to_process chunk_size in
  let chunk := PyStr.strip (PyStr.slice_to text_to_process split_idx) in
  let chunks' := if PyStr.is_empty chunk then chunks else chunks ++ [chunk] in
  (PyStr.slice_from text_to_process (Z.max 0 (split_idx - overlap)), chunks').

(** [while len(text_to_process) > chunk_size]: [None] when the fuel does
    not suffice to leave the loop. *)
Fixpoint split_loop (fuel : nat) (chunk_size overlap : Z)
    (st : string * list string) : option (string * list string) :=
  if PyStr.len (fst st) <=? chunk_size then Some st
  else match fuel with
       | O => None
       | S fuel' => split_loop fuel' chunk_size overlap
                      (split_step chunk_size overlap st)
       end.

Definition _recursive_split (fuel : nat) (text : string)
    (chunk_size overlap : Z) : option (list string) :=
  if PyStr.is_empty text || PyStr.is_empty (PyStr.strip text) then Some []
  else if PyStr.len text <=? chunk_size then Some [PyStr.strip text]
  else
    match split_loop fuel chunk_size overlap (text, []) with
    | None => None
    | Some (text_to_process, chunks) =>
        Some (if PyStr.is_empty (PyStr.strip text_to_process) then chunks
              else chunks ++ [PyStr.strip text_to_process])
    end.

(** The branch taken by the boundary search: no separator of [boundaries]
    occurs inside the first [chunk_size] characters, so the empty boundary
    (the hard cut) is reached. *)
Definition hard_cut (text_to_process : string) (chunk_size : Z) : bool :=
  forallb (fun b => PyStr.rfind text_to_process b 0 chunk_size =? -1)
          [LF +:+ LF; LF; ". "; " "].

(** The chunk one iteration extracts, before the emptiness test. *)
Definition step_chunk (text_to_process : string) (chunk_size : Z) : string :=
  PyStr.strip (PyStr.slice_to text_to_process
                 (find_split boundaries text_to_process chunk_size)).

(** Every chunk of a list has at most [chunk_size] characters. *)
Definition fits (chunk_size : Z) (chunks : list string) : Prop :=
  Forall (fun c => PyStr.len c <= chunk_size) chunks.

(** Sample texts. *)
Definition TAB : string := String "009"%char EmptyString.

Fixpoint repeat_str (s : string) (n : nat) : string :=
  match n with
  | O => ""
  | S n' => s +:+ repeat_str s n'
  end.

(** ["Intro.\n\n" + "lorem ipsum " * 50]: a short heading, a paragraph
    break, and a paragraph of 600 characters. *)
Definition heading_then_paragraph : string :=
  "Intro." +:+ LF +:+ LF +:+ repeat_str "lorem ipsum " 50.

(** ["\tabcdefgh"]: no separator of [boundaries], a leading TAB. *)
Definition tab_then_letters : string := TAB +:+ "abcdefgh".

End Ingestion.

(** *** Fusion ranker and orchestrator ([services/hybrid_search.py]) *)

Module HybridSearch.

(** The two dicts of the function, [rrf_scores] and [docs]. *)
Definition fusion_state : Type :=
  (list (string * Q) * list (string * Doc.t))%type.

(** [1.0 / (k + rank)], where it is defined: the integer is converted to a
    float and divides 1.0. The conversion raises [OverflowError] on an
    integer beyond the range of the floats (from [2^1024 - 2^970] on in
    magnitude); the model has no such bound, and what is stated of fusion
    is stated for integers [k + rank] within the range. *)
Definition term (k rank : Z) : Q := Float.div 1 (Float.of_int (k + rank)).

(** The body of the inner loop for the document [doc] at rank [rank].
    [1.0 / (k + rank)] raises when [k + rank] is 0. *)
Definition fuse_doc (k : Z) (st : fusion_state) (rank : Z) (doc : Doc.t)
    : result fusion_state :=
  let '(rrf_scores, docs) := st in
  let doc_id := Doc.id doc in
  if k + rank =? 0 then Raise ZeroDivisionError
  else
    let rrf_scores' :=
      Py.set doc_id
        (Float.add (default 0%Q (Py.get doc_id rrf_scores)) (term k rank))
        rrf_scores in
    let docs' :=
      match Py.get doc_id docs with
      | Some _ => docs
      | None => Py.set doc_id doc docs
      end in
    Ok (rrf_scores', docs').

(** [for rank, doc in ranked], over an enumerated list. *)
Fixpoint fuse_ranked (k : Z) (st : fusion_state) (ranked : list (Z * Doc.t))
    : result fusion_state :=
  match ranked with
  | [] => Ok st
  | (rank, doc) :: ranked' =>
      st' ← fuse_doc k st rank doc; fuse_ranked k st' ranked'
  end.

(** [for result_list in result_lists] *)
Fixpoint fuse_lists (k : Z) (st : fusion_state)
    (result_lists : list (list Doc.t)) : result fusion_state :=
  match result_lists with
  | [] => Ok st
  | result_list :: rest =>
      st' ← fuse_ranked k st (Py.enumerate 1 result_list);
      fuse_lists k st' rest
  end.

(** The body of the final loop: [docs[doc_id].copy()] with [rrf_score]
    set to [rrf_scores[doc_id]]. *)
Definition make_entry (st : fusion_state) (doc_id : string) : result Doc.t :=
  let '(rrf_scores, docs) := st in
  match Py.get doc_id docs, Py.get doc_id rrf_scores with
  | Some doc, Some s => Ok (Doc.set_rrf_score s doc)
  | _, _ => Raise (KeyError doc_id)
  end.

Fixpoint make_entries (st : fusion_state) (sorted_ids : list string)
    : result (list Doc.t) :=
  match sorted_ids with
  | [] => Ok []
  | doc_id :: rest =>
      entry ← make_entry st doc_id;
      results ← make_entries st rest;
      Ok (entry :: results)
  end.

Definition reciprocal_rank_fusion (result_lists : list (list Doc.t))
    (k : option Z) : result (list Doc.t) :=
  let k := default (rrf_k settings) k in
  st ← fuse_lists k ([], []) result_lists;
  let rrf_scores := fst st in
  let sorted_ids :=
    Py.sorted_desc (fun x => default 0%Q (Py.get x rrf_scores))
      (map fst rrf_scores) in
  make_entries st sorted_ids.

(** A call to one of the two indices, as the orchestrator issues it. *)
Inductive fetch : Type :=
| SemanticFetch (query : string) (collection_name : option string) (top_k : Z)
| LexicalFetch (query : string) (collection_name : option string) (top_k : Z).

Section Orchestrator.

(** [vector_store.search] and [bm25_store.search], as the results they
    give or the exception they raise. *)
Variable vector_store_search :
  string -> option string -> Z -> result (list Doc.t).
Variable bm25_store_search :
  string -> option string -> Z -> result (list Doc.t).

Definition call_vector_store (query : string) (collection_name : option string)
    (top_k : Z) : Eff (list fetch) (list Doc.t) :=
  fun log => (vector_store_search query collection_name top_k,
              log ++ [SemanticFetch query collection_name top_k]).

Definition call_bm25_store (query : string) (collection_name : option string)
    (top_k : Z) : Eff (list fetch) (list Doc.t) :=
  fun log => (bm25_store_search query collection_name top_k,
              log ++ [LexicalFetch query collection_name top_k]).

(** [HybridSearch.search], on the log of the fetches issued. *)
Definition search (query : string) (collection_name : option string)
    (top_k : Z) : Eff (list fetch) (list Doc.t) :=
  let fetch_k := Z.max (top_k * 3) 15 in
  semantic_results ← call_vector_store query collection_name fetch_k;
  bm25_results ← call_bm25_store query collection_name fetch_k;
  if Py.is_nil semantic_results && Py.is_nil bm25_results then mret []
  else
    fused ← lift (reciprocal_rank_fusion
                    (List.filter (fun l => negb (Py.is_nil l))
                       [semantic_results; bm25_results]) None);
    mret (Py.slice_to fused top_k).

End Orchestrator.

(** The spec's account of fusion. *)

(** The occurrences the loops visit, in order, each with its rank. *)
Definition occurrences (ls : list (list Doc.t)) : list (Z * Doc.t) :=
  concat (map (Py.enumerate 1) ls).

(** The running total of [x] after one more occurrence: [1/(k+r)] is added
    when the document at rank [r] has the id [x]. *)
Definition add_term (k : Z) (x : string) (total : Q) (o : Z * Doc.t) : Q :=
  if String.eqb (Doc.id (snd o)) x then Float.add total (term k (fst o))
  else total.

(** The running total of [x] after a run of occurrences, from [total]. *)
Definition occ_score (k : Z) (x : string) (occ : list (Z * Doc.t))
    (total : Q) : Q :=
  fold_left (add_term k x) occ total.

(** The running total of [x] after one ranked list, from [total]. *)
Definition spec_list_score (k : Z) (x : string) (l : list Doc.t)
    (total : Q) : Q :=
  occ_score k x (Py.enumerate 1 l) total.

(** The accumulated score of [x]: its running total, from 0.0, after the
    lists in their order. *)
Definition spec_rrf_score (k : Z) (x : string) (ls : list (list Doc.t)) : Q :=
  fold_left (fun total l => spec_list_score k x l total) ls 0%Q.

(** The 1-based rank of [x] in a list, if it stands there. *)
Fixpoint rank_from (x : string) (start : Z) (l : list Doc.t) : option Z :=
  match l with
  | [] => None
  | d :: l' =>
      if String.eqb (Doc.id d) x then Some start else rank_from x (start + 1) l'
  end.

(** The first document with id [x] met when the lists are read in order. *)
Definition first_doc (x : string) (ls : list (list Doc.t)) : option Doc.t :=
  List.find (fun d => String.eqb (Doc.id d) x) (concat ls).

(** The distinct elements of a list, in the order in which they first
    occur. *)
Fixpoint first_seen (l : list string) : list string :=
  match l with
  | [] => []
  | x :: l' => x :: List.filter (fun y => negb (String.eqb y x)) (first_seen l')
  end.

Definition all_ids (ls : list (list Doc.t)) : list string :=
  map Doc.id (concat ls).

(** No rank [r] of a list has [k + r = 0]: every division is defined. *)
Definition ranks_defined (k : Z) (ls : list (list Doc.t)) : Prop :=
  forall l, In l ls -> k < -(Z.of_nat (length l)) \/ -1 < k.

(** Every integer [k + r] that fusion converts to a float lies within the
    range of the floats. *)
Definition ranks_in_range (k : Z) (ls : list (list Doc.t)) : Prop :=
  forall l, In l ls ->
    - 2 ^ 1023 < k /\ k + Z.of_nat (length l) < 2 ^ 1023.

(** The two dicts after the occurrences [occ] have been visited. *)
Definition fusion_inv (k : Z) (occ : list (Z * Doc.t)) (st : fusion_state)
    : Prop :=
  map fst (fst st) = first_seen (map (fun o => Doc.id (snd o)) occ) /\
  map fst (snd st) = map fst (fst st) /\
  (forall x, Py.get x (snd st)
             = List.find (fun d => String.eqb (Doc.id d) x) (map snd occ)) /\
  (forall x, default 0%Q (Py.get x (fst st)) = occ_score k x occ 0).

(** The accumulated score an output entry carries (0 if it carries none). *)
Definition entry_score (e : Doc.t) : Q := default 0%Q (Doc.rrf_score e).

(** Sample results [a], [b], [c]. *)
Definition sample (id text : string) : Doc.t :=
  {| Doc.id := id; Doc.text := text; Doc.metadata := ∅;
     Doc.score := None; Doc.rrf_score := None; Doc.relevance := None |}.

(** A ranked list of [n] results: the result at rank [r] has the id
    [named r] where that is given, and otherwise an id of its own, [prefix]
    followed by [r]. *)
Definition ranked (prefix : string) (named : Z -> option string) (n : nat)
    : list Doc.t :=
  map (fun i =>
         let r := Z.of_nat i in
         sample (default (prefix +:+ NilZero.string_of_int (Z.to_int r))
                   (named r)) "")
    (seq 1 n).

(** Two lists in which [P] has the ranks 12 and 28, and [Q] the ranks 39
    and 6: with [k = 60] the exact sums [1/72 + 1/88] and [1/99 + 1/66] are
    equal, and [P] is met first. *)
Definition tie_lists : list (list Doc.t) :=
  [ranked "s" (fun r => if r =? 12 then Some "P"
                        else if r =? 39 then Some "Q" else None) 39;
   ranked "l" (fun r => if r =? 6 then Some "Q"
                        else if r =? 28 then Some "P" else None) 28].

End HybridSearch.

(** *** Lexical index ([services/bm25_store.py]) *)

(** The [Chunk] dataclass of [services/ingestion.py]. *)
Module Chunk.

Record t : Type := {
  chunk_id : string;
  document_id : string;
  filename : string;
  text : string;
  page_number : option Z;
  chunk_index : Z;
  metadata : gmap string string
}.

End Chunk.

Module BM25Store.

(** The attributes of a [BM25Store]. The [BM25Okapi] object of rank_bm25 is
    kept as the tokenized corpus it was built from. *)
Record store : Type := {
  _chunk_ids : list string;
  _chunk_texts : list string;
  _chunk_metadatas : list (gmap string string);
  _bm25 : option (list (list string))
}.

(** What the path [bm25_index_path] holds: nothing, bytes that do not
    unpickle, or a pickled dict with some of the keys [ids], [texts],
    [metadatas]. *)
Inductive file : Type :=
| Absent
| Unreadable
| Pickled (ids : option (list string)) (texts : option (list string))
          (metadatas : option (list (gmap string string))).

(** The index object together with its file. *)
Record world : Type := { index : store; disk : file }.

Definition modify_index (f : store -> store) : Eff world unit :=
  fun w => (Ok (), {| index := f (index w); disk := disk w |}).

Definition set_chunk_ids (ids : list string) (s : store) : store :=
  {| _chunk_ids := ids; _chunk_texts := _chunk_texts s;
     _chunk_metadatas := _chunk_metadatas s; _bm25 := _bm25 s |}.

Definition set_chunk_texts (texts : list string) (s : store) : store :=
  {| _chunk_ids := _chunk_ids s; _chunk_texts := texts;
     _chunk_metadatas := _chunk_metadatas s; _bm25 := _bm25 s |}.

Definition set_chunk_metadatas (metadatas : list (gmap string string))
    (s : store) : store :=
  {| _chunk_ids := _chunk_ids s; _chunk_texts := _chunk_texts s;
     _chunk_metadatas := metadatas; _bm25 := _bm25 s |}.

Definition set_bm25 (model : option (list (list string))) (s : store) : store :=
  {| _chunk_ids := _chunk_ids s; _chunk_texts := _chunk_texts s;
     _chunk_metadatas := _chunk_metadatas s; _bm25 := model |}.

Definition stop_words : list string :=
  ["de"; "la"; "el"; "en"; "y"; "a"; "los"; "las"; "un"; "una"; "que"; "es";
   "del"].

Section Index.

(** [re.findall(r"\b\w+\b", text.lower(), re.UNICODE)]: the words of the
    case-folded text. *)
Variable words : string -> list string.

(** [BM25Okapi.get_scores]: one score for each text of the corpus. *)
Variable get_scores : list (list string) -> list string -> list Q.

Definition _tokenize (text : string) : list string :=
  List.filter
    (fun t => negb (existsb (String.eqb t) stop_words) && (1 <? PyStr.len t))
    (words text).

(** [BM25Okapi(tokenized)]. The constructor of rank_bm25 counts the
    documents and the terms of the corpus and ends with the average weight
    of the terms, [idf_sum / len(self.idf)]: a corpus none of whose texts
    has a token has no term, and the division raises. *)
Definition BM25Okapi (corpus : list (list string))
    : result (list (list string)) :=
  if forallb Py.is_nil corpus then Raise ZeroDivisionError else Ok corpus.

Definition _rebuild_bm25 : Eff world unit :=
  fun w =>
    if Py.is_nil (_chunk_texts (index w)) then modify_index (set_bm25 None) w
    else
      (let tokenized := map _tokenize (_chunk_texts (index w)) in
       model ← lift (BM25Okapi tokenized);
       modify_index (set_bm25 (Some model))) w.

(** The index holds texts, and none of them has a token. *)
Definition tokenless (s : store) : bool :=
  negb (Py.is_nil (_chunk_texts s))
  && forallb Py.is_nil (map _tokenize (_chunk_texts s)).

(** The store after a rebuild that returns. *)
Definition with_model (s : store) : store :=
  if Py.is_nil (_chunk_texts s) then set_bm25 None s
  else set_bm25 (Some (map _tokenize (_chunk_texts s))) s.

Definition _save : Eff world unit :=
  fun w =>
    (Ok (),
     {| index := index w;
        disk := Pickled (Some (_chunk_ids (index w)))
                  (Some (_chunk_texts (index w)))
                  (Some (_chunk_metadatas (index w))) |}).

(** The body of the [try] of [_load]: the three assignments, in order, and
    the rebuild. A missing key raises after the assignments before it, and
    a rebuild that raises leaves the three sequences assigned. *)
Definition load_state (ids : option (list string))
    (texts : option (list string))
    (metadatas : option (list (gmap string string))) : Eff world unit :=
  ids ← lift (from_option Ok (Raise (KeyError "ids")) ids);
  modify_index (set_chunk_ids ids);;
  texts ← lift (from_option Ok (Raise (KeyError "texts")) texts);
  modify_index (set_chunk_texts texts);;
  metadatas ← lift (from_option Ok (Raise (KeyError "metadatas")) metadatas);
  modify_index (set_chunk_metadatas metadatas);;
  _rebuild_bm25.

(** [_load]: every exception of the [try] is caught and reported. *)
Definition _load : Eff world unit :=
  fun w =>
    match disk w with
    | Absent => (Ok (), w)
    | Unreadable => (Ok (), w)
    | Pickled ids texts metadatas =>
        (Ok (), snd (load_state ids texts metadatas w))
    end.

(** [BM25Store()], on the file found at the path. *)
Definition __init__ (f : file) : world :=
  snd (_load {| index := {| _chunk_ids := []; _chunk_texts := [];
                            _chunk_metadatas := []; _bm25 := None |};
                disk := f |}).

Definition append_chunk (chunk : Chunk.t) (s : store) : store :=
  set_chunk_metadatas (_chunk_metadatas s ++ [Chunk.metadata chunk])
    (set_chunk_texts (_chunk_texts s ++ [Chunk.text chunk])
       (set_chunk_ids (_chunk_ids s ++ [Chunk.chunk_id chunk]) s)).

Fixpoint append_chunks (chunks : list Chunk.t) (s : store) : store :=
  match chunks with
  | [] => s
  | chunk :: rest => append_chunks rest (append_chunk chunk s)
  end.

Definition add_chunks (chunks : list Chunk.t) : Eff world unit :=
  modify_index (append_chunks chunks);;
  _rebuild_bm25;;
  _save.

(** [meta.get("document_id") != document_id] *)
Definition other_document (document_id : string)
    (meta : gmap string string) : bool :=
  bool_decide (meta !! "document_id" <> Some document_id).

Definition delete_document (document_id : string) : Eff world unit :=
  fun w =>
    let s := index w in
    let indices_to_keep :=
      map fst (List.filter (fun im => other_document document_id (snd im))
                 (Py.indexed 0 (_chunk_metadatas s))) in
    if (length indices_to_keep =? length (_chunk_ids s))%nat then (Ok (), w)
    else
      (ids ← lift (Py.items (_chunk_ids s) indices_to_keep);
       modify_index (set_chunk_ids ids);;
       texts ← lift (Py.items (_chunk_texts s) indices_to_keep);
       modify_index (set_chunk_texts texts);;
       metadatas ← lift (Py.items (_chunk_metadatas s) indices_to_keep);
       modify_index (set_chunk_metadatas metadatas);;
       _rebuild_bm25;;
       _save) w.

Definition rebuild_from_store (all_chunks : list Doc.t) : Eff world unit :=
  modify_index (set_chunk_ids (map Doc.id all_chunks));;
  modify_index (set_chunk_texts (map Doc.text all_chunks));;
  modify_index (set_chunk_metadatas (map Doc.metadata all_chunks));;
  _rebuild_bm25;;
  _save.

(** The builtin [max] of a sequence of floats; it raises on an empty one. *)
Definition py_max (l : list Q) : result Q :=
  match l with
  | [] => Raise ValueError
  | x :: l' => Ok (fold_left (fun m y => if Py.Qltb m y then y else m) l' x)
  end.

(** [collection_name and meta.get("collection_name", "default") !=
    collection_name] *)
Definition other_collection (collection_name : option string)
    (meta : gmap string string) : bool :=
  match collection_name with
  | None => false
  | Some c =>
      negb (PyStr.is_empty c)
      && negb (String.eqb (default "default" (meta !! "collection_name")) c)
  end.

(** The loop of [search] over [enumerate(normalized)]. *)
Fixpoint collect_hits (s : store) (collection_name : option string)
    (hits : list Doc.t) (scored : list (nat * Q)) : result (list Doc.t) :=
  match scored with
  | [] => Ok hits
  | (i, score) :: rest =>
      if Qle_bool score (1 # 1000) then collect_hits s collection_name hits rest
      else
        meta ← Py.item (_chunk_metadatas s) i;
        if other_collection collection_name meta
        then collect_hits s collection_name hits rest
        else
          id ← Py.item (_chunk_ids s) i;
          text ← Py.item (_chunk_texts s) i;
          collect_hits s collection_name
            (hits ++ [{| Doc.id := id; Doc.text := text; Doc.metadata := meta;
                         Doc.score := Some score; Doc.rrf_score := None;
                         Doc.relevance := None |}]) rest
  end.

Definition search (s : store) (query : string)
    (collection_name : option string) (top_k : Z) : result (list Doc.t) :=
  match _bm25 s with
  | None => Ok []
  | Some model =>
      if Py.is_nil (_chunk_texts s) then Ok []
      else
        let query_tokens := _tokenize query in
        let scores := get_scores model query_tokens in
        m ← py_max scores;
        let max_score := if Py.Qltb 0 m then m else 1%Q in
        let normalized := map (fun x => (x / max_score)%Q) scores in
        hits ← collect_hits s collection_name [] (Py.indexed 0 normalized);
        Ok (Py.slice_to
              (Py.sorted_desc (fun h => default 0%Q (Doc.score h)) hits)
              top_k)
  end.

(** The operations a client performs on the index; [Restart] is a new
    process, which builds the object again from the file. *)
Inductive op : Type :=
| AddChunks (chunks : list Chunk.t)
| DeleteDocument (document_id : string)
| RebuildFromStore (all_chunks : list Doc.t)
| Restart.

Definition run_op (o : op) : Eff world unit :=
  match o with
  | AddChunks chunks => add_chunks chunks
  | DeleteDocument document_id => delete_document document_id
  | RebuildFromStore all_chunks => rebuild_from_store all_chunks
  | Restart => fun w => (Ok (), __init__ (disk w))
  end.

(** The world after a sequence of operations; an operation that raises
    leaves the world it reached. *)
Fixpoint run (ops : list op) (w : world) : world :=
  match ops with
  | [] => w
  | o :: rest => run rest (snd (run_op o w))
  end.

(** Every operation of the sequence returns. *)
Fixpoint returns (ops : list op) (w : world) : bool :=
  match ops with
  | [] => true
  | o :: rest =>
      match run_op o w with
      | (Ok _, w') => returns rest w'
      | (Raise _, _) => false
      end
  end.

End Index.

(** The three sequences have one length. *)
Definition aligned (s : store) : Prop :=
  length (_chunk_ids s) = length (_chunk_texts s) /\
  length (_chunk_texts s) = length (_chunk_metadatas s).

(** The entries of the index, position by position. *)
Definition rows (s : store) : list (string * string * gmap string string) :=
  combine (combine (_chunk_ids s) (_chunk_texts s)) (_chunk_metadatas s).

Definition chunk_row (c : Chunk.t) : string * string * gmap string string :=
  (Chunk.chunk_id c, Chunk.text c, Chunk.metadata c).

Definition doc_row (d : Doc.t) : string * string * gmap string string :=
  (Doc.id d, Doc.text d, Doc.metadata d).

(** The file is absent, does not unpickle, or holds three sequences of one
    length. *)
Definition file_aligned (f : file) : Prop :=
  match f with
  | Absent | Unreadable => True
  | Pickled (Some ids) (Some texts) (Some metadatas) =>
      length ids = length texts /\ length texts = length metadatas
  | Pickled _ _ _ => False
  end.

(** The scoring model is the one built from the current texts. *)
Definition model_current (words : string -> list string) (s : store) : Prop :=
  _bm25 s = if Py.is_nil (_chunk_texts s) then None
            else Some (map (_tokenize words) (_chunk_texts s)).

(** The rows that [delete_document] keeps. *)
Definition kept (document_id : string)
    (rs : list (string * string * gmap string string))
    : list (string * string * gmap string string) :=
  List.filter (fun r => other_document document_id (snd r)) rs.

(** The store with the entries [rs] and the model [model]. *)
Definition store_with (rs : list (string * string * gmap string string))
    (model : option (list (list string))) : store :=
  {| _chunk_ids := map (fun r => fst (fst r)) rs;
     _chunk_texts := map (fun r => snd (fst r)) rs;
     _chunk_metadatas := map snd rs;
     _bm25 := model |}.

(** The store with the entries [rs] and the model rebuilt from them. *)
Definition store_of_rows (words : string -> list string)
    (rs : list (string * string * gmap string string)) : store :=
  let texts := map (fun r => snd (fst r)) rs in
  {| _chunk_ids := map (fun r => fst (fst r)) rs;
     _chunk_texts := texts;
     _chunk_metadatas := map snd rs;
     _bm25 := if Py.is_nil texts then None
              else Some (map (_tokenize words) texts) |}.

(** The file [_save] writes for a store. *)
Definition pickle (s : store) : file :=
  Pickled (Some (_chunk_ids s)) (Some (_chunk_texts s))
    (Some (_chunk_metadatas s)).

(** Sample chunks and oracles: whitespace-free texts are their own single
    word, and every text scores 1. *)
Definition sample_chunk (chunk_id document_id text : string) : Chunk.t :=
  {| Chunk.chunk_id := chunk_id; Chunk.document_id := document_id;
     Chunk.filename := "notes.md"; Chunk.text := text;
     Chunk.page_number := None; Chunk.chunk_index := 0;
     Chunk.metadata :=
       {[ "document_id" := document_id; "filename" := "notes.md";
          "collection_name" := "default"; "page_number" := "unknown" ]} |}.

Definition sample_words (text : string) : list string := [text].

Definition sample_scores (corpus : list (list string)) (query : list string)
    : list Q :=
  map (fun _ => 1%Q) corpus.

Definition sample_world : world :=
  snd (add_chunks sample_words
         [sample_chunk "c1" "D1" "alpha"; sample_chunk "c2" "D2" "beta";
          sample_chunk "c3" "D1" "gamma"]
         (__init__ sample_words Absent)).

(** The index after the upload of a document whose text has a token and of
    a document whose two chunks hold a stop word each. *)
Definition stop_word_world : world :=
  run sample_words
    [AddChunks [sample_chunk "c1" "D1" "alpha"];
     AddChunks [sample_chunk "c2" "D2" "a"; sample_chunk "c3" "D2" "de"]]
    (__init__ sample_words Absent).

(** The hit of a search for the chunk [c], with the score [score]. *)
Definition hit_of (c : Chunk.t) (score : Q) : Doc.t :=
  {| Doc.id := Chunk.chunk_id c; Doc.text := Chunk.text c;
     Doc.metadata := Chunk.metadata c; Doc.score := Some score;
     Doc.rrf_score := None; Doc.relevance := None |}.

End BM25Store.

(** *** Relevance gate ([services/crag.py], [services/embeddings.py]) *)

Module Crag.

(** ["No tengo información suficiente ..."]; U+00F3 is written by its
    code. *)
Definition INSUFFICIENT_RESPONSE : string :=
  "No tengo informaci" +:+ String "243"%char
  "n suficiente en los documentos proporcionados para responder " +:+
  "esta pregunta con certeza. Por favor, sube documentos que contengan informaci"
  +:+ String "243"%char "n " +:+ "sobre este tema.".

(** What [evaluate] works on: the log of the calls made to the embedding
    model, and the chunk objects of the list it was given, which it updates
    in place. *)
Record heap : Type := {
  embed_calls : list (list string);
  retrieved : list Doc.t
}.

(** [threshold or settings.crag_relevance_threshold]: [None] and zero are
    falsy. The default is written 0.20 and kept as 20/100: no float lies
    between 20/100 and the float nearest to it, which is greater, so that a
    float reaches the one when it reaches the other. *)
Definition threshold_or_default (threshold : option Q) : Q :=
  match threshold with
  | Some t => if Qeq_bool t 0 then crag_relevance_threshold settings else t
  | None => crag_relevance_threshold settings
  end.

(** [np.dot] of two vectors; the shapes must agree. *)
Fixpoint dot (a b : list Q) : result Q :=
  match a, b with
  | [], [] => Ok 0%Q
  | x :: a', y :: b' => d ← dot a' b'; Ok (x * y + d)%Q
  | _, _ => Raise ValueError
  end.

Section Gate.

(** [SentenceTransformer.encode(texts, normalize_embeddings=True)], with
    the loading of the model: the vectors, or the exception raised. *)
Variable encode : list string -> result (list (list Q)).

Definition embed (texts : list string) : Eff heap (list (list Q)) :=
  fun h => (encode texts,
            {| embed_calls := embed_calls h ++ [texts];
               retrieved := retrieved h |}).

Definition embed_single (text : string) : Eff heap (list Q) :=
  vectors ← embed [text];
  lift (Py.item vectors 0).

Definition cosine_similarity (vec_a vec_b : list Q) : result Q :=
  dot vec_a vec_b.

(** [chunk["relevance"] = combined], for the chunk at position [i]. *)
Definition store_relevance (i : nat) (combined : Q) : Eff heap unit :=
  fun h => (Ok (),
            {| embed_calls := embed_calls h;
               retrieved := alter (Doc.set_relevance combined) i (retrieved h) |}).

(** [0.05 if rrf_score > 0.01 else 0.0], the literals being the floats
    nearest to 5/100 and 1/100. *)
Definition boost (chunk : Doc.t) : Q :=
  if Py.Qltb (Float.round (1 # 100)) (default 0%Q (Doc.rrf_score chunk))
  then Float.round (5 # 100) else 0.

(** The [for i, chunk in enumerate(retrieved_chunks)] loop, from position
    [i], with the chunks still to visit. *)
Fixpoint evaluate_loop (threshold : Q) (query_embedding : list Q) (i : nat)
    (todo : list Doc.t) (passing : list Doc.t) : Eff heap (list Doc.t) :=
  match todo with
  | [] => mret passing
  | chunk :: rest =>
      chunk_embedding ← embed_single (Doc.text chunk);
      direct_similarity ←
        lift (cosine_similarity query_embedding chunk_embedding);
      let combined := Float.add direct_similarity (boost chunk) in
      store_relevance i combined;;
      let is_pass := Qle_bool threshold combined in
      evaluate_loop threshold query_embedding (S i) rest
        (if is_pass then passing ++ [Doc.set_relevance combined chunk]
         else passing)
  end.

Definition evaluate (query : string) (retrieved_chunks : list Doc.t)
    (threshold : option Q) : Eff heap (string * list Doc.t) :=
  if Py.is_nil retrieved_chunks then mret ("insufficient", [])
  else
    let threshold := threshold_or_default threshold in
    query_embedding ← embed_single query;
    passing ← evaluate_loop threshold query_embedding 0 retrieved_chunks [];
    if Py.is_nil passing then mret ("insufficient", [])
    else
      let ratio := (inject_Z (Z.of_nat (length passing))
                    / inject_Z (Z.of_nat (length retrieved_chunks)))%Q in
      let status := if Qle_bool (1 # 2) ratio then "grounded" else "partial" in
      mret (status,
            Py.sorted_desc (fun x => default 0%Q (Doc.relevance x)) passing).

(** What [embed_single] returns or raises for a text. *)
Definition embedding (text : string) : result (list Q) :=
  vectors ← encode [text]; Py.item vectors 0.

(** The direct similarity of a chunk to the query, as the gate obtains it:
    both embeddings, then their product. *)
Definition direct_similarity (query : string) (chunk : Doc.t) : result Q :=
  q ← embedding query;
  c ← embedding (Doc.text chunk);
  cosine_similarity q c.

End Gate.

(** The spec's account of the gate, for a threshold [t] and the direct
    similarities [sim]. *)

Definition spec_combined (sim : Doc.t -> Q) (chunk : Doc.t) : Q :=
  Float.add (sim chunk)
    (if Py.Qltb (Float.round (1 # 100)) (default 0%Q (Doc.rrf_score chunk))
     then Float.round (5 # 100) else 0).

(** Every chunk with its relevance set. *)
Definition spec_scored (sim : Doc.t -> Q) (chunks : list Doc.t) : list Doc.t :=
  map (fun c => Doc.set_relevance (spec_combined sim c) c) chunks.

(** The chunks that pass, in the order of the list. *)
Definition spec_passing (t : Q) (sim : Doc.t -> Q) (chunks : list Doc.t)
    : list Doc.t :=
  List.filter (fun c => Qle_bool t (default 0%Q (Doc.relevance c)))
    (spec_scored sim chunks).

(** [passingCount / totalCount] *)
Definition spec_pass_ratio (passing chunks : list Doc.t) : Q :=
  (inject_Z (Z.of_nat (length passing))
   / inject_Z (Z.of_nat (length chunks)))%Q.

Definition spec_evaluate (t : Q) (sim : Doc.t -> Q) (chunks : list Doc.t)
    : string * list Doc.t :=
  let passing := spec_passing t sim chunks in
  if Py.is_nil passing then ("insufficient", [])
  else
    (if Qle_bool (1 # 2) (spec_pass_ratio passing chunks)
     then "grounded" else "partial",
     Py.sorted_desc (fun x => default 0%Q (Doc.relevance x)) passing).

(** The embeddings the gate asks for succeed, with [qv] for the query, and
    the products are the similarities [sim]. *)
Definition embeds_to (encode : list string -> result (list (list Q)))
    (qv : list Q) (sim : Doc.t -> Q) (chunk : Doc.t) : Prop :=
  exists cv,
    embedding encode (Doc.text chunk) = Ok cv /\ dot qv cv = Ok (sim chunk).

Definition sample_chunk : Doc.t := HybridSearch.sample "c" "c".

(** A sample: the query embeds to [[1]], any other text to [[1/10]]. *)
Definition sample_encode (texts : list string) : result (list (list Q)) :=
  Ok (map (fun t => if String.eqb t "q" then [1%Q] else [1 # 10]) texts).

Definition failing_encode (texts : list string) : result (list (list Q)) :=
  Raise (CollaboratorError "model not available").

End Crag.

(** *** Answer generation ([services/generator.py], [models/schemas.py]) *)

Module Generator.

Record Citation : Type := {
  document_id : string;
  filename : string;
  chunk_text : string;
  page_number : option Z;
  relevance_score : Q
}.

Record message : Type := { role : string; content : string }.

Section Generate.

(** The configuration the process runs with: [settings.llm_provider] is read
    at each call. *)
Variable settings : Settings.

(** The constant [SYSTEM_PROMPT] and the function [_build_context], whose
    texts hold characters beyond U+00FF. *)
Variable SYSTEM_PROMPT : string.
Variable _build_context : list Doc.t -> string.

(** The builtins [int] (on a string: [None] for [ValueError]), [round(x, 4)]
    and [str] of an exception. *)
Variable py_int : string -> option Z.
Variable round4 : Q -> Q.
Variable exn_str : exn -> string.

(** [_call_ollama] and [_call_openai]: the answer, or the exception the call
    ends with (a connection error, a timeout, an error status). *)
Variable _call_ollama : list message -> result string.
Variable _call_openai : list message -> result string.

Definition citation_of (chunk : Doc.t) : Citation :=
  let meta := Doc.metadata chunk in
  let page := default "" (meta !! "page_number") in
  let page_num :=
    if negb (PyStr.is_empty page) && negb (String.eqb page "unknown")
    then py_int page else None in
  {| document_id := default "" (meta !! "document_id");
     filename := default "Documento desconocido" (meta !! "filename");
     chunk_text :=
       PyStr.slice_to (Doc.text chunk) 400
       +:+ (if 400 <? PyStr.len (Doc.text chunk) then "..." else "");
     page_number := page_num;
     relevance_score :=
       round4 (default (default 0%Q (Doc.rrf_score chunk))
                 (Doc.relevance chunk)) |}.

Definition _extract_citations (chunks : list Doc.t) : list Citation :=
  map citation_of chunks.

Definition user_message (context question : string) : string :=
  "Contexto de los documentos:" +:+ Ingestion.LF +:+ Ingestion.LF +:+ context
  +:+ Ingestion.LF +:+ Ingestion.LF +:+ "---" +:+ Ingestion.LF +:+ Ingestion.LF
  +:+ "Pregunta del usuario: " +:+ question +:+ Ingestion.LF +:+ Ingestion.LF
  +:+ "Responde bas" +:+ String "225"%char
        "ndote estrictamente en el contexto anterior.".

(** The answer given when the call to the model fails. *)
Definition error_answer (e : exn) : string :=
  "Error al conectar con el LLM (" +:+ llm_provider settings +:+ "). "
  +:+ "Aseg" +:+ String "250"%char "rate de que Ollama est"
  +:+ String "233"%char " ejecut" +:+ String "225"%char
        "ndose con `ollama serve`. Error: "
  +:+ PyStr.slice_to (exn_str e) 100.

Definition generate (question : string) (context_chunks : list Doc.t)
    (crag_status : string) : string * list Citation :=
  if String.eqb crag_status "insufficient"
  then (Crag.INSUFFICIENT_RESPONSE, [])
  else
    let context := _build_context context_chunks in
    let messages :=
      [{| role := "system"; content := SYSTEM_PROMPT |};
       {| role := "user"; content := user_message context question |}] in
    let answer :=
      match (if String.eqb (llm_provider settings) "openai"
             then _call_openai messages else _call_ollama messages) with
      | Ok answer => answer
      | Raise e => error_answer e
      end in
    let citations := _extract_citations context_chunks in
    (answer, citations).

End Generate.

(** Sample collaborators: a model that times out, and one that answers. *)
Definition timing_out (messages : list message) : result string :=
  Raise (CollaboratorError "timed out").

Definition answering (messages : list message) : result string :=
  Ok "42".

End Generator.

(** *** Order in a list *)

Module Rank.

(** [x] stands before [y] in [l]. *)
Definition precedes {A} (x y : A) (l : list A) : Prop :=
  exists l1 l2 l3, l = l1 ++ x :: l2 ++ y :: l3.

End Rank.

(** *** Start-up synchronisation of the lexical index ([main.py]) *)

Module Main.

(** The second step of [lifespan]: when the index loaded no text, it is
    rebuilt from the dump of the vector store, if that dump is obtained and
    is not empty; an exception of the dump is caught and reported. *)
Definition lifespan_sync (words : string -> list string)
    (get_all_chunks : result (list Doc.t)) : Eff BM25Store.world unit :=
  fun w =>
    if Py.is_nil (BM25Store._chunk_texts (BM25Store.index w)) then
      match get_all_chunks with
      | Ok all_chunks =>
          if Py.is_nil all_chunks then (Ok (), w)
          else
            (Ok (), snd (BM25Store.rebuild_from_store words all_chunks w))
      | Raise _ => (Ok (), w)
      end
    else (Ok (), w).

(** The index after a start of the process on the file [f]. *)
Definition startup (words : string -> list string) (f : BM25Store.file)
    (get_all_chunks : result (list Doc.t)) : BM25Store.world :=
  snd (lifespan_sync words get_all_chunks (BM25Store.__init__ words f)).

End Main.

(** *** Chunking of pages ([services/ingestion.py], [IngestionService]) *)

Module IngestionService.

(** A string that is not empty and that stripping leaves as it is. *)
Definition is_trimmed (c : string) : Prop := c <> "" /\ PyStr.strip c = c.

(** A page as [_extract] returns it: [{"text", "page_number"}]. *)
Record page : Type := { page_text : string; page_num : option Z }.

(** [str(n)] for an [int]. *)
Definition str_of_int (n : Z) : string := NilZero.string_of_int (Z.to_int n).

(** [str(page_num) if page_num else "unknown"]: [None] and 0 are falsy. *)
Definition page_label (page_num : option Z) : string :=
  match page_num with
  | Some n => if n =? 0 then "unknown" else str_of_int n
  | None => "unknown"
  end.

Section Chunking.

(** [str(uuid.uuid4())]: the identifier drawn at the [n]-th call. *)
Variable uuid4 : nat -> string.

(** The loop state of [_chunk_pages]: the chunks so far, [global_idx], and
    the number of identifiers drawn. *)
Definition chunking : Type := (list Chunk.t * Z * nat)%type.

(** The [Chunk(...)] built for a segment. *)
Definition make_chunk (document_id filename collection_name : string)
    (page_num : option Z) (global_idx : Z) (drawn : nat) (text : string)
    : Chunk.t :=
  {| Chunk.chunk_id := uuid4 drawn;
     Chunk.document_id := document_id;
     Chunk.filename := filename;
     Chunk.text := PyStr.strip text;
     Chunk.page_number := page_num;
     Chunk.chunk_index := global_idx;
     Chunk.metadata :=
       {[ "document_id" := document_id; "filename" := filename;
          "collection_name" := collection_name;
          "page_number" := page_label page_num ]} |}.

(** The body of [for text in raw_chunks]. *)
Definition chunk_text (document_id filename collection_name : string)
    (page_num : option Z) (st : chunking) (text : string) : chunking :=
  let '(chunks, global_idx, drawn) := st in
  if PyStr.is_empty (PyStr.strip text) then st
  else
    (chunks ++
       [make_chunk document_id filename collection_name page_num global_idx
          drawn text],
     global_idx + 1, S drawn).

(** The body of [for page in pages]; [None] when the segmenter does not
    return on the fuel given. *)
Definition chunk_page (fuel : nat)
    (document_id filename collection_name : string)
    (st : chunking) (p : page) : option chunking :=
  match Ingestion._recursive_split fuel (page_text p)
          (chunk_size settings) (chunk_overlap settings) with
  | None => None
  | Some raw_chunks =>
      Some (fold_left
              (chunk_text document_id filename collection_name (page_num p))
              raw_chunks st)
  end.

Fixpoint chunk_pages_from (fuel : nat)
    (document_id filename collection_name : string)
    (st : chunking) (pages : list page) : option chunking :=
  match pages with
  | [] => Some st
  | p :: rest =>
      match chunk_page fuel document_id filename collection_name st p with
      | None => None
      | Some st' =>
          chunk_pages_from fuel document_id filename collection_name st' rest
      end
  end.

(** [_chunk_pages], with the identifiers drawn from the [drawn]-th on. *)
Definition _chunk_pages (fuel : nat) (drawn : nat) (pages : list page)
    (document_id filename collection_name : string) : option (list Chunk.t) :=
  match chunk_pages_from fuel document_id filename collection_name
          ([], 0, drawn) pages with
  | None => None
  | Some (chunks, _, _) => Some chunks
  end.

(** [ingest], from the pages [_extract] returned: the document id is the
    first identifier drawn. *)
Definition ingest (fuel : nat) (raw_pages : list page)
    (filename collection_name : string) : option (string * list Chunk.t) :=
  let document_id := uuid4 0 in
  match _chunk_pages fuel 1 raw_pages document_id filename collection_name with
  | None => None
  | Some chunks => Some (document_id, chunks)
  end.

End Chunking.

(** The segments of the pages, page after page, each with the number of
    its page. *)
Fixpoint tagged_segments (fuel : nat) (pages : list page)
    : option (list (option Z * string)) :=
  match pages with
  | [] => Some []
  | p :: rest =>
      match Ingestion._recursive_split fuel (page_text p)
              (chunk_size settings) (chunk_overlap settings),
            tagged_segments fuel rest with
      | Some raw, Some more => Some (map (pair (page_num p)) raw ++ more)
      | _, _ => None
      end
  end.

(** The chunks of a list of tagged segments: the [i]-th has index [i] and
    the identifier drawn at call [drawn + i]. *)
Definition chunks_of_segments (uuid4 : nat -> string)
    (document_id filename collection_name : string) (drawn : nat)
    (tagged : list (option Z * string)) : list Chunk.t :=
  imap (fun i pt =>
          make_chunk uuid4 document_id filename collection_name (fst pt)
            (Z.of_nat i) (drawn + i) (snd pt))
       tagged.

(** Sample: identifiers ["id0"], ["id1"], ... and two short pages. *)
Definition sample_uuid4 (n : nat) : string :=
  "id" +:+ str_of_int (Z.of_nat n).

Definition sample_pages : list page :=
  [{| page_text := "  first page "; page_num := Some 1 |};
   {| page_text := "second page"; page_num := None |}].

End IngestionService.

(** *** Query endpoint ([api/query.py]) *)

Module QueryApi.

Record QueryRequest : Type := {
  question : string;
  collection_name : string;
  top_k : Z
}.

Record QueryResponse : Type := {
  answer : string;
  citations : list Generator.Citation;
  crag_status : string
}.

(** What a request leaves behind: the fetches the orchestrator issued to
    the two indices, and the calls the gate made to the embedding model. *)
Record trace : Type := {
  fetches : list HybridSearch.fetch;
  gate_calls : list (list string)
}.

Section Endpoint.

Variable vector_store_search :
  string -> option string -> Z -> result (list Doc.t).
Variable bm25_store_search :
  string -> option string -> Z -> result (list Doc.t).
Variable encode : list string -> result (list (list Q)).
Variable SYSTEM_PROMPT : string.
Variable _build_context : list Doc.t -> string.
Variable py_int : string -> option Z.
Variable round4 : Q -> Q.
Variable exn_str : exn -> string.
Variable _call_ollama : list Generator.message -> result string.
Variable _call_openai : list Generator.message -> result string.

(** [hybrid_search.search(question, collection_name=..., top_k=...)] *)
Definition hybrid_search (query : string) (collection_name : option string)
    (top_k : Z) : Eff trace (list Doc.t) := fun tr =>
  let run := HybridSearch.search vector_store_search bm25_store_search
               query collection_name top_k (fetches tr) in
  (fst run, {| fetches := snd run; gate_calls := gate_calls tr |}).

(** [crag_evaluator.evaluate(question, results)]: the default threshold,
    on the chunk objects the search returned. *)
Definition crag_evaluate (query : string) (results : list Doc.t)
    : Eff trace (string * list Doc.t) := fun tr =>
  let run := Crag.evaluate encode query results None
               {| Crag.embed_calls := gate_calls tr;
                  Crag.retrieved := results |} in
  (fst run,
   {| fetches := fetches tr; gate_calls := Crag.embed_calls (snd run) |}).

Definition query (request : QueryRequest) : Eff trace QueryResponse :=
  results ← hybrid_search (question request)
              (Some (collection_name request)) (top_k request);
  evaluated ← crag_evaluate (question request) results;
  let crag_status := fst evaluated in
  let filtered_chunks := snd evaluated in
  if String.eqb crag_status "insufficient"
  then mret {| answer := Crag.INSUFFICIENT_RESPONSE;
               citations := [];
               crag_status := "insufficient" |}
  else
    let generated :=
      Generator.generate settings SYSTEM_PROMPT _build_context py_int round4
        exn_str _call_ollama _call_openai
        (question request) filtered_chunks crag_status in
    mret {| answer := fst generated;
            citations := snd generated;
            crag_status := crag_status |}.

End Endpoint.

Definition sample_request : QueryRequest :=
  {| question := "q"; collection_name := "default"; top_k := 5 |}.

(** A sample semantic index with one hit and an empty lexical index. *)
Definition sample_semantic (query : string) (collection_name : option string)
    (top_k : Z) : result (list Doc.t) := Ok [HybridSearch.sample "c" "q"].

Definition sample_lexical (query : string) (collection_name : option string)
    (top_k : Z) : result (list Doc.t) := Ok [].

End QueryApi.

(** *** Collection registry ([services/collection_registry.py]) *)

Module CollectionRegistry.

(** [str.lower] on one character of the range U+0000..U+00FF: the letters
    A..Z and U+00C0..U+00DE, the sign U+00D7 apart, move up by 32. *)
Definition lower_char (c : ascii) : ascii :=
  let n := Z.of_N (N_of_ascii c) in
  if ((65 <=? n) && (n <=? 90))
     || ((192 <=? n) && (n <=? 222) && negb (n =? 215))
  then ascii_of_N (Z.to_N (n + 32)) else c.

Fixpoint lower (s : string) : string :=
  match s with
  | EmptyString => EmptyString
  | String c r => String (lower_char c) (lower r)
  end.

(** [sorted(l)] on strings: the order of the code points. *)
Fixpoint insert_sorted (x : string) (l : list string) : list string :=
  match l with
  | [] => [x]
  | y :: l' => if String.leb x y then x :: l else y :: insert_sorted x l'
  end.

Definition sorted (l : list string) : list string :=
  fold_right insert_sorted [] l.

(** The JSON file of the registry: missing, not readable as JSON, or
    holding the names that [set.update] takes from it. The names are
    strings: a file whose entries are not strings is not described. *)
Inductive file : Type :=
| Absent
| Unreadable
| Listing (names : list string).

(** The registry object and its file. *)
Record registry : Type := {
  _collections : gset string;
  disk : file
}.

Definition with_collections (names : gset string) (r : registry) : registry :=
  {| _collections := names; disk := disk r |}.

(** The failure to read the file is caught and reported. *)
Definition _load (r : registry) : registry :=
  match disk r with
  | Absent => r
  | Unreadable => r
  | Listing data => with_collections (_collections r ∪ list_to_set data) r
  end.

(** The file is written whole; a failure to write it, which is caught and
    reported, is left out. *)
Definition _save (r : registry) : registry :=
  {| _collections := _collections r;
     disk := Listing (sorted (elements (_collections r))) |}.

Definition __init__ (f : file) : registry :=
  let r := _load {| _collections := ∅; disk := f |} in
  if decide (_collections r = ∅)
  then _save (with_collections ({["default"]} ∪ _collections r) r)
  else r.

Definition add (name : string) (r : registry) : registry :=
  let name := lower (PyStr.strip name) in
  if PyStr.is_empty name then r
  else _save (with_collections ({[name]} ∪ _collections r) r).

Definition remove (name : string) (r : registry) : registry :=
  if decide (name ∈ _collections r)
  then _save (with_collections (_collections r ∖ {[name]}) r)
  else r.

Definition get_all (r : registry) : list string :=
  sorted (elements (_collections r)).

(** The calls that change a registry, and a run of them. *)
Inductive op : Type :=
| Add (name : string)
| Remove (name : string).

Definition run_op (o : op) (r : registry) : registry :=
  match o with
  | Add name => add name r
  | Remove name => remove name r
  end.

Definition run (ops : list op) (r : registry) : registry :=
  fold_left (fun r o => run_op o r) ops r.

(** The names a file gives to a registry that loads it. *)
Definition listed (f : file) : gset string :=
  match f with
  | Listing data => list_to_set data
  | _ => ∅
  end.

(** The file names what the registry holds. *)
Definition synced (r : registry) : Prop := listed (disk r) = _collections r.

(** A list of strings in ascending order of code points. *)
Definition ascending (l : list string) : Prop :=
  StronglySorted (fun a b => String.leb a b = true) l.

End CollectionRegistry.

(** *** Listings of the vector store ([services/vector_store.py]) *)

Module DocumentInfo.

Record t : Type := {
  document_id : string;
  filename : string;
  collection_name : string;
  chunk_count : Z;
  file_type : string
}.

End DocumentInfo.

Module CollectionInfo.

Record t : Type := {
  name : string;
  document_count : Z;
  chunk_count : Z
}.

End CollectionInfo.

Module VectorStore.

(** [sub in s] *)
Definition contains (sub s : string) : bool :=
  negb (PyStr.rfind s sub 0 (PyStr.len s) =? -1).

(** [s.rsplit(sep, 1)[-1]]: what follows the last [sep], or all of [s]. *)
Definition rsplit_last (s sep : string) : string :=
  let i := PyStr.rfind s sep 0 (PyStr.len s) in
  if i =? -1 then s else PyStr.slice_from s (i + PyStr.len sep).

(** [meta.get("collection_name", "default")] *)
Definition collection_of (chunk : Doc.t) : string :=
  default "default" (Doc.metadata chunk !! "collection_name").

(** [meta.get("document_id", "")] *)
Definition document_of (chunk : Doc.t) : string :=
  default "" (Doc.metadata chunk !! "document_id").

(** [collection_name and chunk_collection != collection_name] *)
Definition skipped (collection_name : option string) (chunk : Doc.t) : bool :=
  match collection_name with
  | Some cn =>
      negb (PyStr.is_empty cn) && negb (String.eqb (collection_of chunk) cn)
  | None => false
  end.

(** The entry made for a document when its first chunk is met. *)
Definition new_document (chunk : Doc.t) : DocumentInfo.t :=
  let meta := Doc.metadata chunk in
  {| DocumentInfo.document_id := document_of chunk;
     DocumentInfo.filename := default "unknown" (meta !! "filename");
     DocumentInfo.collection_name := collection_of chunk;
     DocumentInfo.chunk_count := 0;
     DocumentInfo.file_type :=
       if contains "." (default "" (meta !! "filename"))
       then rsplit_last (default "" (meta !! "filename")) "."
       else "unknown" |}.

Definition with_chunk_count (n : Z) (d : DocumentInfo.t) : DocumentInfo.t :=
  {| DocumentInfo.document_id := DocumentInfo.document_id d;
     DocumentInfo.filename := DocumentInfo.filename d;
     DocumentInfo.collection_name := DocumentInfo.collection_name d;
     DocumentInfo.chunk_count := n;
     DocumentInfo.file_type := DocumentInfo.file_type d |}.

(** One iteration of the loop of [get_documents]: the entry is made if the
    document is new, and its count goes up by one. *)
Definition see_chunk (collection_name : option string)
    (seen : list (string * DocumentInfo.t)) (chunk : Doc.t)
    : list (string * DocumentInfo.t) :=
  if skipped collection_name chunk then seen
  else
    let doc_id := document_of chunk in
    let entry := default (new_document chunk) (Py.get doc_id seen) in
    Py.set doc_id
      (with_chunk_count (DocumentInfo.chunk_count entry + 1) entry) seen.

Definition get_documents (get_all_chunks : result (list Doc.t))
    (collection_name : option string) : result (list DocumentInfo.t) :=
  all_chunks ← get_all_chunks;
  Ok (map snd (fold_left (see_chunk collection_name) all_chunks [])).

(** One iteration of the first loop of [get_collections]: the ids of the
    documents and the number of chunks of each collection. *)
Definition count_chunk (stats : list (string * (gset string * Z)))
    (chunk : Doc.t) : list (string * (gset string * Z)) :=
  let name := collection_of chunk in
  let doc_id := document_of chunk in
  let entry := default (∅, 0) (Py.get name stats) in
  Py.set name ({[doc_id]} ∪ fst entry, snd entry + 1) stats.

Definition collection_info (stats : list (string * (gset string * Z)))
    (name : string) : CollectionInfo.t :=
  match Py.get name stats with
  | Some entry =>
      {| CollectionInfo.name := name;
         CollectionInfo.document_count := Z.of_nat (size (fst entry));
         CollectionInfo.chunk_count := snd entry |}
  | None =>
      {| CollectionInfo.name := name;
         CollectionInfo.document_count := 0;
         CollectionInfo.chunk_count := 0 |}
  end.

Definition get_collections (get_all_chunks : result (list Doc.t))
    (collection_registry : CollectionRegistry.registry)
    : result (list CollectionInfo.t) :=
  all_chunks ← get_all_chunks;
  let stats := fold_left count_chunk all_chunks [] in
  let registered_names := CollectionRegistry.get_all collection_registry in
  Ok (map (collection_info stats) registered_names).

(** The chunks with key [k], counted. *)
Definition tally {A} (key : A -> string) (k : string) (l : list A) : Z :=
  Z.of_nat (length (List.filter (fun c => String.eqb (key c) k) l)).

Definition total (l : list Z) : Z := fold_right Z.add 0 l.

(** The chunks of a collection, and of a document. *)
Definition in_collection (name : string) (l : list Doc.t) : list Doc.t :=
  List.filter (fun c => String.eqb (collection_of c) name) l.

Definition of_document (id : string) (l : list Doc.t) : list Doc.t :=
  List.filter (fun c => String.eqb (document_of c) id) l.

(** The chunks [get_documents] counts under a filter. *)
Definition counted (collection_name : option string) (l : list Doc.t)
    : list Doc.t :=
  List.filter (fun c => negb (skipped collection_name c)) l.

(** The entry of a document among [chunks]: made from its first chunk, with
    the number of its chunks. *)
Definition document_info (chunks : list Doc.t) (id : string)
    : option DocumentInfo.t :=
  match of_document id chunks with
  | [] => None
  | c :: _ =>
      Some (with_chunk_count (tally document_of id chunks) (new_document c))
  end.

(** The statistics of a collection among [chunks]. *)
Definition collection_stats (chunks : list Doc.t) (name : string)
    : CollectionInfo.t :=
  {| CollectionInfo.name := name;
     CollectionInfo.document_count :=
       Z.of_nat (size (list_to_set (map document_of (in_collection name chunks))
                       : gset string));
     CollectionInfo.chunk_count := tally collection_of name chunks |}.

(** [collection_of chunk] is one of [names]. *)
Definition registered (names : list string) (chunk : Doc.t) : bool :=
  existsb (String.eqb (collection_of chunk)) names.

(** What [collection.query] returns: for each query embedding, the ids,
    documents, metadatas and distances of the records found. *)
Record QueryResult : Type := {
  ids : list (list string);
  documents : list (list string);
  metadatas : list (list (gmap string string));
  distances : list (list Q)
}.

(** [{"collection_name": collection_name} if collection_name else None] *)
Definition where_filter (collection_name : option string) : option string :=
  match collection_name with
  | Some cn => if PyStr.is_empty cn then None else Some cn
  | None => None
  end.

(** The body of the loop of [search]: the hit made of the [i]-th record. *)
Definition hit (results : QueryResult) (i : nat) (doc_id : string)
    : result Doc.t :=
  ds ← Py.item (distances results) 0;
  distance ← Py.item ds i;
  let similarity := (1 - distance / 2)%Q in
  texts ← Py.item (documents results) 0;
  text ← Py.item texts i;
  metas ← Py.item (metadatas results) 0;
  meta ← Py.item metas i;
  Ok {| Doc.id := doc_id; Doc.text := text; Doc.metadata := meta;
        Doc.score := Some similarity; Doc.rrf_score := None;
        Doc.relevance := None |}.

Fixpoint hits_of (results : QueryResult) (todo : list (nat * string))
    : result (list Doc.t) :=
  match todo with
  | [] => Ok []
  | (i, doc_id) :: rest =>
      h ← hit results i doc_id;
      hs ← hits_of results rest;
      Ok (h :: hs)
  end.

Section Search.

(** [embedding_service.embed_single], [collection.count] and
    [collection.query] with the embeddings, [n_results] and [where]. *)
Variable embed_single : string -> result (list Q).
Variable collection_count : result Z.
Variable collection_query :
  list (list Q) -> Z -> option string -> result QueryResult.

Definition search (query : string) (collection_name : option string)
    (top_k : Z) : result (list Doc.t) :=
  query_embedding ← embed_single query;
  count ← collection_count;
  results ← collection_query [query_embedding]
              (Z.min top_k (Z.max 1 count)) (where_filter collection_name);
  if Py.is_nil (ids results) then Ok []
  else
    ids0 ← Py.item (ids results) 0;
    hits_of results (Py.indexed 0 ids0).

End Search.

(** [h] is the [i]-th record of the first list of [results]: its id, text
    and metadata, with the similarity [1 - distance / 2] for score. *)
Definition record_of (results : QueryResult) (i : nat) (h : Doc.t) : Prop :=
  exists ids0 ds texts metas d,
    nth_error (ids results) 0 = Some ids0 /\
    nth_error ids0 i = Some (Doc.id h) /\
    nth_error (distances results) 0 = Some ds /\
    nth_error ds i = Some d /\
    Doc.score h = Some (1 - d / 2)%Q /\
    nth_error (documents results) 0 = Some texts /\
    nth_error texts i = Some (Doc.text h) /\
    nth_error (metadatas results) 0 = Some metas /\
    nth_error metas i = Some (Doc.metadata h) /\
    Doc.rrf_score h = None /\ Doc.relevance h = None.

(** Distances in ascending order. *)
Definition ascending (l : list Q) : Prop :=
  StronglySorted (fun a b => (a <= b)%Q) l.

(** A sample answer of the store: two records, the nearer first. *)
Definition sample_result : QueryResult :=
  {| ids := [["c1"; "c2"]]; documents := [["alpha"; "beta"]];
     metadatas := [[∅; ∅]]; distances := [[0%Q; 1%Q]] |}.

(** A chunk of a document in a collection. *)
Definition sample (document_id collection_name : string) : Doc.t :=
  {| Doc.id := "c"; Doc.text := "t";
     Doc.metadata := {[ "document_id" := document_id;
                        "collection_name" := collection_name;
                        "filename" := "notes.md" ]};
     Doc.score := None; Doc.rrf_score := None; Doc.relevance := None |}.

End VectorStore.

(** *** Endpoints that delete ([api/collections.py], [api/documents.py]) *)

Module Api.

(** What an endpoint answers: the body of its response, or the
    [HTTPException] it raises. *)
Inductive response : Type :=
| Body (message : string)
| HTTPException (status_code : Z) (detail : string).

(** The services an endpoint works on: the registry of collections and the
    lexical index, each with its file. *)
Record services : Type := {
  collection_registry : CollectionRegistry.registry;
  bm25_store : BM25Store.world
}.

Section Endpoints.

Variable words : string -> list string.

(** [str(e)] *)
Variable exn_str : exn -> string.

(** The vector store: what [delete_collection], [delete_document] and
    [get_all_chunks] answer when the endpoint calls them. *)
Variable vector_store_delete_collection : string -> result unit.
Variable vector_store_delete_document : string -> result unit.
Variable vector_store_get_all_chunks : result (list Doc.t).

Definition on_registry (f : CollectionRegistry.registry ->
                            CollectionRegistry.registry)
    : Eff services unit := fun s =>
  (Ok (), {| collection_registry := f (collection_registry s);
             bm25_store := bm25_store s |}).

Definition on_bm25_store {A} (m : Eff BM25Store.world A) : Eff services A :=
  fun s =>
    let run := m (bm25_store s) in
    (fst run, {| collection_registry := collection_registry s;
                 bm25_store := snd run |}).

(** [try: ... except Exception as e: raise HTTPException(status, str(e))] *)
Definition or_http_error (status_code : Z) (body : Eff services string)
    (s : services) : response * services :=
  match body s with
  | (Ok message, s') => (Body message, s')
  | (Raise e, s') => (HTTPException status_code (exn_str e), s')
  end.

Definition create_collection (name : string)
    : services -> response * services :=
  or_http_error 500
    (on_registry (CollectionRegistry.add name);;
     mret ("Colecci" +:+ String "243"%char "n '" +:+ name +:+ "' creada.")).

Definition delete_collection (name : string)
    : services -> response * services :=
  or_http_error 500
    (on_registry (CollectionRegistry.remove name);;
     lift (vector_store_delete_collection name);;
     all_chunks ← lift vector_store_get_all_chunks;
     on_bm25_store (BM25Store.rebuild_from_store words all_chunks);;
     mret ("Colecci" +:+ String "243"%char "n '" +:+ name
           +:+ "' eliminada correctamente.")).

Definition delete_document (document_id : string)
    : services -> response * services :=
  or_http_error 404
    (lift (vector_store_delete_document document_id);;
     on_bm25_store (BM25Store.delete_document words document_id);;
     mret ("Documento " +:+ PyStr.slice_to document_id 8
           +:+ " eliminado correctamente.")).

(** [list_collections]: a failure is reported and answered by the empty
    list. *)
Definition list_collections (s : services) : list CollectionInfo.t :=
  match VectorStore.get_collections vector_store_get_all_chunks
          (collection_registry s) with
  | Ok raw => raw
  | Raise _ => []
  end.

End Endpoints.

End Api.

(** ** Part II: properties *)

(** *** Python strings: lengths of slices and of stripped strings *)

Section PyStrFacts.

Import PyStr.

Lemma len_nonneg s : 0 <= len s.
Proof. unfold len. lia. Qed.

Lemma length_str_take n s : String.length (take n s) = Nat.min n (String.length s).
Proof.
  revert s. induction n as [|n IH]; intros [|c r]; simpl; try reflexivity.
  now rewrite IH.
Qed.

Lemma length_str_drop n s : String.length (drop n s) = (String.length s - n)%nat.
Proof.
  revert s. induction n as [|n IH]; intros [|c r]; simpl; try reflexivity.
  apply IH.
Qed.

Lemma drop_0 s : drop 0 s = s.
Proof. now destruct s. Qed.

Lemma length_lstrip s : (String.length (lstrip s) <= String.length s)%nat.
Proof.
  induction s as [|c r IH]; simpl; [lia|].
  destruct (isspace c); simpl; lia.
Qed.

Lemma length_rstrip s : (String.length (rstrip s) <= String.length s)%nat.
Proof.
  induction s as [|c r IH]; simpl; [lia|].
  destruct (is_empty (rstrip r) && isspace c); simpl; lia.
Qed.

Lemma len_strip s : len (strip s) <= len s.
Proof.
  unfold len, strip.
  pose proof (length_lstrip (rstrip s)). pose proof (length_rstrip s). lia.
Qed.

Lemma is_empty_true s : is_empty s = true <-> s = "".
Proof. destruct s; simpl; split; congruence. Qed.

Lemma slice_bound_nonneg n i : 0 <= n -> 0 <= i -> slice_bound n i = Z.min i n.
Proof. intros Hn Hi. unfold slice_bound. destruct (Z.ltb_spec i 0); lia. Qed.

Lemma len_slice_to s i : 0 <= i -> len (slice_to s i) = Z.min i (len s).
Proof.
  intros Hi. unfold slice_to. rewrite slice_bound_nonneg by (auto using len_nonneg).
  unfold len. rewrite length_str_take. lia.
Qed.

Lemma take_all n s : (String.length s <= n)%nat -> take n s = s.
Proof.
  revert n. induction s as [|c r IH]; intros [|n] H; simpl in *;
    try reflexivity; [lia|].
  rewrite IH; [reflexivity | lia].
Qed.

Lemma slice_to_all s i : len s <= i -> slice_to s i = s.
Proof.
  intros Hi. pose proof (len_nonneg s) as Hn. unfold slice_to.
  rewrite slice_bound_nonneg by lia. apply take_all. unfold len in *. lia.
Qed.

Lemma append_empty_r s : s +:+ "" = s.
Proof.
  induction s as [|c r IH]; [reflexivity|].
  change (String c r +:+ "") with (String c (r +:+ "")). now rewrite IH.
Qed.

Lemma len_slice_from s i :
  0 <= i -> len (slice_from s i) = len s - Z.min i (len s).
Proof.
  intros Hi. unfold slice_from. rewrite slice_bound_nonneg by (auto using len_nonneg).
  unfold len. rewrite length_str_drop. lia.
Qed.

Lemma slice_from_0 s : slice_from s 0 = s.
Proof.
  unfold slice_from. rewrite slice_bound_nonneg by (pose proof (len_nonneg s); lia).
  replace (Z.to_nat (Z.min 0 (len s))) with 0%nat
    by (pose proof (len_nonneg s); lia).
  apply drop_0.
Qed.

(** [rfind_down] answers [-1] or one of its candidates. *)
Lemma rfind_down_range sub s lo n :
  rfind_down sub s lo n = -1 \/
  Z.of_nat lo <= rfind_down sub s lo n <= Z.of_nat (lo + n).
Proof.
  induction n as [|n IH]; simpl.
  - destruct (String.prefix sub (drop (lo + 0) s)); [right; lia | now left].
  - destruct (String.prefix sub (drop (lo + S n) s)); [right; lia|].
    destruct IH as [IH|IH]; [now left | right; lia].
Qed.

(** A successful [rfind] from 0 lies, with the whole match, inside the
    window [0 .. stop]. *)
Lemma rfind_range s sub stop :
  0 <= stop ->
  rfind s sub 0 stop = -1 \/
  (0 <= rfind s sub 0 stop /\ rfind s sub 0 stop + len sub <= Z.min stop (len s)).
Proof.
  intros Hstop. unfold rfind.
  pose proof (len_nonneg s) as Hs.
  rewrite !slice_bound_nonneg by lia.
  replace (Z.min 0 (len s)) with 0 by lia.
  destruct (Z.ltb_spec (Z.min stop (len s) - 0) (len sub)); [now left|].
  destruct (rfind_down_range sub s (Z.to_nat 0)
              (Z.to_nat (Z.min stop (len s) - len sub - 0))) as [E|E];
    [now left | right; lia].
Qed.

End PyStrFacts.

(** *** Text segmenter *)

Section SegmenterFacts.

Import Ingestion.

#[local] Arguments split_step : simpl never.

(** With a positive [chunk_size] the split point is inside [1 .. chunk_size]. *)
Lemma find_split_range t cs :
  0 < cs -> 1 <= find_split boundaries t cs <= cs.
Proof.
  intros Hcs. unfold boundaries.
  assert (Hb : forall b bs, PyStr.is_empty b = false ->
            (1 <= find_split bs t cs <= cs) ->
            1 <= find_split (b :: bs) t cs <= cs).
  { intros b bs Hne IH. cbn. rewrite Hne.
    assert (1 <= PyStr.len b)
      by (destruct b; [discriminate | unfold PyStr.len; simpl; lia]).
    destruct (rfind_range t b cs) as [E|[E1 E2]]; [lia| |].
    - rewrite E. cbn. exact IH.
    - destruct (Z.eqb_spec (PyStr.rfind t b 0 cs) (-1)); cbn; [exact IH | lia]. }
  repeat (apply Hb; [reflexivity|]).
  cbn. lia.
Qed.

Lemma hard_cut_find_split t cs :
  hard_cut t cs = true -> find_split boundaries t cs = cs.
Proof.
  unfold hard_cut, boundaries. cbn.
  rewrite !andb_true_iff. intros (H1 & H2 & H3 & H4 & _).
  now rewrite H1, H2, H3, H4.
Qed.

(** Every chunk an iteration extracts fits in [chunk_size]. *)
Lemma len_step_chunk t cs : 0 < cs -> PyStr.len (step_chunk t cs) <= cs.
Proof.
  intros Hcs. unfold step_chunk.
  pose proof (find_split_range t cs Hcs) as Hr.
  pose proof (len_strip (PyStr.slice_to t (find_split boundaries t cs))) as Hs.
  rewrite len_slice_to in Hs by lia. lia.
Qed.

(** The chunks component of the next state. *)
Lemma snd_split_step cs ov t chunks :
  snd (split_step cs ov (t, chunks)) =
  if PyStr.is_empty (step_chunk t cs) then chunks
  else chunks ++ [step_chunk t cs].
Proof. reflexivity. Qed.

Lemma split_step_fits cs ov st :
  0 < cs -> fits cs (snd st) -> fits cs (snd (split_step cs ov st)).
Proof.
  intros Hcs Hst. destruct st as [t chunks]. rewrite snd_split_step.
  cbn [snd] in Hst.
  destruct (PyStr.is_empty (step_chunk t cs)); [exact Hst|].
  apply Forall_app. split; [exact Hst|].
  constructor; [now apply len_step_chunk | constructor].
Qed.

Lemma iter_split_step_fits cs ov st n :
  0 < cs -> fits cs (snd st) ->
  fits cs (snd (Nat.iter n (split_step cs ov) st)).
Proof.
  intros Hcs Hst. induction n as [|n IH]; simpl; [exact Hst|].
  now apply split_step_fits.
Qed.

Lemma split_loop_fits fuel cs ov st st' :
  0 < cs -> fits cs (snd st) ->
  split_loop fuel cs ov st = Some st' ->
  fits cs (snd st') /\ PyStr.len (fst st') <= cs.
Proof.
  intros Hcs. revert st. induction fuel as [|fuel IH]; intros st Hst; simpl.
  - destruct (Z.leb_spec (PyStr.len (fst st)) cs); [|discriminate].
    intros [= <-]. auto.
  - destruct (Z.leb_spec (PyStr.len (fst st)) cs).
    + intros [= <-]. auto.
    + apply IH. now apply split_step_fits.
Qed.

(** The text component of the next state does not depend on the chunks. *)
Lemma fst_split_step cs ov t chunks :
  fst (split_step cs ov (t, chunks)) =
  PyStr.slice_from t (Z.max 0 (find_split boundaries t cs - ov)).
Proof. reflexivity. Qed.

(** When the split point does not exceed the overlap, the remaining text is
    restarted at offset 0: the loop makes no progress and no fuel suffices. *)
Lemma split_loop_stuck cs ov t :
  cs < PyStr.len t -> find_split boundaries t cs <= ov ->
  forall fuel chunks, split_loop fuel cs ov (t, chunks) = None.
Proof.
  intros Hlen Hsplit. induction fuel as [|fuel IH]; intros chunks; simpl;
    destruct (Z.leb_spec (PyStr.len t) cs); try lia; [reflexivity|].
  pose proof (fst_split_step cs ov t chunks) as E.
  replace (Z.max 0 (find_split boundaries t cs - ov)) with 0 in E by lia.
  rewrite slice_from_0 in E.
  destruct (split_step cs ov (t, chunks)) as [t' chunks']. simpl in E.
  subst t'. apply IH.
Qed.

Lemma recursive_split_stuck cs ov text :
  PyStr.is_empty (PyStr.strip text) = false ->
  cs < PyStr.len text -> find_split boundaries text cs <= ov ->
  forall fuel, _recursive_split fuel text cs ov = None.
Proof.
  intros Hne Hlen Hsplit fuel. unfold _recursive_split.
  rewrite Hne, orb_false_r.
  destruct text as [|c r]; [discriminate|]. simpl PyStr.is_empty.
  destruct (Z.leb_spec (PyStr.len (String c r)) cs); [lia|].
  now rewrite split_loop_stuck.
Qed.

(** Without overlap every iteration consumes at least one character, so the
    loop is left after at most [len text] iterations. *)
Lemma split_loop_no_overlap cs fuel st :
  0 < cs -> PyStr.len (fst st) <= Z.of_nat fuel ->
  exists st', split_loop fuel cs 0 st = Some st'.
Proof.
  intros Hcs. revert st. induction fuel as [|fuel IH]; intros st Hfuel; simpl;
    destruct (Z.leb_spec (PyStr.len (fst st)) cs); eauto.
  - pose proof (len_nonneg (fst st)). lia.
  - apply IH. destruct st as [t chunks]. rewrite fst_split_step.
    pose proof (find_split_range t cs Hcs). simpl in *.
    rewrite len_slice_from by lia. lia.
Qed.

End SegmenterFacts.

(** C3 (fails on the code). With the configured sizes 512 and 64 the loop
    of [_recursive_split] never ends on a short heading followed by a
    paragraph break and a long paragraph: the only paragraph break of the
    first 512 characters ends at offset 8, which is not beyond the overlap,
    so the remaining text restarts at offset 0 unchanged. No amount of fuel
    yields a result. *)
Theorem recursive_split_diverges_with_configured_sizes :
  forall fuel,
    Ingestion._recursive_split fuel Ingestion.heading_then_paragraph
      (chunk_size settings) (chunk_overlap settings) = None.
Proof.
  apply recursive_split_stuck.
  - vm_compute. reflexivity.
  - vm_compute. reflexivity.
  - vm_compute. discriminate.
Qed.

(** The segmenter does end when there is no overlap: the fuel [len text]
    is enough. *)
Lemma recursive_split_no_overlap_total text cs :
  0 < cs ->
  exists chunks,
    Ingestion._recursive_split (String.length text) text cs 0 = Some chunks.
Proof.
  intros Hcs. unfold Ingestion._recursive_split.
  destruct (_ || _); [eauto|].
  destruct (_ <=? _); [eauto|].
  destruct (split_loop_no_overlap cs (String.length text) (text, []) Hcs)
    as [[t chunks] E]; [simpl; unfold PyStr.len; lia|].
  rewrite E. eauto.
Qed.

(** C4, as stated, fails on the hard-cut clause: on ["\\tabcdefgh"] with
    [maxSize = 4] no separator occurs in the first 4 characters, the cut is
    hard, and the chunk emitted is ["abc"], of length 3: the TAB is
    stripped. *)
Lemma hard_cut_chunk_shorter_than_max_size :
  0 < 4 /\ 0 <= 1 /\
  Ingestion.hard_cut Ingestion.tab_then_letters 4 = true /\
  Ingestion.step_chunk Ingestion.tab_then_letters 4 = "abc" /\
  PyStr.len (Ingestion.step_chunk Ingestion.tab_then_letters 4) <> 4 /\
  Ingestion._recursive_split 2 Ingestion.tab_then_letters 4 1
    = Some ["abc"; "cdef"; "fgh"].
Proof. vm_compute. repeat split; congruence. Qed.

(** C4 (amended). For [maxSize > 0] and any overlap: a text that is empty
    or only whitespace gives the empty sequence; any other text of length
    at most [maxSize] gives exactly its stripped form; every chunk emitted
    by the loop, after any number of iterations, and every chunk of a
    returned result has length at most [maxSize]; a chunk produced by a
    hard cut is the stripped first [maxSize] characters, so its length is at
    most [maxSize], and exactly [maxSize] when stripping removes nothing
    from them. *)
Theorem segment_shape (text : string) (cs ov : Z) :
  0 < cs ->
  (PyStr.strip text = "" ->
     forall fuel, Ingestion._recursive_split fuel text cs ov = Some []) /\
  (PyStr.strip text <> "" -> PyStr.len text <= cs ->
     forall fuel,
       Ingestion._recursive_split fuel text cs ov = Some [PyStr.strip text]) /\
  (forall n,
     Ingestion.fits cs
       (snd (Nat.iter n (Ingestion.split_step cs ov) (text, [])))) /\
  (forall fuel chunks,
     Ingestion._recursive_split fuel text cs ov = Some chunks ->
     Ingestion.fits cs chunks) /\
  (cs < PyStr.len text -> Ingestion.hard_cut text cs = true ->
     Ingestion.step_chunk text cs = PyStr.strip (PyStr.slice_to text cs) /\
     PyStr.len (Ingestion.step_chunk text cs) <= cs /\
     (PyStr.strip (PyStr.slice_to text cs) = PyStr.slice_to text cs ->
      PyStr.len (Ingestion.step_chunk text cs) = cs)).
Proof.
  intros Hcs. repeat split.
  - intros Hblank fuel. unfold Ingestion._recursive_split.
    rewrite Hblank. simpl. now rewrite orb_true_r.
  - intros Hne Hlen fuel. unfold Ingestion._recursive_split.
    destruct (PyStr.is_empty (PyStr.strip text)) eqn:E;
      [now apply is_empty_true in E|].
    destruct text as [|c r]; [now contradict Hne|]. simpl PyStr.is_empty.
    cbn [orb]. destruct (Z.leb_spec (PyStr.len (String c r)) cs); [reflexivity | lia].
  - intros n. apply iter_split_step_fits; [exact Hcs | constructor].
  - intros fuel chunks. unfold Ingestion._recursive_split.
    destruct (_ || _); [intros [= <-]; constructor|].
    destruct (Z.leb_spec (PyStr.len text) cs) as [Hle|Hgt].
    + intros [= <-]. constructor; [|constructor].
      pose proof (len_strip text). lia.
    + destruct (Ingestion.split_loop fuel cs ov (text, [])) as [[t cks]|] eqn:E;
        [|discriminate].
      apply split_loop_fits in E as [Hfits Hrest]; [|exact Hcs|constructor].
      simpl in Hfits, Hrest.
      destruct (PyStr.is_empty (PyStr.strip t)); intros [= <-]; [exact Hfits|].
      apply Forall_app. split; [exact Hfits|].
      constructor; [|constructor]. pose proof (len_strip t). lia.
  - unfold Ingestion.step_chunk. now rewrite hard_cut_find_split.
  - now apply len_step_chunk.
  - intros Hstrip. unfold Ingestion.step_chunk.
    rewrite hard_cut_find_split by assumption. rewrite Hstrip.
    rewrite len_slice_to by lia. lia.
Qed.

Lemma segment_shape_witness :
  0 < 4 /\
  Ingestion.fits 4
    (snd (Nat.iter 2 (Ingestion.split_step 4 1) (Ingestion.tab_then_letters, []))).
Proof.
  split; [lia|].
  apply (segment_shape Ingestion.tab_then_letters 4 1); lia.
Defined.


(** *** Python dicts in insertion order *)

Section DictFacts.

Context {V : Type}.
Implicit Types (d : list (string * V)) (k : string) (v : V).

Lemma get_set_eq k v d : Py.get k (Py.set k v d) = Some v.
Proof.
  induction d as [|[k0 v0] d IH]; simpl.
  - now rewrite String.eqb_refl.
  - destruct (String.eqb_spec k0 k) as [->|Hne]; simpl.
    + now rewrite String.eqb_refl.
    + destruct (String.eqb_spec k0 k); [contradiction | exact IH].
Qed.

Lemma get_set_ne k k' v d : k <> k' -> Py.get k' (Py.set k v d) = Py.get k' d.
Proof.
  intros Hne. induction d as [|[k0 v0] d IH]; simpl.
  - destruct (String.eqb_spec k k'); [contradiction | reflexivity].
  - destruct (String.eqb_spec k0 k) as [->|Hne0]; simpl.
    + destruct (String.eqb_spec k k'); [contradiction | reflexivity].
    + destruct (String.eqb_spec k0 k'); [reflexivity | exact IH].
Qed.

Lemma get_None_keys k d : Py.get k d = None <-> ~ In k (map fst d).
Proof.
  induction d as [|[k0 v0] d IH]; simpl; [tauto|].
  destruct (String.eqb_spec k0 k) as [->|Hne]; [split; [discriminate | tauto]|].
  rewrite IH. tauto.
Qed.

Lemma get_Some_keys k d : is_Some (Py.get k d) <-> In k (map fst d).
Proof.
  rewrite <- not_eq_None_Some, get_None_keys.
  destruct (in_dec string_dec k (map fst d)); tauto.
Qed.

(** Assigning to a present key keeps the key order; a new key goes last. *)
Lemma keys_set k v d :
  map fst (Py.set k v d) =
  match Py.get k d with
  | Some _ => map fst d
  | None => map fst d ++ [k]
  end.
Proof.
  induction d as [|[k0 v0] d IH]; simpl; [reflexivity|].
  destruct (String.eqb_spec k0 k) as [->|Hne]; simpl; [reflexivity|].
  rewrite IH. now destruct (Py.get k d).
Qed.

End DictFacts.

(** *** The stable descending sort *)

Section SortFacts.

Context {A : Type} (key : A -> Q).

Lemma Qltb_lt a b : Py.Qltb a b = true <-> (a < b)%Q.
Proof.
  unfold Py.Qltb. rewrite negb_true_iff, <- not_true_iff_false, Qle_bool_iff.
  split; [apply Qnot_le_lt | apply Qlt_not_le].
Qed.

Lemma Qltb_ge a b : Py.Qltb a b = false <-> (b <= a)%Q.
Proof.
  unfold Py.Qltb. now rewrite negb_false_iff, Qle_bool_iff.
Qed.

Lemma insert_desc_perm x l : Permutation (Py.insert_desc key x l) (x :: l).
Proof.
  induction l as [|y l IH]; simpl; [reflexivity|].
  destruct (Py.Qltb (key x) (key y)); [|reflexivity].
  rewrite IH. apply perm_swap.
Qed.

Lemma sorted_desc_perm l : Permutation (Py.sorted_desc key l) l.
Proof.
  induction l as [|x l IH]; simpl; [reflexivity|].
  now rewrite insert_desc_perm, IH.
Qed.

Lemma insert_desc_descending x l :
  Py.descending key l -> Py.descending key (Py.insert_desc key x l).
Proof.
  unfold Py.descending. induction 1 as [|y l Hl IH Hy]; simpl.
  - repeat constructor.
  - destruct (Py.Qltb (key x) (key y)) eqn:E.
    + constructor; [exact IH|].
      apply Forall_forall. intros z Hz.
      rewrite (insert_desc_perm x l) in Hz.
      apply elem_of_cons in Hz as [->|Hz].
      * apply Qltb_lt in E. now apply Qlt_le_weak.
      * rewrite Forall_forall in Hy. now apply Hy.
    + apply Qltb_ge in E. constructor; [now constructor|].
      constructor; [exact E|].
      rewrite Forall_forall in Hy |- *. intros z Hz.
      apply Qle_trans with (key y); [now apply Hy | exact E].
Qed.

Lemma sorted_desc_descending l : Py.descending key (Py.sorted_desc key l).
Proof.
  induction l as [|x l IH]; simpl; [constructor|].
  now apply insert_desc_descending.
Qed.

(** Stability: the elements of one key class keep their relative order. *)
Lemma insert_desc_stable (P : A -> bool) x l :
  (forall a b, P a = true -> P b = true -> (key a == key b)%Q) ->
  List.filter P (Py.insert_desc key x l) = List.filter P (x :: l).
Proof.
  intros HP. induction l as [|y l IH]; [reflexivity|].
  cbn [Py.insert_desc].
  destruct (Py.Qltb (key x) (key y)) eqn:E; [|reflexivity].
  cbn [List.filter] in *. rewrite IH.
  destruct (P x) eqn:Px, (P y) eqn:Py; try reflexivity.
  apply Qltb_lt in E. rewrite (HP x y Px Py) in E.
  now apply Qlt_irrefl in E.
Qed.

Lemma sorted_desc_stable (P : A -> bool) l :
  (forall a b, P a = true -> P b = true -> (key a == key b)%Q) ->
  List.filter P (Py.sorted_desc key l) = List.filter P l.
Proof.
  intros HP. induction l as [|x l IH]; [reflexivity|].
  cbn [Py.sorted_desc]. rewrite insert_desc_stable by exact HP.
  cbn [List.filter]. now rewrite IH.
Qed.

End SortFacts.

(** *** Floats: the rounding is monotone and leaves floats as they are *)

Section FloatFacts.

Import Float.
#[local] Open Scope Q_scope.

Lemma pow2_pos q : 0 < 2 ^ q.
Proof. now apply Qpower_0_lt. Qed.

Lemma pow2_add a b : 2 ^ (a + b) == 2 ^ a * 2 ^ b.
Proof. now apply Qpower_plus. Qed.

Lemma pow2_cancel q : 2 ^ q * 2 ^ (- q) == 1.
Proof. rewrite <- pow2_add, Z.add_opp_diag_r. reflexivity. Qed.

Lemma pow2_le a b : (a <= b)%Z -> 2 ^ a <= 2 ^ b.
Proof. intros H. now apply Qpower_le_compat_l. Qed.

Lemma pow2_lt_inv a b : 2 ^ a < 2 ^ b -> (a < b)%Z.
Proof. intros H. now apply (Qpower_lt_compat_l_inv 2). Qed.

Lemma pow2_inject a : (0 <= a)%Z -> inject_Z (2 ^ a) == 2 ^ a.
Proof. intros H. now rewrite Zpower_Qpower. Qed.

Lemma rne_comp y z : y == z -> rne y = rne z.
Proof.
  intros H. unfold rne. rewrite (Qfloor_comp _ _ H).
  assert (E : (y - inject_Z (Qfloor z) ?= 1 # 2)
              = (z - inject_Z (Qfloor z) ?= 1 # 2))
    by (apply Qcompare_comp; [now rewrite H | reflexivity]).
  now rewrite E.
Qed.

Lemma rne_bounds y : (Qfloor y <= rne y <= Qfloor y + 1)%Z.
Proof.
  unfold rne. destruct (_ ?= _); try lia.
  destruct (Z.even _); lia.
Qed.

Lemma rne_Z z : rne (inject_Z z) = z.
Proof.
  unfold rne. rewrite Qfloor_Z.
  assert (E : (inject_Z z - inject_Z z ?= 1 # 2) = Lt).
  { apply Qlt_alt. setoid_replace (inject_Z z - inject_Z z) with 0
      using relation Qeq by ring.
    reflexivity. }
  now rewrite E.
Qed.

Lemma rne_mono y z : y <= z -> (rne y <= rne z)%Z.
Proof.
  intros H. pose proof (Qfloor_resp_le _ _ H) as Hf.
  destruct (Z.eq_dec (Qfloor y) (Qfloor z)) as [E|NE].
  - unfold rne. rewrite <- E.
    destruct (Qcompare_spec (y - inject_Z (Qfloor y)) (1 # 2));
      destruct (Qcompare_spec (z - inject_Z (Qfloor y)) (1 # 2));
      try lia; try (destruct (Z.even _); lia); exfalso; lra.
  - pose proof (rne_bounds y). pose proof (rne_bounds z). lia.
Qed.

Lemma ilog2_spec x : 0 < x -> 2 ^ ilog2 x <= x /\ x < 2 ^ (ilog2 x + 1).
Proof.
  intros Hx. unfold ilog2.
  set (e0 := (Z.log2 (Qnum x) - Z.log2 (Zpos (Qden x)))%Z).
  assert (Hb : 2 ^ (e0 - 1) < x /\ x < 2 ^ (e0 + 1)).
  { subst e0. destruct x as [n d]. cbn [Qnum Qden].
    assert (Hn : (0 < n)%Z) by (unfold Qlt in Hx; simpl in Hx; lia).
    pose proof (Z.log2_spec n Hn) as [Hn1 Hn2].
    pose proof (Z.log2_spec (Zpos d) eq_refl) as [Hd1 Hd2].
    pose proof (Z.log2_nonneg n) as Ha.
    pose proof (Z.log2_nonneg (Zpos d)) as Hb.
    set (a := Z.log2 n) in *. set (b := Z.log2 (Zpos d)) in *.
    rewrite Zle_Qle, pow2_inject in Hn1 by lia.
    rewrite Zlt_Qlt, pow2_inject in Hn2 by lia.
    rewrite Zle_Qle, pow2_inject in Hd1 by lia.
    rewrite Zlt_Qlt, pow2_inject in Hd2 by lia.
    replace (Z.succ a) with (a + 1)%Z in Hn2 by lia.
    replace (Z.succ b) with (b + 1)%Z in Hd2 by lia.
    rewrite pow2_add in Hn2, Hd2.
    change (2 ^ 1) with 2 in Hn2, Hd2.
    assert (E1 : 2 ^ (a - b - 1) * (2 * 2 ^ b) == 2 ^ a).
    { replace (2 * 2 ^ b) with (2 ^ 1 * 2 ^ b) by reflexivity.
      rewrite <- !pow2_add. now replace (a - b - 1 + (1 + b))%Z with a by lia. }
    assert (E2 : 2 ^ (a - b + 1) * 2 ^ b == 2 * 2 ^ a).
    { replace (2 * 2 ^ a) with (2 ^ 1 * 2 ^ a) by reflexivity.
      rewrite <- !pow2_add. now replace (a - b + 1 + b)%Z with (1 + a)%Z by lia. }
    assert (Ex : (n # d) * inject_Z (Zpos d) == inject_Z n).
    { rewrite (Qmake_Qdiv n d). field. discriminate. }
    pose proof (pow2_pos a). pose proof (pow2_pos b).
    pose proof (pow2_pos (a - b - 1)). pose proof (pow2_pos (a - b + 1)).
    set (A := 2 ^ a) in *. set (B := 2 ^ b) in *.
    set (P := 2 ^ (a - b - 1)) in *. set (R := 2 ^ (a - b + 1)) in *.
    set (N := inject_Z n) in *. set (D := inject_Z (Zpos d)) in *.
    set (X := n # d) in *.
    split.
    - apply (Qmult_lt_r _ _ (2 * B)); [lra|].
      apply Qle_lt_trans with (X * D); [lra|].
      apply Qmult_lt_l; [exact Hx | lra].
    - apply (Qmult_lt_r _ _ B); [lra|].
      apply Qle_lt_trans with (X * D); [|lra].
      apply Qmult_le_l; [exact Hx | lra]. }
  destruct Hb as [Hb1 Hb2].
  destruct (Qle_bool (2 ^ e0) x) eqn:E.
  - apply Qle_bool_iff in E. now split.
  - replace (e0 - 1 + 1)%Z with e0 by lia. split; [now apply Qlt_le_weak|].
    apply Qnot_le_lt. intros H. apply Qle_bool_iff in H. congruence.
Qed.

Lemma ilog2_unique x e : 0 < x -> 2 ^ e <= x -> x < 2 ^ (e + 1) -> ilog2 x = e.
Proof.
  intros Hx H1 H2. destruct (ilog2_spec x Hx) as [H3 H4].
  assert (ilog2 x < e + 1)%Z by (apply pow2_lt_inv; lra).
  assert (e < ilog2 x + 1)%Z by (apply pow2_lt_inv; lra).
  lia.
Qed.

Lemma ilog2_mono x y : 0 < x -> x <= y -> (ilog2 x <= ilog2 y)%Z.
Proof.
  intros Hx Hxy. destruct (ilog2_spec x Hx) as [H1 _].
  destruct (ilog2_spec y) as [_ H2]; [lra|].
  assert (ilog2 x < ilog2 y + 1)%Z by (apply pow2_lt_inv; lra). lia.
Qed.

Lemma round_pos_eq x :
  round_pos x
  == inject_Z (rne (x * 2 ^ (- quantum x))) * 2 ^ quantum x.
Proof. unfold round_pos. apply Qred_correct. Qed.

Lemma quantum_mono x y : 0 < x -> x <= y -> (quantum x <= quantum y)%Z.
Proof.
  intros Hx Hxy. unfold quantum. pose proof (ilog2_mono x y Hx Hxy). lia.
Qed.

(** The scaled value lies below [2^53]. *)
Lemma scaled_lt x : 0 < x -> x * 2 ^ (- quantum x) < 2 ^ 53.
Proof.
  intros Hx. destruct (ilog2_spec x Hx) as [_ H].
  assert (Hq : (ilog2 x + 1 <= quantum x + 53)%Z) by (unfold quantum; lia).
  apply pow2_le in Hq. rewrite (pow2_add (quantum x) 53) in Hq.
  pose proof (pow2_pos (- quantum x)) as Hp.
  pose proof (pow2_cancel (quantum x)) as Hc.
  revert H Hq Hp Hc.
  generalize (2 ^ (ilog2 x + 1)) (2 ^ quantum x) (2 ^ (- quantum x)) (2 ^ 53).
  intros a b c d H Hq Hp Hc.
  apply Qlt_le_trans with (b * d * c).
  - apply Qmult_lt_r; [exact Hp | lra].
  - setoid_replace (b * d * c) with (b * c * d)
      using relation Qeq by ring.
    rewrite Hc. lra.
Qed.

(** Above the least quantum the scaled value reaches [2^52]. *)
Lemma scaled_ge x :
  0 < x -> (-1074 < quantum x)%Z -> 2 ^ 52 <= x * 2 ^ (- quantum x).
Proof.
  intros Hx Hq. destruct (ilog2_spec x Hx) as [H _].
  assert (E : ilog2 x = (quantum x + 52)%Z) by (unfold quantum in *; lia).
  rewrite E, pow2_add in H.
  pose proof (pow2_pos (- quantum x)) as Hp.
  pose proof (pow2_cancel (quantum x)) as Hc.
  revert H Hp Hc.
  generalize (2 ^ quantum x) (2 ^ (- quantum x)) (2 ^ 52).
  intros b c d H Hp Hc.
  apply Qle_trans with (b * d * c).
  - setoid_replace (b * d * c) with (b * c * d)
      using relation Qeq by ring.
    rewrite Hc. lra.
  - apply Qmult_le_r; [exact Hp | lra].
Qed.

Lemma rne_le_53 x : 0 < x -> (rne (x * 2 ^ (- quantum x)) <= 2 ^ 53)%Z.
Proof.
  intros Hx. rewrite <- (rne_Z (2 ^ 53)). apply rne_mono.
  rewrite pow2_inject by lia. apply Qlt_le_weak. now apply scaled_lt.
Qed.

Lemma rne_ge_52 x :
  0 < x -> (-1074 < quantum x)%Z -> (2 ^ 52 <= rne (x * 2 ^ (- quantum x)))%Z.
Proof.
  intros Hx Hq. rewrite <- (rne_Z (2 ^ 52)) at 1. apply rne_mono.
  rewrite pow2_inject by lia. now apply scaled_ge.
Qed.

Lemma rne_nonneg y : 0 <= y -> (0 <= rne y)%Z.
Proof. intros H. rewrite <- (rne_Z 0). now apply rne_mono. Qed.

Lemma round_pos_nonneg x : 0 <= x -> 0 <= round_pos x.
Proof.
  intros Hx. rewrite round_pos_eq.
  apply Qmult_le_0_compat; [|apply Qlt_le_weak, pow2_pos].
  change 0 with (inject_Z 0). rewrite <- Zle_Qle. apply rne_nonneg.
  apply Qmult_le_0_compat; [exact Hx | apply Qlt_le_weak, pow2_pos].
Qed.

Lemma round_pos_mono x y : 0 < x -> x <= y -> round_pos x <= round_pos y.
Proof.
  intros Hx Hxy. assert (Hy : 0 < y) by lra.
  rewrite !round_pos_eq.
  pose proof (quantum_mono x y Hx Hxy) as Hq.
  destruct (Z.eq_dec (quantum x) (quantum y)) as [E|NE].
  - rewrite E. apply Qmult_le_compat_r; [|apply Qlt_le_weak, pow2_pos].
    rewrite <- Zle_Qle. apply rne_mono.
    apply Qmult_le_compat_r; [exact Hxy | apply Qlt_le_weak, pow2_pos].
  - assert (Hq' : (-1074 < quantum y)%Z) by (unfold quantum in *; lia).
    pose proof (rne_le_53 x Hx) as H1. pose proof (rne_ge_52 y Hy Hq') as H2.
    rewrite Zle_Qle, pow2_inject in H1, H2 by lia.
    assert (H3 : (quantum x + 53 <= quantum y + 52)%Z) by lia.
    apply pow2_le in H3.
    rewrite (pow2_add (quantum x) 53), (pow2_add (quantum y) 52) in H3.
    pose proof (pow2_pos (quantum x)) as Px.
    pose proof (pow2_pos (quantum y)) as Py.
    revert H1 H2 H3 Px Py.
    generalize (inject_Z (rne (x * 2 ^ (- quantum x))))
               (inject_Z (rne (y * 2 ^ (- quantum y))))
               (2 ^ quantum x) (2 ^ quantum y) (2 ^ 53) (2 ^ 52).
    intros mx my px py a b H1 H2 H3 Px Py.
    apply Qle_trans with (a * px);
      [apply Qmult_le_compat_r; lra|].
    apply Qle_trans with (b * py);
      [lra | apply Qmult_le_compat_r; lra].
Qed.

Lemma round_pos_0 : round_pos 0 = 0.
Proof. reflexivity. Qed.

Lemma Qred_zero x : x == 0 -> Qred x = 0.
Proof. intros H. now rewrite (Qred_complete _ _ H). Qed.

Lemma round_comp x y : x == y -> round x = round y.
Proof. intros H. unfold round. now rewrite (Qred_complete _ _ H). Qed.

Lemma round_nonneg x : 0 <= x -> 0 <= round x.
Proof.
  intros Hx. unfold round. cbv zeta.
  pose proof (Qred_correct x) as E.
  destruct (Qle_bool 0 (Qred x)) eqn:Eb.
  - apply round_pos_nonneg. now apply Qle_bool_iff.
  - exfalso. assert (H : 0 <= Qred x) by (rewrite E; exact Hx).
    apply Qle_bool_iff in H. congruence.
Qed.

Theorem round_mono x y : x <= y -> round x <= round y.
Proof.
  intros Hxy. unfold round. cbv zeta.
  pose proof (Qred_correct x) as Ex. pose proof (Qred_correct y) as Ey.
  assert (Hxy' : Qred x <= Qred y) by (rewrite Ex, Ey; exact Hxy).
  clear Hxy Ex Ey.
  destruct (Qle_bool 0 (Qred x)) eqn:Bx; destruct (Qle_bool 0 (Qred y)) eqn:By.
  - apply Qle_bool_iff in Bx, By.
    destruct (Qeq_dec (Qred x) 0) as [E0|N0].
    + assert (E : Qred x = 0)
        by (transitivity (Qred (Qred x));
            [symmetry; apply Qred_complete, Qred_correct | now apply Qred_zero]).
      rewrite E, round_pos_0. now apply round_pos_nonneg.
    + apply round_pos_mono; [|exact Hxy'].
      apply Qle_lteq in Bx as [Bx|Bx]; [exact Bx|]. now symmetry in Bx.
  - apply Qle_bool_iff in Bx.
    assert (H : 0 <= Qred y) by lra. apply Qle_bool_iff in H. congruence.
  - apply Qle_bool_iff in By.
    assert (Hx : 0 <= - Qred x).
    { apply Qnot_lt_le. intros H. assert (H' : 0 <= Qred x) by lra.
      apply Qle_bool_iff in H'. congruence. }
    pose proof (round_pos_nonneg _ Hx). pose proof (round_pos_nonneg _ By). lra.
  - assert (Hx : 0 < - Qred x).
    { apply Qnot_le_lt. intros H. assert (H' : 0 <= Qred x) by lra.
      apply Qle_bool_iff in H'. congruence. }
    assert (Hy : 0 < - Qred y).
    { apply Qnot_le_lt. intros H. assert (H' : 0 <= Qred y) by lra.
      apply Qle_bool_iff in H'. congruence. }
    assert (H : round_pos (- Qred y) <= round_pos (- Qred x))
      by (apply round_pos_mono; lra).
    lra.
Qed.

Lemma Qred_canon x : Qred (Qred x) = Qred x.
Proof. apply Qred_complete, Qred_correct. Qed.

Lemma round_pos_canon x : Qred (round_pos x) = round_pos x.
Proof. apply Qred_canon. Qed.

(** A value that is an integer number of quanta is its own rounding. *)
Lemma round_pos_fix y M :
  Qred y = y -> y * 2 ^ (- quantum y) == inject_Z M -> round_pos y = y.
Proof.
  intros Hc HM. unfold round_pos. cbv zeta.
  rewrite (rne_comp _ _ HM), rne_Z.
  transitivity (Qred y); [|exact Hc]. apply Qred_complete.
  rewrite <- HM, <- Qmult_assoc, (Qmult_comm (2 ^ (- _))), pow2_cancel. ring.
Qed.

Lemma round_pos_idem x : 0 < x -> round_pos (round_pos x) = round_pos x.
Proof.
  intros Hx.
  pose proof (round_pos_eq x) as Ey. pose proof (round_pos_canon x) as Hc.
  pose proof (rne_le_53 x Hx) as H53.
  assert (H0 : (0 <= rne (x * 2 ^ (- quantum x)))%Z).
  { apply rne_nonneg, Qmult_le_0_compat; [lra | apply Qlt_le_weak, pow2_pos]. }
  set (m := rne (x * 2 ^ (- quantum x))) in *. set (q := quantum x) in *.
  set (y := round_pos x) in *.
  destruct (Z.eq_dec m 0%Z) as [Em|Nm].
  - assert (E : y = 0).
    { rewrite <- Hc. apply Qred_zero. rewrite Ey, Em. ring. }
    now rewrite E.
  - assert (Hm : (1 <= m)%Z) by lia.
    assert (Hy : 0 < y).
    { rewrite Ey. apply Qmult_lt_0_compat; [|apply pow2_pos].
      change 0 with (inject_Z 0). rewrite <- Zlt_Qlt. lia. }
    destruct (Z.eq_dec m (2 ^ 53)%Z) as [E53|N53].
    + assert (Ey' : y == 2 ^ (q + 53)).
      { rewrite Ey, E53, pow2_inject, pow2_add by lia. ring. }
      assert (Eq : quantum y = (q + 1)%Z).
      { unfold quantum. rewrite (ilog2_unique y (q + 53) Hy).
        - unfold q, quantum. lia.
        - rewrite Ey'. apply Qle_refl.
        - rewrite Ey'. apply Qpower_lt_compat_l; [lia | reflexivity]. }
      apply (round_pos_fix y (2 ^ 52) Hc).
      rewrite Eq, Ey', <- pow2_add, pow2_inject by lia.
      now replace (q + 53 + - (q + 1))%Z with 52%Z by lia.
    + assert (Hlt : y < 2 ^ (q + 53)).
      { rewrite Ey, pow2_add, (Qmult_comm (2 ^ q)).
        apply Qmult_lt_r; [apply pow2_pos|].
        rewrite <- pow2_inject, <- Zlt_Qlt by lia. lia. }
      assert (Hq : (quantum y <= q)%Z).
      { destruct (ilog2_spec y Hy) as [H1 _].
        assert (ilog2 y < q + 53)%Z
          by (apply pow2_lt_inv; eapply Qle_lt_trans; eauto).
        unfold quantum in *. fold q. lia. }
      apply (round_pos_fix y (m * 2 ^ (q - quantum y)) Hc).
      revert Hq. generalize (quantum y). intros q' Hq.
      rewrite Ey, inject_Z_mult, pow2_inject, <- Qmult_assoc, <- pow2_add by lia.
      now replace (q + - q')%Z with (q - q')%Z by lia.
Qed.

Lemma Qopp_opp_eq p : (- - p)%Q = p.
Proof. destruct p as [n d]. unfold Qopp. cbn. now rewrite Z.opp_involutive. Qed.

Theorem round_idem x : round (round x) = round x.
Proof.
  unfold round at 2 3. cbv zeta.
  destruct (Qle_bool 0 (Qred x)) eqn:Bx.
  - apply Qle_bool_iff in Bx. unfold round. cbv zeta.
    rewrite round_pos_canon.
    pose proof (round_pos_nonneg _ Bx) as Hr. apply Qle_bool_iff in Hr.
    rewrite Hr.
    destruct (Qeq_dec (Qred x) 0) as [E0|N0].
    + assert (E : Qred x = 0)
        by (rewrite <- Qred_canon; now apply Qred_zero).
      now rewrite E.
    + apply round_pos_idem.
      apply Qle_lteq in Bx as [Bx|Bx]; [exact Bx|]. now symmetry in Bx.
  - assert (Hx : 0 < - Qred x).
    { apply Qnot_le_lt. intros H. assert (H' : 0 <= Qred x) by lra.
      apply Qle_bool_iff in H'. congruence. }
    set (p := round_pos (- Qred x)).
    assert (Hp : 0 <= p) by (apply round_pos_nonneg; lra).
    assert (Hc : Qred p = p) by apply round_pos_canon.
    unfold round. cbv zeta. rewrite Qred_opp, Hc.
    destruct (Qeq_dec p 0) as [E0|N0].
    + assert (E : p = 0) by (rewrite <- Hc; now apply Qred_zero).
      now rewrite E.
    + assert (B : Qle_bool 0 (- p) = false).
      { destruct (Qle_bool 0 (- p)) eqn:B; [|reflexivity].
        apply Qle_bool_iff in B. exfalso. apply N0. lra. }
      rewrite B, Qopp_opp_eq. unfold p. now rewrite round_pos_idem.
Qed.

(** A float: a rational that its rounding leaves as it is. *)
Lemma add_float a b : round (add a b) = add a b.
Proof. apply round_idem. Qed.

Lemma add_mono a b a' b' : a <= a' -> b <= b' -> add a b <= add a' b'.
Proof. intros Ha Hb. apply round_mono. lra. Qed.

Lemma add_0_l a : round a = a -> add 0 a = a.
Proof.
  intros H. unfold add. rewrite <- H at 2. apply round_comp. ring.
Qed.

Lemma add_le a b : round a = a -> 0 <= b -> a <= add a b.
Proof.
  intros H Hb. rewrite <- H at 1. apply round_mono. lra.
Qed.

Lemma of_int_ge_1 z : (1 <= z)%Z -> 1 <= of_int z.
Proof.
  intros Hz. change 1 with (round (inject_Z 1)). apply round_mono.
  now rewrite <- Zle_Qle.
Qed.

Lemma of_int_mono a b : (a <= b)%Z -> of_int a <= of_int b.
Proof. intros H. apply round_mono. now rewrite <- Zle_Qle. Qed.

Lemma div_1_nonneg a : 0 < a -> 0 <= div 1 a.
Proof.
  intros Ha. apply round_nonneg. apply Qlt_le_weak, Qlt_shift_div_l; lra.
Qed.

Lemma div_1_antitone a b : 0 < a -> a <= b -> div 1 b <= div 1 a.
Proof.
  intros Ha Hab. apply round_mono.
  apply Qle_shift_div_l; [lra|].
  setoid_replace (1 / b * a) with (a / b) using relation Qeq
    by (field; lra).
  apply Qle_shift_div_r; lra.
Qed.

End FloatFacts.

(** *** Fusion ranker *)

Section FusionFacts.

Import HybridSearch.

Lemma first_seen_In x l : In x (first_seen l) <-> In x l.
Proof.
  induction l as [|y l IH]; simpl; [tauto|].
  rewrite filter_In, IH, negb_true_iff.
  destruct (String.eqb_spec x y) as [->|Hne]; [tauto|].
  split; [tauto|]. intros [->|H]; [contradiction | auto].
Qed.

Lemma first_seen_snoc x l :
  first_seen (l ++ [x]) =
  if in_dec string_dec x l then first_seen l else first_seen l ++ [x].
Proof.
  induction l as [|y l IH]; simpl; [reflexivity|].
  rewrite IH.
  destruct (string_dec y x) as [->|Hne].
  - destruct (in_dec string_dec x l); [reflexivity|].
    rewrite List.filter_app. simpl. rewrite String.eqb_refl. simpl.
    now rewrite app_nil_r.
  - destruct (in_dec string_dec x l) as [Hin|Hin]; [reflexivity|].
    rewrite List.filter_app. simpl.
    destruct (String.eqb_spec x y); [congruence | reflexivity].
Qed.

Lemma first_seen_NoDup l : NoDup (first_seen l).
Proof.
  induction l as [|x l IH]; simpl; [constructor|].
  constructor.
  - rewrite list_elem_of_In, filter_In, String.eqb_refl. simpl. intros [_ [=]].
  - apply NoDup_ListNoDup, List.NoDup_filter, NoDup_ListNoDup, IH.
Qed.

Lemma occ_score_app k x o1 o2 total :
  occ_score k x (o1 ++ o2) total = occ_score k x o2 (occ_score k x o1 total).
Proof. apply fold_left_app. Qed.

Lemma occ_score_occurrences k x ls : forall total,
  occ_score k x (occurrences ls) total
  = fold_left (fun total l => spec_list_score k x l total) ls total.
Proof.
  unfold occurrences. induction ls as [|l ls IH]; intros total; simpl;
    [reflexivity|].
  now rewrite occ_score_app, IH.
Qed.

Lemma map_snd_enumerate {A} start (l : list A) :
  map snd (Py.enumerate start l) = l.
Proof.
  revert start. induction l as [|x l IH]; intros start; simpl; [reflexivity|].
  now rewrite IH.
Qed.

Lemma map_snd_occurrences ls : map snd (occurrences ls) = concat ls.
Proof.
  unfold occurrences. induction ls as [|l ls IH]; simpl; [reflexivity|].
  now rewrite map_app, map_snd_enumerate, IH.
Qed.

Lemma find_app_list {A} (f : A -> bool) l1 l2 :
  List.find f (l1 ++ l2) =
  match List.find f l1 with Some a => Some a | None => List.find f l2 end.
Proof.
  induction l1 as [|a l1 IH]; simpl; [reflexivity|].
  now destruct (f a).
Qed.

Lemma fusion_inv_init k : fusion_inv k [] ([], []).
Proof. repeat split; intros; simpl; reflexivity. Qed.

(** One pass through the body of the inner loop. *)
Lemma fuse_doc_inv k occ st r d :
  fusion_inv k occ st -> k + r <> 0 ->
  exists st', fuse_doc k st r d = Ok st' /\ fusion_inv k (occ ++ [(r, d)]) st'.
Proof.
  intros (Hkeys & Hdocs & Hfind & Hscore) Hr.
  destruct st as [scores docs]. simpl in Hkeys, Hdocs, Hfind, Hscore.
  unfold fuse_doc. destruct (Z.eqb_spec (k + r) 0) as [|_]; [contradiction|].
  eexists. split; [reflexivity|].
  assert (Hsame : Py.get (Doc.id d) docs = None <->
                  Py.get (Doc.id d) scores = None)
    by (now rewrite !get_None_keys, Hdocs).
  assert (Hseen : Py.get (Doc.id d) scores = None <->
                  ~ In (Doc.id d) (map (fun o => Doc.id (snd o)) occ))
    by (now rewrite get_None_keys, Hkeys, first_seen_In).
  repeat split; cbn [fst snd].
  - rewrite keys_set, map_app. cbn [map snd]. rewrite first_seen_snoc, Hkeys.
    destruct (in_dec string_dec _ _) as [Hin|Hin];
      destruct (Py.get (Doc.id d) scores) eqn:E; try congruence.
    + exfalso. now apply Hseen.
    + exfalso. assert (Some q = None) by now apply Hseen. discriminate.
  - destruct (Py.get (Doc.id d) docs) eqn:Ed;
      destruct (Py.get (Doc.id d) scores) eqn:Es; rewrite !keys_set, ?Ed, ?Es;
      try congruence.
    + exfalso. assert (Some t = None) by now apply Hsame. discriminate.
    + exfalso. assert (Some q = None) by now apply Hsame. discriminate.
  - intros x. rewrite map_app, find_app_list, <- Hfind. cbn [map snd List.find].
    destruct (Py.get (Doc.id d) docs) eqn:Ed.
    + destruct (Py.get x docs) eqn:Ex; [reflexivity|].
      destruct (String.eqb_spec (Doc.id d) x); [congruence | reflexivity].
    + destruct (String.eqb_spec (Doc.id d) x) as [<-|Hne].
      * now rewrite get_set_eq, Ed.
      * rewrite get_set_ne by exact Hne. now destruct (Py.get x docs).
  - intros x. rewrite occ_score_app, <- Hscore.
    cbn [occ_score fold_left]. unfold add_term. cbn [fst snd].
    destruct (String.eqb_spec (Doc.id d) x) as [<-|Hne].
    + now rewrite get_set_eq.
    + now rewrite get_set_ne by exact Hne.
Qed.

Lemma fuse_ranked_inv k ranked : forall occ st,
  fusion_inv k occ st -> (forall r d, In (r, d) ranked -> k + r <> 0) ->
  exists st', fuse_ranked k st ranked = Ok st' /\
              fusion_inv k (occ ++ ranked) st'.
Proof.
  induction ranked as [|[r d] ranked IH]; intros occ st Hinv Hr; simpl.
  - rewrite app_nil_r. eauto.
  - destruct (fuse_doc_inv k occ st r d Hinv) as (st1 & -> & Hinv1);
      [apply (Hr r d); now left|].
    simpl. destruct (IH _ _ Hinv1) as (st2 & E2 & Hinv2);
      [intros r' d' Hin; apply (Hr r' d'); now right|].
    rewrite <- app_assoc in Hinv2. eauto.
Qed.

Lemma enumerate_rank {A} (l : list A) start r x :
  In (r, x) (Py.enumerate start l) -> start <= r < start + Z.of_nat (length l).
Proof.
  revert start. induction l as [|y l IH]; intros start; simpl; [tauto|].
  intros [[= <- <-]|H]; [lia|]. apply IH in H. lia.
Qed.

Lemma fuse_lists_inv k ls : forall occ st,
  fusion_inv k occ st -> ranks_defined k ls ->
  exists st', fuse_lists k st ls = Ok st' /\
              fusion_inv k (occ ++ occurrences ls) st'.
Proof.
  induction ls as [|l ls IH]; intros occ st Hinv Hr; simpl.
  - unfold occurrences. simpl. rewrite app_nil_r. eauto.
  - destruct (fuse_ranked_inv k (Py.enumerate 1 l) occ st Hinv)
      as (st1 & -> & Hinv1).
    { intros r d Hin. apply enumerate_rank in Hin.
      destruct (Hr l); [now left | lia | lia]. }
    simpl. destruct (IH _ _ Hinv1) as (st2 & E2 & Hinv2).
    { intros l' Hl'. apply Hr. now right. }
    unfold occurrences in *. simpl. rewrite app_assoc. eauto.
Qed.

Lemma ids_occurrences ls :
  map (fun o => Doc.id (snd o)) (occurrences ls) = all_ids ls.
Proof.
  unfold all_ids. rewrite <- map_snd_occurrences, map_map. reflexivity.
Qed.

(** The final loop succeeds on keys of the dicts, and each entry is the
    stored document with the stored score attached. *)
Lemma make_entries_keys st ids :
  map fst (snd st) = map fst (fst st) ->
  (forall x, In x ids -> In x (map fst (fst st))) ->
  exists out, make_entries st ids = Ok out /\
    Forall2 (fun x e => exists d q,
               Py.get x (snd st) = Some d /\ Py.get x (fst st) = Some q /\
               e = Doc.set_rrf_score q d) ids out.
Proof.
  intros Hdocs. destruct st as [scores docs]. simpl in *.
  induction ids as [|x ids IH]; intros Hin; simpl; [eauto|].
  destruct (proj2 (get_Some_keys x scores)) as [q Hq]; [apply Hin; now left|].
  destruct (proj2 (get_Some_keys x docs)) as [d Hd];
    [rewrite Hdocs; apply Hin; now left|].
  rewrite Hd, Hq. simpl.
  destruct IH as (out & -> & Hout); [intros; apply Hin; now right|].
  simpl. eexists. split; [reflexivity|]. constructor; eauto.
Qed.

Lemma find_id_eq x l d :
  List.find (fun d => String.eqb (Doc.id d) x) l = Some d -> Doc.id d = x.
Proof.
  intros H. apply find_some in H as [_ H]. now apply String.eqb_eq.
Qed.

Lemma descending_map {A} (key : A -> Q) l :
  Py.descending key l <-> Py.descending (fun q => q) (map key l).
Proof.
  unfold Py.descending. induction l as [|a l IH]; simpl.
  - split; constructor.
  - split; intros H; apply StronglySorted_inv in H as [H1 H2];
      (constructor; [now apply IH|]).
    + rewrite List.Forall_map. exact H2.
    + rewrite List.Forall_map in H2. exact H2.
Qed.

Lemma occ_score_absent k x l : forall start total,
  ~ In x (map Doc.id l) ->
  occ_score k x (Py.enumerate start l) total = total.
Proof.
  induction l as [|d l IH]; intros start total Hx; [reflexivity|].
  cbn [Py.enumerate occ_score fold_left]. unfold add_term at 2. cbn [fst snd].
  destruct (String.eqb_spec (Doc.id d) x) as [E|_];
    [exfalso; apply Hx; now left|].
  apply IH. intros H. apply Hx. now right.
Qed.

(** A list of distinct ids adds [1/(k+r)] for the rank [r] of [x] in it, and
    nothing when [x] does not stand in it. *)
Lemma occ_score_rank k x l : forall start total,
  List.NoDup (map Doc.id l) ->
  occ_score k x (Py.enumerate start l) total =
  match rank_from x start l with
  | Some r => Float.add total (term k r)
  | None => total
  end.
Proof.
  induction l as [|d l IH]; intros start total Hnd; [reflexivity|].
  apply List.NoDup_cons_iff in Hnd as [Hd Hnd].
  cbn [Py.enumerate occ_score fold_left rank_from].
  unfold add_term at 2. cbn [fst snd].
  destruct (String.eqb_spec (Doc.id d) x) as [<-|Hne].
  - now apply occ_score_absent.
  - now apply IH.
Qed.

Lemma spec_list_score_rank k x l total :
  List.NoDup (map Doc.id l) ->
  spec_list_score k x l total =
  match rank_from x 1 l with
  | Some r => Float.add total (term k r)
  | None => total
  end.
Proof. apply occ_score_rank. Qed.

(** The result of fusion when every division is defined. *)
Lemma fusion_result k ls :
  ranks_defined k ls ->
  exists out,
    reciprocal_rank_fusion ls (Some k) = Ok out /\
    Permutation (map Doc.id out) (first_seen (all_ids ls)) /\
    Forall (fun e => exists d,
              first_doc (Doc.id e) ls = Some d /\
              e = Doc.set_rrf_score (spec_rrf_score k (Doc.id e) ls) d) out /\
    Py.descending entry_score out /\
    (forall v,
       List.filter (fun x => Qeq_bool (spec_rrf_score k x ls) v)
         (map Doc.id out) =
       List.filter (fun x => Qeq_bool (spec_rrf_score k x ls) v)
         (first_seen (all_ids ls))).
Proof.
  intros Hr. unfold reciprocal_rank_fusion. simpl default.
  destruct (fuse_lists_inv k ls [] ([], []) (fusion_inv_init k) Hr)
    as (st & -> & Hinv).
  cbn [app] in Hinv. destruct Hinv as (Hkeys & Hdocs & Hfind & Hscore).
  rewrite ids_occurrences in Hkeys. rewrite map_snd_occurrences in Hfind.
  cbn [mbind result_bind].
  set (key := fun x => default 0%Q (Py.get x (fst st))).
  destruct (make_entries_keys st (Py.sorted_desc key (map fst (fst st))) Hdocs)
    as (out & -> & Hout).
  { intros x Hx. apply list_elem_of_In. apply list_elem_of_In in Hx.
    now rewrite (sorted_desc_perm key (map fst (fst st))) in Hx. }
  exists out. split; [reflexivity|].
  assert (Hid : map Doc.id out = Py.sorted_desc key (map fst (fst st))).
  { clear -Hout Hfind. induction Hout as [|x e ids out (d & q & Hd & Hq & ->) _ IH];
      simpl; [reflexivity|].
    rewrite IH. f_equal. rewrite Hfind in Hd. now apply find_id_eq in Hd. }
  assert (Hsc : map entry_score out
                = map key (Py.sorted_desc key (map fst (fst st)))).
  { clear -Hout. induction Hout as [|x e ids out (d & q & Hd & Hq & ->) _ IH];
      simpl; [reflexivity|].
    rewrite IH. f_equal. unfold key. now rewrite Hq. }
  assert (Hkey : forall x, key x = spec_rrf_score k x ls).
  { intros x. unfold key, spec_rrf_score.
    now rewrite Hscore, occ_score_occurrences. }
  repeat split.
  - rewrite Hid, sorted_desc_perm, Hkeys. reflexivity.
  - clear Hid Hsc. induction Hout as [|x e ids out (d & q & Hd & Hq & ->) _ IH];
      constructor; [|exact IH].
    rewrite Hfind in Hd. pose proof (find_id_eq _ _ _ Hd) as Hx.
    exists d. cbn [Doc.set_rrf_score Doc.id]. rewrite Hx.
    split; [exact Hd|]. rewrite <- Hkey. unfold key. now rewrite Hq.
  - apply (proj2 (descending_map entry_score out)). rewrite Hsc.
    apply (proj1 (descending_map key _)). apply sorted_desc_descending.
  - intros v. rewrite Hid, <- Hkeys.
    rewrite (List.filter_ext _ (fun x => Qeq_bool (key x) v))
      by (intros x; now rewrite Hkey).
    rewrite (List.filter_ext (fun x => Qeq_bool (spec_rrf_score k x ls) v)
               (fun x => Qeq_bool (key x) v))
      by (intros x; now rewrite Hkey).
    apply sorted_desc_stable.
    intros a b Ha Hb. apply Qeq_bool_iff in Ha, Hb.
    now rewrite Ha, Hb.
Qed.

(** When some rank [r] has [k + r = 0], the division raises. *)
Lemma fuse_ranked_zero k ranked : forall st,
  (exists r d, In (r, d) ranked /\ k + r = 0) ->
  fuse_ranked k st ranked = Raise ZeroDivisionError.
Proof.
  induction ranked as [|[r d] ranked IH]; intros st (r0 & d0 & Hin & Hz);
    [destruct Hin|].
  simpl. unfold fuse_doc at 1. destruct st as [scores docs].
  destruct (Z.eqb_spec (k + r) 0); [reflexivity|].
  simpl. apply IH. destruct Hin as [[= <- <-]|Hin]; [contradiction | eauto].
Qed.

Lemma ranks_defined_nonneg k ls : 0 <= k -> ranks_defined k ls.
Proof. intros Hk l _. right. lia. Qed.

Lemma enumerate_In {A} (l : list A) start r :
  start <= r < start + Z.of_nat (length l) ->
  exists x, In (r, x) (Py.enumerate start l).
Proof.
  revert start. induction l as [|y l IH]; intros start Hr; simpl in *; [lia|].
  destruct (Z.eq_dec r start) as [->|Hne]; [eauto|].
  destruct (IH (start + 1)) as [x Hx]; [lia | eauto].
Qed.

(** Fusion raises exactly when some rank [r] of some list has [k + r = 0],
    and then it raises [ZeroDivisionError]. *)
Lemma fusion_raises_iff k ls :
  reciprocal_rank_fusion ls (Some k) = Raise ZeroDivisionError <->
  ~ ranks_defined k ls.
Proof.
  split.
  - intros E Hr. destruct (fusion_result k ls Hr) as (out & E' & _). congruence.
  - intros Hn. unfold reciprocal_rank_fusion. simpl default.
    assert (H : forall occ st, fusion_inv k occ st ->
              fuse_lists k st ls = Raise ZeroDivisionError);
      [|now rewrite (H [] ([], []) (fusion_inv_init k))].
    induction ls as [|l ls IH]; intros occ st Hinv.
    + exfalso. apply Hn. intros l [].
    + simpl.
      assert (Hrest : k < - Z.of_nat (length l) \/ -1 < k ->
                      ~ ranks_defined k ls).
      { intros Hl H. apply Hn. intros l' [<-|Hin]; [exact Hl | now apply H]. }
      destruct (Z_lt_dec k (- Z.of_nat (length l))) as [Hlt|Hge];
        [|destruct (Z_lt_dec (-1) k) as [Hlt|Hle]].
      1,2: destruct (fuse_ranked_inv k (Py.enumerate 1 l) occ st Hinv)
             as (st1 & -> & Hinv1);
             [intros r d Hin; apply enumerate_rank in Hin; lia|];
           simpl; apply (IH (Hrest ltac:(lia)) _ _ Hinv1).
      destruct (enumerate_In l 1 (- k)) as [d Hd]; [lia|].
      rewrite fuse_ranked_zero; [reflexivity|].
      exists (- k), d. split; [exact Hd | lia].
Qed.

End FusionFacts.

(** C1, as stated, fails for some [k]: with [k = -1] the first rank gives
    [k + r = 0] and [1.0 / (k + rank)] raises. *)
Lemma fusion_raises_at_k_minus_one :
  HybridSearch.reciprocal_rank_fusion [[HybridSearch.sample "a" "A"]] (Some (-1))
  = Raise ZeroDivisionError.
Proof. reflexivity. Qed.

(** C1 (amended). For every list of ranked lists and every [k] for which no
    rank [r] of a list has [k + r = 0] and every [k + r] lies within the
    range of the floats (every [k] from 0 to [2^1023] less the length of
    the longest list, in particular), fusion returns a list [out] such that:
    its ids are the distinct input ids; each entry is the first document met
    with its id, carrying as [rrf_score] its accumulated score: the running
    total, from 0.0, to which each occurrence of the id at a rank [r] adds
    [1/(k+r)], in the order of the lists, the quotients and the sums being
    those of the floats; [out] is in descending order of that score; and the
    ids of equal accumulated score keep their first-seen order. Where a list
    has distinct ids, what it does to the total of an id is to add
    [1/(k+r)] at the id's rank [r], or nothing. On [[a, b, c]] with [k = 60]
    the result is [a, b, c] with the floats nearest to [1/61, 1/62, 1/63] as
    scores; no lists, empty lists and several lists are accepted. Equal
    scores are equal floats: with [k = 60], an id of ranks 12 and 28 and an
    id of ranks 39 and 6 have the same exact sum, [1/72 + 1/88 = 1/99 +
    1/66], but the float sums differ, and the second id comes out first
    although the first was met first. *)
Theorem fusion_ranker_spec (ls : list (list Doc.t)) (k : Z) :
  HybridSearch.ranks_defined k ls ->
  HybridSearch.ranks_in_range k ls ->
  (exists out,
     HybridSearch.reciprocal_rank_fusion ls (Some k) = Ok out /\
     Permutation (map Doc.id out)
       (HybridSearch.first_seen (HybridSearch.all_ids ls)) /\
     Forall (fun e => exists d,
               HybridSearch.first_doc (Doc.id e) ls = Some d /\
               e = Doc.set_rrf_score
                     (HybridSearch.spec_rrf_score k (Doc.id e) ls) d) out /\
     Py.descending HybridSearch.entry_score out /\
     (forall v,
        List.filter
          (fun x => Qeq_bool (HybridSearch.spec_rrf_score k x ls) v)
          (map Doc.id out) =
        List.filter
          (fun x => Qeq_bool (HybridSearch.spec_rrf_score k x ls) v)
          (HybridSearch.first_seen (HybridSearch.all_ids ls)))) /\
  (forall l x total, List.NoDup (map Doc.id l) ->
     HybridSearch.spec_list_score k x l total =
     match HybridSearch.rank_from x 1 l with
     | Some r => Float.add total (Float.div 1 (Float.of_int (k + r)))
     | None => total
     end) /\
  HybridSearch.reciprocal_rank_fusion
    [[HybridSearch.sample "a" "A"; HybridSearch.sample "b" "B";
      HybridSearch.sample "c" "C"]] (Some 60)
  = Ok [Doc.set_rrf_score (Float.round (1 # 61)) (HybridSearch.sample "a" "A");
        Doc.set_rrf_score (Float.round (1 # 62)) (HybridSearch.sample "b" "B");
        Doc.set_rrf_score (Float.round (1 # 63)) (HybridSearch.sample "c" "C")] /\
  HybridSearch.reciprocal_rank_fusion [] (Some k) = Ok [] /\
  HybridSearch.reciprocal_rank_fusion [[]; []] (Some k) = Ok [] /\
  HybridSearch.reciprocal_rank_fusion ls None
  = HybridSearch.reciprocal_rank_fusion ls (Some 60) /\
  ((1 / 72 + 1 / 88 == 1 / 99 + 1 / 66)%Q /\
   (HybridSearch.spec_rrf_score 60 "P" HybridSearch.tie_lists
    < HybridSearch.spec_rrf_score 60 "Q" HybridSearch.tie_lists)%Q /\
   (exists rest,
      HybridSearch.first_seen (HybridSearch.all_ids HybridSearch.tie_lists)
      = "s1" :: "s2" :: "s3" :: "s4" :: "s5" :: "s6" :: "s7" :: "s8" :: "s9"
        :: "s10" :: "s11" :: "P" :: rest /\ In "Q" rest) /\
   exists rest,
     (out ← HybridSearch.reciprocal_rank_fusion HybridSearch.tie_lists
              (Some 60);
      Ok (map Doc.id out))
     = Ok ("Q" :: "P" :: rest)).
Proof.
  intros Hr _. split; [now apply fusion_result|].
  split; [intros l x total; apply spec_list_score_rank|].
  split; [vm_compute; reflexivity|].
  split; [reflexivity|]. split; [reflexivity|]. split; [reflexivity|].
  split; [reflexivity|]. split; [vm_compute; reflexivity|].
  split; eexists; [split|]; vm_compute;
    [reflexivity | repeat (first [left; reflexivity | right]) | reflexivity].
Qed.

Lemma fusion_ranker_spec_witness :
  exists out,
    HybridSearch.reciprocal_rank_fusion
      [[HybridSearch.sample "a" "A"; HybridSearch.sample "b" "B"]; [];
       [HybridSearch.sample "b" "B2"; HybridSearch.sample "c" "C"]] (Some 60)
    = Ok out /\
    map Doc.id out = ["b"; "a"; "c"].
Proof.
  assert (H : HybridSearch.ranks_defined 60
    [[HybridSearch.sample "a" "A"; HybridSearch.sample "b" "B"]; [];
     [HybridSearch.sample "b" "B2"; HybridSearch.sample "c" "C"]])
    by (intros l _; right; lia).
  assert (H' : HybridSearch.ranks_in_range 60
    [[HybridSearch.sample "a" "A"; HybridSearch.sample "b" "B"]; [];
     [HybridSearch.sample "b" "B2"; HybridSearch.sample "c" "C"]]).
  { intros l [<-|[<-|[<-|[]]]]; cbn [length]; split; try lia;
      apply Z.lt_le_trans with (2 ^ 10); try lia;
      apply Z.pow_le_mono_r; lia. }
  destruct (fusion_ranker_spec _ 60 H H') as [(out & E & _) _].
  exists out. split; [exact E|].
  vm_compute in E. injection E as <-. reflexivity.
Defined.

(** *** Orchestrator *)

Lemma length_slice_to {A} (l : list A) (i : Z) :
  0 <= i -> Z.of_nat (length (Py.slice_to l i)) <= i.
Proof.
  intros Hi. unfold Py.slice_to.
  rewrite slice_bound_nonneg by lia. rewrite length_take. lia.
Qed.




(** *** Lexical index *)

Section IndexFacts.

Import BM25Store.

Variable words : string -> list string.
Variable get_scores : list (list string) -> list string -> list Q.

Ltac run_eff :=
  cbv [add_chunks rebuild_from_store load_state _save
       modify_index lift mbind Eff_bind mret Eff_ret].

(** What [_rebuild_bm25] does: on texts none of which has a token the
    constructor raises and nothing has changed; otherwise the model is
    installed. *)
Lemma rebuild_bm25_run w :
  _rebuild_bm25 words w =
  if tokenless words (index w) then (Raise ZeroDivisionError, w)
  else (Ok (), {| index := with_model words (index w); disk := disk w |}).
Proof.
  unfold _rebuild_bm25, tokenless, with_model, BM25Okapi.
  destruct (Py.is_nil (_chunk_texts (index w))); [reflexivity|].
  cbn [negb andb]. cbv [lift mbind Eff_bind modify_index].
  now destruct (forallb _ _).
Qed.

(** The tail [self._rebuild_bm25(); self._save()] of the three methods that
    change the sequences: when the rebuild raises, the file is not
    written. *)
Lemma rebuild_save_run w :
  (_rebuild_bm25 words;; _save) w =
  if tokenless words (index w) then (Raise ZeroDivisionError, w)
  else (Ok (), {| index := with_model words (index w);
                  disk := pickle (with_model words (index w)) |}).
Proof.
  unfold mbind, Eff_bind. rewrite rebuild_bm25_run.
  now destruct (tokenless words (index w)).
Qed.

Lemma with_model_store_with rs b :
  with_model words (store_with rs b) = store_of_rows words rs.
Proof.
  unfold with_model, store_with, store_of_rows. cbn [_chunk_texts].
  now destruct (Py.is_nil _).
Qed.

Lemma tokenless_model s b :
  tokenless words (set_bm25 b s) = tokenless words s.
Proof. reflexivity. Qed.

Lemma append_chunks_fields chunks : forall s,
  _chunk_ids (append_chunks chunks s)
    = _chunk_ids s ++ map Chunk.chunk_id chunks /\
  _chunk_texts (append_chunks chunks s)
    = _chunk_texts s ++ map Chunk.text chunks /\
  _chunk_metadatas (append_chunks chunks s)
    = _chunk_metadatas s ++ map Chunk.metadata chunks /\
  _bm25 (append_chunks chunks s) = _bm25 s.
Proof.
  induction chunks as [|c chunks IH]; intros s; simpl.
  - now rewrite !app_nil_r.
  - destruct (IH (append_chunk c s)) as (-> & -> & -> & ->).
    simpl. now rewrite <- !app_assoc.
Qed.

Lemma combine_app_eq {A B} (l1 l2 : list A) (k1 k2 : list B) :
  length l1 = length k1 ->
  combine (l1 ++ l2) (k1 ++ k2) = combine l1 k1 ++ combine l2 k2.
Proof.
  revert k1. induction l1 as [|x l1 IH]; intros [|y k1] H; try discriminate;
    simpl; [reflexivity|].
  rewrite IH; [reflexivity | now injection H].
Qed.

Lemma rows_app ids1 ids2 texts1 texts2 metas1 metas2 b1 b2 :
  length ids1 = length texts1 -> length texts1 = length metas1 ->
  rows {| _chunk_ids := ids1 ++ ids2; _chunk_texts := texts1 ++ texts2;
          _chunk_metadatas := metas1 ++ metas2; _bm25 := b1 |}
  = rows {| _chunk_ids := ids1; _chunk_texts := texts1;
            _chunk_metadatas := metas1; _bm25 := b2 |}
    ++ combine (combine ids2 texts2) metas2.
Proof.
  intros H1 H2. unfold rows. simpl.
  rewrite (combine_app_eq ids1) by exact H1.
  rewrite combine_app_eq; [reflexivity|].
  rewrite length_combine. lia.
Qed.

Lemma combine_map3 {A} (f g : A -> string) (h : A -> gmap string string) l :
  combine (combine (map f l) (map g l)) (map h l)
  = map (fun x => (f x, g x, h x)) l.
Proof. induction l as [|x l IH]; simpl; [reflexivity | now rewrite IH]. Qed.

(** Reading a sequence at the positions that [enumerate] gave to the kept
    metadata yields the entries standing beside the kept metadata. *)
Lemma items_kept {A} (P : gmap string string -> bool) (l : list A) metas :
  forall pre, length l = length metas ->
  Py.items (pre ++ l)
    (map fst (List.filter (fun im => P (snd im))
                (Py.indexed (length pre) metas)))
  = Ok (map fst (List.filter (fun xm => P (snd xm)) (combine l metas))).
Proof.
  revert l. induction metas as [|m metas IH]; intros [|x l] pre Hlen;
    try discriminate; simpl; [reflexivity|].
  injection Hlen as Hlen.
  specialize (IH l (pre ++ [x]) Hlen).
  rewrite <- app_assoc, length_app, Nat.add_1_r in IH. simpl in IH.
  destruct (P m); simpl; [|exact IH].
  unfold Py.item at 1.
  replace (nth_error (pre ++ x :: l) (length pre)) with (Some x)
    by (now rewrite nth_error_app2, Nat.sub_diag by lia).
  simpl. now rewrite IH.
Qed.

Lemma length_kept_indices (P : gmap string string -> bool) metas start :
  length (map fst (List.filter (fun im => P (snd im))
                     (Py.indexed start metas)))
  = length (List.filter P metas).
Proof.
  revert start. induction metas as [|m metas IH]; intros start; simpl;
    [reflexivity|].
  destruct (P m); simpl; now rewrite IH.
Qed.

Lemma filter_length_all {A} (P : A -> bool) l :
  length (List.filter P l) = length l -> List.filter P l = l.
Proof.
  induction l as [|x l IH]; simpl; [reflexivity|].
  destruct (P x); simpl; intros H.
  - f_equal. apply IH. lia.
  - pose proof (List.filter_length_le P l). lia.
Qed.

Lemma kept_fields (P : gmap string string -> bool) (ids texts : list string)
    (metas : list (gmap string string)) :
  length ids = length texts -> length texts = length metas ->
  let rs := List.filter (fun r => P (snd r)) (combine (combine ids texts) metas) in
  map fst (List.filter (fun xm => P (snd xm)) (combine ids metas))
    = map (fun r => fst (fst r)) rs /\
  map fst (List.filter (fun xm => P (snd xm)) (combine texts metas))
    = map (fun r => snd (fst r)) rs /\
  map fst (List.filter (fun xm => P (snd xm)) (combine metas metas))
    = map snd rs.
Proof.
  revert ids texts. induction metas as [|m metas IH];
    intros [|i ids] [|t texts] H1 H2; try discriminate; simpl; [auto|].
  injection H1 as H1. injection H2 as H2.
  destruct (IH ids texts H1 H2) as (E1 & E2 & E3).
  destruct (P m); simpl; rewrite ?E1, ?E2, ?E3; auto.
Qed.

Lemma rows_fields s :
  aligned s ->
  map (fun r => fst (fst r)) (rows s) = _chunk_ids s /\
  map (fun r => snd (fst r)) (rows s) = _chunk_texts s /\
  map snd (rows s) = _chunk_metadatas s.
Proof.
  destruct s as [ids texts metas b]. unfold aligned, rows. simpl.
  revert ids texts. induction metas as [|m metas IH];
    intros [|i ids] [|t texts] [H1 H2]; try discriminate; simpl; [auto|].
  injection H1 as H1. injection H2 as H2.
  destruct (IH ids texts (conj H1 H2)) as (-> & -> & ->). auto.
Qed.

Lemma rows_of_fields rs b :
  rows {| _chunk_ids := map (fun r => fst (fst r)) rs;
          _chunk_texts := map (fun r => snd (fst r)) rs;
          _chunk_metadatas := map snd rs; _bm25 := b |} = rs.
Proof.
  unfold rows. simpl. induction rs as [|[[i t] m] rs IH]; simpl;
    [reflexivity | now rewrite IH].
Qed.

(** What [delete_document] does on an aligned index: nothing when no entry
    carries the id; otherwise the three sequences keep the other entries,
    and the model and the file follow unless the rebuild raises. *)
Lemma delete_document_run document_id w :
  aligned (index w) ->
  delete_document words document_id w =
  if forallb (other_document document_id) (_chunk_metadatas (index w))
  then (Ok (), w)
  else
    let rs := kept document_id (rows (index w)) in
    if tokenless words (store_with rs (_bm25 (index w)))
    then (Raise ZeroDivisionError,
          {| index := store_with rs (_bm25 (index w)); disk := disk w |})
    else (Ok (), {| index := store_of_rows words rs;
                    disk := pickle (store_of_rows words rs) |}).
Proof.
  destruct w as [[ids texts metas b] f]. intros [H1 H2]. simpl in H1, H2.
  unfold delete_document. cbn [index _chunk_ids _chunk_texts _chunk_metadatas].
  rewrite length_kept_indices.
  destruct (Nat.eqb_spec (length (List.filter (other_document document_id) metas))
              (length ids)) as [E|E].
  - rewrite List.filter_length_forallb by lia. reflexivity.
  - destruct (forallb (other_document document_id) metas) eqn:Eall.
    { exfalso. apply E. rewrite forallb_filter_id by exact Eall. lia. }
    destruct (kept_fields (other_document document_id) ids texts metas H1 H2)
      as (E1 & E2 & E3).
    pose proof (items_kept (other_document document_id) ids metas []) as I1.
    pose proof (items_kept (other_document document_id) texts metas []) as I2.
    pose proof (items_kept (other_document document_id) metas metas []) as I3.
    simpl in I1, I2, I3.
    cbv [lift modify_index].
    unfold mbind at 1 2 3 4 5 6, Eff_bind at 1 2 3 4 5 6.
    cbn [index _chunk_ids _chunk_texts _chunk_metadatas disk set_chunk_ids
         set_chunk_texts set_chunk_metadatas].
    rewrite I1, I2, I3 by lia. rewrite E1, E2, E3.
    cbn [index _chunk_ids _chunk_texts _chunk_metadatas disk set_chunk_ids
         set_chunk_texts set_chunk_metadatas].
    rewrite rebuild_save_run. cbv zeta.
    rewrite <- (with_model_store_with _ b). reflexivity.
Qed.

Lemma forallb_kept document_id rs :
  forallb (other_document document_id) (map snd (kept document_id rs)) = true.
Proof.
  unfold kept. induction rs as [|r rs IH]; simpl; [reflexivity|].
  destruct (other_document document_id (snd r)) eqn:E; simpl; [|exact IH].
  now rewrite E, IH.
Qed.

Lemma kept_all document_id s :
  aligned s ->
  forallb (other_document document_id) (_chunk_metadatas s) = true ->
  kept document_id (rows s) = rows s.
Proof.
  intros Ha Hall. destruct (rows_fields s Ha) as (_ & _ & Hm).
  rewrite <- Hm in Hall. clear Hm Ha. unfold kept.
  induction (rows s) as [|r rs IH]; simpl in *; [reflexivity|].
  apply andb_true_iff in Hall as [-> Hall]. now rewrite IH.
Qed.

Lemma aligned_store_of_rows rs : aligned (store_of_rows words rs).
Proof. unfold aligned. simpl. now rewrite !length_map. Qed.

Lemma aligned_store_with rs b : aligned (store_with rs b).
Proof. unfold aligned. simpl. now rewrite !length_map. Qed.

(** The three sequences after [delete_document], whether it returns or
    raises. *)
Lemma delete_document_index document_id w :
  aligned (index w) ->
  rows (index (snd (delete_document words document_id w)))
    = kept document_id (rows (index w)) /\
  aligned (index (snd (delete_document words document_id w))).
Proof.
  intros Ha. rewrite delete_document_run by exact Ha.
  destruct (forallb _ (_chunk_metadatas (index w))) eqn:E.
  - cbn [snd]. split; [symmetry; now apply kept_all | exact Ha].
  - cbv zeta. destruct (tokenless _ _); cbn [snd index];
      (split; [apply rows_of_fields|]);
      [apply aligned_store_with | apply aligned_store_of_rows].
Qed.

(** After [delete_document] no entry carries the document id. *)
Lemma delete_document_clears document_id w :
  aligned (index w) ->
  forallb (other_document document_id)
    (_chunk_metadatas (index (snd (delete_document words document_id w))))
  = true.
Proof.
  intros Ha. rewrite delete_document_run by exact Ha.
  destruct (forallb _ (_chunk_metadatas (index w))) eqn:E; [exact E|].
  cbv zeta. destruct (tokenless _ _); cbn [snd index]; apply forallb_kept.
Qed.

(** Every hit of a search stands in the index with its metadata. *)
Lemma collect_hits_metadata s cn scored : forall hits out,
  collect_hits s cn hits scored = Ok out ->
  Forall (fun h => In (Doc.metadata h) (_chunk_metadatas s)) hits ->
  Forall (fun h => In (Doc.metadata h) (_chunk_metadatas s)) out.
Proof.
  induction scored as [|[i q] scored IH]; intros hits out; simpl.
  - now intros [= <-].
  - destruct (Qle_bool q (1 # 1000)); [apply IH|].
    unfold Py.item.
    destruct (nth_error (_chunk_metadatas s) i) as [meta|] eqn:Em;
      simpl; [|discriminate].
    destruct (other_collection cn meta); [apply IH|].
    destruct (nth_error (_chunk_ids s) i) as [id|]; simpl; [|discriminate].
    destruct (nth_error (_chunk_texts s) i) as [text|]; simpl; [|discriminate].
    intros E Hh. apply (IH _ _ E). apply Forall_app. split; [exact Hh|].
    constructor; [|constructor]. simpl. eapply nth_error_In, Em.
Qed.

Lemma search_metadata s query cn top_k hits :
  search words get_scores s query cn top_k = Ok hits ->
  Forall (fun h => In (Doc.metadata h) (_chunk_metadatas s)) hits.
Proof.
  unfold search. destruct (_bm25 s) as [model|]; [|now intros [= <-]].
  destruct (Py.is_nil (_chunk_texts s)); [now intros [= <-]|].
  destruct (py_max _) as [m|]; simpl; [|discriminate].
  destruct (collect_hits _ _ _ _) as [found|] eqn:E; simpl; [|discriminate].
  intros [= <-]. apply collect_hits_metadata in E; [|constructor].
  unfold Py.slice_to. apply Forall_take.
  now rewrite sorted_desc_perm.
Qed.

Lemma enumerate_index {A} (l : list A) start i x :
  In (i, x) (Py.indexed start l) -> (i < start + length l)%nat.
Proof.
  revert start. induction l as [|y l IH]; intros start; simpl; [tauto|].
  intros [[= <- <-]|H]; [lia|]. apply IH in H. lia.
Qed.

Lemma collect_hits_defined s cn scored : forall hits,
  aligned s ->
  (forall i q, In (i, q) scored -> (i < length (_chunk_texts s))%nat) ->
  exists out, collect_hits s cn hits scored = Ok out.
Proof.
  induction scored as [|[i q] scored IH]; intros hits Ha Hi; simpl; [eauto|].
  assert (Hrest : forall i q, In (i, q) scored ->
                    (i < length (_chunk_texts s))%nat)
    by (intros; eapply Hi; right; eauto).
  destruct (Qle_bool q (1 # 1000)); [now apply IH|].
  pose proof (Hi i q (or_introl eq_refl)) as Hlt. destruct Ha as [H1 H2].
  unfold Py.item.
  destruct (nth_error (_chunk_metadatas s) i) eqn:Em;
    [|apply nth_error_None in Em; lia].
  destruct (nth_error (_chunk_ids s) i) eqn:Ei;
    [|apply nth_error_None in Ei; lia].
  destruct (nth_error (_chunk_texts s) i) eqn:Et;
    [|apply nth_error_None in Et; lia].
  simpl. destruct (other_collection cn _); apply IH; auto; now split.
Qed.

(** A search on an aligned index with a current model returns. *)
Lemma search_defined s query cn top_k :
  aligned s -> model_current words s ->
  (forall corpus q, length (get_scores corpus q) = length corpus) ->
  exists hits, search words get_scores s query cn top_k = Ok hits.
Proof.
  intros Ha Hm Hlen. unfold search. rewrite Hm.
  destruct (_chunk_texts s) as [|t texts] eqn:Et; simpl Py.is_nil; cbv iota;
    [eauto|].
  specialize (Hlen (map (_tokenize words) (t :: texts))
                (_tokenize words query)).
  destruct (get_scores _ _) as [|x scores] eqn:Es;
    [rewrite length_map in Hlen; discriminate|].
  cbn [py_max mbind result_bind].
  edestruct (collect_hits_defined s cn) as [out ->]; [exact Ha| |simpl; eauto].
  intros i q Hin. apply enumerate_index in Hin.
  rewrite length_map, Hlen, length_map in Hin. rewrite ?Et. simpl in *. lia.
Qed.

Lemma with_model_fields s :
  _chunk_ids (with_model words s) = _chunk_ids s /\
  _chunk_texts (with_model words s) = _chunk_texts s /\
  _chunk_metadatas (with_model words s) = _chunk_metadatas s /\
  model_current words (with_model words s).
Proof.
  unfold with_model, model_current.
  destruct (Py.is_nil (_chunk_texts s)) eqn:E; simpl; now rewrite E.
Qed.

Lemma aligned_with_model s : aligned s -> aligned (with_model words s).
Proof.
  unfold aligned. now destruct (with_model_fields s) as (-> & -> & -> & _).
Qed.

Lemma rows_with_model s : rows (with_model words s) = rows s.
Proof.
  unfold rows. now destruct (with_model_fields s) as (-> & -> & -> & _).
Qed.

(** What [add_chunks] does: the entries are appended; then the model and
    the file follow, unless the rebuild raises. *)
Lemma add_chunks_run chunks w :
  add_chunks words chunks w =
  let s1 := append_chunks chunks (index w) in
  if tokenless words s1
  then (Raise ZeroDivisionError, {| index := s1; disk := disk w |})
  else (Ok (), {| index := with_model words s1;
                  disk := pickle (with_model words s1) |}).
Proof.
  change (add_chunks words chunks w)
    with ((_rebuild_bm25 words;; _save)
            {| index := append_chunks chunks (index w); disk := disk w |}).
  now rewrite rebuild_save_run.
Qed.

(** The store with the entries of a dump. *)
Lemma rebuild_from_store_run all_chunks w :
  rebuild_from_store words all_chunks w =
  let s1 := {| _chunk_ids := map Doc.id all_chunks;
               _chunk_texts := map Doc.text all_chunks;
               _chunk_metadatas := map Doc.metadata all_chunks;
               _bm25 := _bm25 (index w) |} in
  if tokenless words s1
  then (Raise ZeroDivisionError, {| index := s1; disk := disk w |})
  else (Ok (), {| index := with_model words s1;
                  disk := pickle (with_model words s1) |}).
Proof.
  change (rebuild_from_store words all_chunks w)
    with ((_rebuild_bm25 words;; _save)
            {| index := {| _chunk_ids := map Doc.id all_chunks;
                           _chunk_texts := map Doc.text all_chunks;
                           _chunk_metadatas := map Doc.metadata all_chunks;
                           _bm25 := _bm25 (index w) |};
               disk := disk w |}).
  now rewrite rebuild_save_run.
Qed.

Lemma aligned_append_chunks chunks s :
  aligned s -> aligned (append_chunks chunks s).
Proof.
  unfold aligned.
  destruct (append_chunks_fields chunks s) as (-> & -> & -> & _).
  rewrite !length_app, !length_map. lia.
Qed.

Lemma rows_append_chunks chunks s :
  aligned s -> rows (append_chunks chunks s) = rows s ++ map chunk_row chunks.
Proof.
  intros [H1 H2]. unfold rows.
  destruct (append_chunks_fields chunks s) as (-> & -> & -> & _).
  rewrite (combine_app_eq (_chunk_ids s)) by exact H1.
  rewrite combine_app_eq by (rewrite length_combine; lia).
  now rewrite combine_map3.
Qed.

Lemma file_aligned_pickle s : aligned s -> file_aligned (pickle s).
Proof. now intros [H1 H2]. Qed.

(** Building the object from the file [_save] wrote gives back the three
    sequences; the model is built unless the constructor raises, which
    [_load] catches. *)
Lemma init_pickle s :
  __init__ words (pickle s) =
  let s0 := {| _chunk_ids := _chunk_ids s; _chunk_texts := _chunk_texts s;
               _chunk_metadatas := _chunk_metadatas s; _bm25 := None |} in
  {| index := if tokenless words s0 then s0 else with_model words s0;
     disk := pickle s |}.
Proof.
  change (__init__ words (pickle s))
    with (snd (_rebuild_bm25 words
                 {| index := {| _chunk_ids := _chunk_ids s;
                                _chunk_texts := _chunk_texts s;
                                _chunk_metadatas := _chunk_metadatas s;
                                _bm25 := None |};
                    disk := pickle s |})).
  rewrite rebuild_bm25_run. cbn [index disk].
  now destruct (tokenless _ _).
Qed.

Lemma rows_init_pickle s : rows (index (__init__ words (pickle s))) = rows s.
Proof.
  rewrite init_pickle. cbv zeta. cbn [index].
  destruct (tokenless _ _); [reflexivity | now rewrite rows_with_model].
Qed.

(** A pickled dict that lacks a key, which [_save] never writes, is another
    matter: the keys read before the [KeyError] stay assigned. *)
Lemma init_partial_file :
  ~ aligned (index (__init__ words (Pickled (Some ["c1"]) None None))).
Proof. intros [H _]. discriminate H. Qed.

Lemma aligned_init f : file_aligned f -> aligned (index (__init__ words f)).
Proof.
  destruct f as [| |[ids|] [texts|] [metas|]]; try contradiction;
    try (intros _; now split).
  intros [H1 H2].
  change (Pickled (Some ids) (Some texts) (Some metas))
    with (pickle {| _chunk_ids := ids; _chunk_texts := texts;
                    _chunk_metadatas := metas; _bm25 := None |}).
  rewrite init_pickle. cbv zeta. cbn [index].
  destruct (tokenless _ _); [|apply aligned_with_model]; now split.
Qed.

(** Building the object does not write the file. *)
Lemma disk_init f : disk (__init__ words f) = f.
Proof.
  destruct f as [| |[ids|] [texts|] [metas|]]; try reflexivity.
  change (Pickled (Some ids) (Some texts) (Some metas))
    with (pickle {| _chunk_ids := ids; _chunk_texts := texts;
                    _chunk_metadatas := metas; _bm25 := None |}).
  now rewrite init_pickle.
Qed.

Lemma aligned_dump (all_chunks : list Doc.t) b :
  aligned {| _chunk_ids := map Doc.id all_chunks;
             _chunk_texts := map Doc.text all_chunks;
             _chunk_metadatas := map Doc.metadata all_chunks; _bm25 := b |}.
Proof. split; simpl; now rewrite !length_map. Qed.

(** Each operation, on an aligned index, returns or raises
    [ZeroDivisionError], and either way leaves the index and the file
    aligned. *)
Lemma run_op_aligned o w :
  aligned (index w) -> file_aligned (disk w) ->
  (fst (run_op words o w) = Ok () \/
   fst (run_op words o w) = Raise ZeroDivisionError) /\
  aligned (index (snd (run_op words o w))) /\
  file_aligned (disk (snd (run_op words o w))).
Proof.
  intros Ha Hf. destruct o as [chunks|document_id|all_chunks|]; cbn [run_op].
  - rewrite add_chunks_run. cbv zeta.
    pose proof (aligned_append_chunks chunks _ Ha) as Ha1.
    destruct (tokenless _ _); cbn [fst snd index disk]; [auto|].
    auto using file_aligned_pickle, aligned_with_model.
  - destruct (delete_document_index document_id w Ha) as [_ Ha1].
    split; [|split; [exact Ha1|]];
      rewrite delete_document_run by exact Ha;
      destruct (forallb _ (_chunk_metadatas (index w))); cbn [fst snd]; auto;
      cbv zeta; destruct (tokenless _ _); cbn [fst snd disk]; auto.
    apply file_aligned_pickle, aligned_store_of_rows.
  - rewrite rebuild_from_store_run. cbv zeta.
    pose proof (aligned_dump all_chunks (_bm25 (index w))) as Ha1.
    destruct (tokenless _ _); cbn [fst snd index disk]; [auto|].
    auto using file_aligned_pickle, aligned_with_model.
  - cbn [fst snd]. split; [now left|]. split; [now apply aligned_init|].
    now rewrite disk_init.
Qed.

Lemma run_aligned ops : forall w,
  aligned (index w) -> file_aligned (disk w) ->
  aligned (index (run words ops w)) /\ file_aligned (disk (run words ops w)).
Proof.
  induction ops as [|o ops IH]; intros w Ha Hf; simpl; [auto|].
  destruct (run_op_aligned o w Ha Hf) as (_ & Ha' & Hf'). now apply IH.
Qed.

(** The entries after [add_chunks], whether it returns or raises. *)
Lemma add_chunks_index chunks w :
  aligned (index w) ->
  rows (index (snd (add_chunks words chunks w)))
    = rows (index w) ++ map chunk_row chunks /\
  aligned (index (snd (add_chunks words chunks w))).
Proof.
  intros Ha. rewrite add_chunks_run. cbv zeta.
  pose proof (aligned_append_chunks chunks _ Ha) as Ha1.
  destruct (tokenless _ _); cbn [snd index];
    rewrite ?rows_with_model, rows_append_chunks by exact Ha;
    auto using aligned_with_model.
Qed.

(** The entries after [rebuild_from_store], whether it returns or raises. *)
Lemma rebuild_from_store_rows all_chunks w :
  rows (index (snd (rebuild_from_store words all_chunks w)))
  = map doc_row all_chunks.
Proof.
  rewrite rebuild_from_store_run. cbv zeta.
  destruct (tokenless _ _); cbn [snd index]; rewrite ?rows_with_model;
    exact (combine_map3 Doc.id Doc.text Doc.metadata all_chunks).
Qed.

(** After adding chunks and deleting a document id, no hit of a search
    carries the id. *)
Lemma delete_add_search_clear w document_id :
  aligned (index w) ->
  forall chunks query cn top_k hits,
    search words get_scores
      (index (snd (delete_document words document_id
                     (snd (add_chunks words chunks w)))))
      query cn top_k = Ok hits ->
    Forall (fun h => Doc.metadata h !! "document_id" <> Some document_id) hits.
Proof.
  intros Ha chunks query cn top_k hits E.
  apply search_metadata in E.
  destruct (add_chunks_index chunks w Ha) as [_ Ha'].
  pose proof (delete_document_clears document_id _ Ha') as Hc.
  rewrite forallb_forall in Hc.
  eapply Forall_impl; [exact E|]. intros h Hin. cbv beta in Hin.
  specialize (Hc _ Hin). unfold other_document in Hc.
  now apply bool_decide_eq_true in Hc.
Qed.

End IndexFacts.

(** C5. The three sequences of the lexical index have one length in the
    initial, empty state; every operation (adding chunks, deleting a
    document, rebuilding from a dump, and building the object again from
    the persisted file), on an aligned index with an aligned file, returns
    or raises [ZeroDivisionError] and either way leaves the index and the
    file aligned, so every state reached from the initial one is aligned;
    and the entries stay together and in order, also when the operation
    raises: adding appends one entry per chunk, deleting keeps the other
    documents' entries as they stood, rebuilding installs one entry per
    dumped chunk, and loading the file that was saved gives back the same
    entries. *)
Theorem index_alignment_invariant (words : string -> list string) :
  (BM25Store.aligned (BM25Store.index (BM25Store.__init__ words BM25Store.Absent))
   /\ BM25Store.rows (BM25Store.index (BM25Store.__init__ words BM25Store.Absent))
      = []) /\
  (forall o w,
     BM25Store.aligned (BM25Store.index w) ->
     BM25Store.file_aligned (BM25Store.disk w) ->
     (fst (BM25Store.run_op words o w) = Ok () \/
      fst (BM25Store.run_op words o w) = Raise ZeroDivisionError) /\
     BM25Store.aligned (BM25Store.index (snd (BM25Store.run_op words o w))) /\
     BM25Store.file_aligned (BM25Store.disk (snd (BM25Store.run_op words o w)))) /\
  (forall ops,
     BM25Store.aligned
       (BM25Store.index
          (BM25Store.run words ops (BM25Store.__init__ words BM25Store.Absent)))) /\
  (forall chunks w,
     BM25Store.aligned (BM25Store.index w) ->
     BM25Store.rows (BM25Store.index (snd (BM25Store.add_chunks words chunks w)))
     = BM25Store.rows (BM25Store.index w) ++ map BM25Store.chunk_row chunks) /\
  (forall document_id w,
     BM25Store.aligned (BM25Store.index w) ->
     BM25Store.rows
       (BM25Store.index (snd (BM25Store.delete_document words document_id w)))
     = BM25Store.kept document_id (BM25Store.rows (BM25Store.index w))) /\
  (forall all_chunks w,
     BM25Store.rows
       (BM25Store.index (snd (BM25Store.rebuild_from_store words all_chunks w)))
     = map BM25Store.doc_row all_chunks) /\
  (forall w,
     BM25Store.rows
       (BM25Store.index
          (BM25Store.__init__ words (BM25Store.disk (snd (BM25Store._save w)))))
     = BM25Store.rows (BM25Store.index w)).
Proof.
  split; [now repeat split|].
  split; [intros o w; apply run_op_aligned|].
  split; [|split; [|split; [|split]]].
  - intros ops. now apply run_aligned.
  - intros chunks w Ha. now apply add_chunks_index.
  - intros document_id w Ha. now apply delete_document_index.
  - intros all_chunks w. apply rebuild_from_store_rows.
  - intros w. cbn [BM25Store._save snd BM25Store.disk].
    fold (BM25Store.pickle (BM25Store.index w)). apply rows_init_pickle.
Qed.

Lemma index_alignment_invariant_witness :
  (fst (BM25Store.run_op BM25Store.sample_words (BM25Store.DeleteDocument "D1")
          BM25Store.sample_world) = Ok () \/
   fst (BM25Store.run_op BM25Store.sample_words (BM25Store.DeleteDocument "D1")
          BM25Store.sample_world) = Raise ZeroDivisionError) /\
  BM25Store.aligned
    (BM25Store.index
       (snd (BM25Store.run_op BM25Store.sample_words
               (BM25Store.DeleteDocument "D1") BM25Store.sample_world))) /\
  BM25Store.file_aligned
    (BM25Store.disk
       (snd (BM25Store.run_op BM25Store.sample_words
               (BM25Store.DeleteDocument "D1") BM25Store.sample_world))).
Proof.
  destruct (index_alignment_invariant BM25Store.sample_words) as (_ & H & _).
  apply (H (BM25Store.DeleteDocument "D1") BM25Store.sample_world);
    split; reflexivity.
Defined.

(** C6 (the code at an input on which it fails). The index holds the one
    chunk of document D1, with text [alpha], and the two chunks of document
    D2, whose texts are the stop words [a] and [de]; all were added and
    saved. Deleting D1 leaves texts none of which has a token: the three
    sequences are replaced, the rebuild raises [ZeroDivisionError], and
    neither the model nor the file follows. Whatever positive score the
    model gives the text [alpha] for the query [alpha] (and 0 to the two
    others): a search by this process still scores the deleted text, and
    returns under its score the chunk that took its place; and the file
    still holds D1, so that the next process loads its entry and finds it
    again. *)
Theorem delete_document_loses_deletion
    (get_scores : list (list string) -> list string -> list Q) (s : Q) :
  (0 < s)%Q ->
  get_scores [["alpha"]; []; []] ["alpha"] = [s; 0%Q; 0%Q] ->
  let w := BM25Store.stop_word_world in
  let out := BM25Store.delete_document BM25Store.sample_words "D1" w in
  let restarted := BM25Store.__init__ BM25Store.sample_words
                     (BM25Store.disk (snd out)) in
  (BM25Store.aligned (BM25Store.index w) /\
   BM25Store.disk w = BM25Store.pickle (BM25Store.index w) /\
   BM25Store.rows (BM25Store.index w)
   = [BM25Store.chunk_row (BM25Store.sample_chunk "c1" "D1" "alpha");
      BM25Store.chunk_row (BM25Store.sample_chunk "c2" "D2" "a");
      BM25Store.chunk_row (BM25Store.sample_chunk "c3" "D2" "de")]) /\
  fst out = Raise ZeroDivisionError /\
  BM25Store.rows (BM25Store.index (snd out))
  = [BM25Store.chunk_row (BM25Store.sample_chunk "c2" "D2" "a");
     BM25Store.chunk_row (BM25Store.sample_chunk "c3" "D2" "de")] /\
  BM25Store._bm25 (BM25Store.index (snd out)) = Some [["alpha"]; []; []] /\
  BM25Store.disk (snd out) = BM25Store.disk w /\
  BM25Store.search BM25Store.sample_words get_scores
    (BM25Store.index (snd out)) "alpha" None 10
  = Ok [BM25Store.hit_of (BM25Store.sample_chunk "c2" "D2" "a") (s / s)] /\
  BM25Store.index restarted = BM25Store.index w /\
  BM25Store.search BM25Store.sample_words get_scores
    (BM25Store.index restarted) "alpha" None 10
  = Ok [BM25Store.hit_of (BM25Store.sample_chunk "c1" "D1" "alpha") (s / s)] /\
  Doc.metadata (BM25Store.hit_of (BM25Store.sample_chunk "c1" "D1" "alpha")
                  (s / s)) !! "document_id" = Some "D1".
Proof.
  intros Hs Hscores. cbv zeta.
  assert (H1 : Py.Qltb s 0 = false) by (apply Qltb_ge; lra).
  assert (H2 : Py.Qltb 0 s = true) by now apply Qltb_lt.
  assert (H3 : Qle_bool (s / s) (1 # 1000) = false).
  { destruct (Qle_bool (s / s) (1 # 1000)) eqn:E; [|reflexivity].
    apply Qle_bool_iff in E. exfalso.
    assert (Es : (s / s == 1)%Q) by (field; lra).
    rewrite Es in E. now apply E. }
  assert (H4 : Qle_bool (0 / s) (1 # 1000) = true).
  { apply Qle_bool_iff.
    assert (Es : (0 / s == 0)%Q) by (field; lra).
    rewrite Es. discriminate. }
  assert (Hsearch : forall ids texts metas,
            BM25Store.search BM25Store.sample_words get_scores
              {| BM25Store._chunk_ids := ids; BM25Store._chunk_texts := texts;
                 BM25Store._chunk_metadatas := metas;
                 BM25Store._bm25 := Some [["alpha"]; []; []] |}
              "alpha" None 10
            = if Py.is_nil texts then Ok []
              else
                meta ← Py.item metas 0;
                id ← Py.item ids 0;
                text ← Py.item texts 0;
                Ok [{| Doc.id := id; Doc.text := text; Doc.metadata := meta;
                       Doc.score := Some (s / s)%Q; Doc.rrf_score := None;
                       Doc.relevance := None |}]).
  { intros ids texts metas. unfold BM25Store.search.
    cbn [BM25Store._bm25 BM25Store._chunk_texts].
    destruct (Py.is_nil texts); [reflexivity|].
    change (BM25Store._tokenize BM25Store.sample_words "alpha")
      with ["alpha"].
    rewrite Hscores. cbn [BM25Store.py_max fold_left]. rewrite !H1.
    cbn [mbind result_bind]. rewrite H2.
    cbn [map Py.indexed BM25Store.collect_hits]. rewrite H3, !H4.
    cbn [BM25Store.other_collection BM25Store._chunk_metadatas
         BM25Store._chunk_ids BM25Store._chunk_texts].
    destruct (Py.item metas 0) as [meta|]; [|reflexivity].
    cbn [mbind result_bind].
    destruct (Py.item ids 0) as [id|]; [|reflexivity].
    cbn [mbind result_bind].
    destruct (Py.item texts 0) as [text|]; reflexivity. }
  split; [repeat split|].
  repeat (split; [vm_compute; reflexivity|]).
  split; [|split; [vm_compute; reflexivity|split; [|reflexivity]]].
  - replace (BM25Store.index
               (snd (BM25Store.delete_document BM25Store.sample_words "D1"
                       BM25Store.stop_word_world)))
      with {| BM25Store._chunk_ids := ["c2"; "c3"];
              BM25Store._chunk_texts := ["a"; "de"];
              BM25Store._chunk_metadatas :=
                [Chunk.metadata (BM25Store.sample_chunk "c2" "D2" "a");
                 Chunk.metadata (BM25Store.sample_chunk "c3" "D2" "de")];
              BM25Store._bm25 := Some [["alpha"]; []; []] |}
      by (vm_compute; reflexivity).
    now rewrite Hsearch.
  - replace (BM25Store.index
               (BM25Store.__init__ BM25Store.sample_words
                  (BM25Store.disk
                     (snd (BM25Store.delete_document BM25Store.sample_words
                             "D1" BM25Store.stop_word_world)))))
      with {| BM25Store._chunk_ids := ["c1"; "c2"; "c3"];
              BM25Store._chunk_texts := ["alpha"; "a"; "de"];
              BM25Store._chunk_metadatas :=
                [Chunk.metadata (BM25Store.sample_chunk "c1" "D1" "alpha");
                 Chunk.metadata (BM25Store.sample_chunk "c2" "D2" "a");
                 Chunk.metadata (BM25Store.sample_chunk "c3" "D2" "de")];
              BM25Store._bm25 := Some [["alpha"]; []; []] |}
      by (vm_compute; reflexivity).
    now rewrite Hsearch.
Qed.

Lemma delete_document_loses_deletion_witness :
  BM25Store.search BM25Store.sample_words
    (fun corpus _ => map (fun d => if Py.is_nil d then 0%Q else 1%Q) corpus)
    (BM25Store.index
       (BM25Store.__init__ BM25Store.sample_words
          (BM25Store.disk
             (snd (BM25Store.delete_document BM25Store.sample_words "D1"
                     BM25Store.stop_word_world)))))
    "alpha" None 10
  = Ok [BM25Store.hit_of (BM25Store.sample_chunk "c1" "D1" "alpha") (1 / 1)].
Proof.
  apply (delete_document_loses_deletion
           (fun corpus _ => map (fun d => if Py.is_nil d then 0%Q else 1%Q)
                              corpus) 1);
    reflexivity.
Defined.

(** *** Effects *)

Lemma Eff_bind_raise {St A B} (m : Eff St A) (f : A -> Eff St B) st e :
  fst (m st) = Raise e -> fst ((m ≫= f) st) = Raise e.
Proof.
  unfold mbind, Eff_bind. destruct (m st) as [[a|e'] st']; simpl; congruence.
Qed.

Lemma Eff_bind_ok {St A B} (m : Eff St A) (f : A -> Eff St B) st a st' :
  m st = (Ok a, st') -> (m ≫= f) st = f a st'.
Proof. unfold mbind, Eff_bind. now intros ->. Qed.

(** *** Relevance gate *)

Section GateFacts.

Import Crag.

Variable encode : list string -> result (list (list Q)).

Lemma embed_single_run text h :
  embed_single encode text h =
  (embedding encode text,
   {| embed_calls := embed_calls h ++ [[text]]; retrieved := retrieved h |}).
Proof.
  unfold embed_single, embedding, embed, mbind, Eff_bind, lift.
  now destruct (encode [text]).
Qed.

(** One iteration whose embedding and product succeed. *)
Lemma evaluate_loop_step t qv i c rest passing h cv s :
  embedding encode (Doc.text c) = Ok cv -> dot qv cv = Ok s ->
  evaluate_loop encode t qv i (c :: rest) passing h =
  evaluate_loop encode t qv (S i) rest
    (if Qle_bool t (Float.add s (boost c))
     then passing ++ [Doc.set_relevance (Float.add s (boost c)) c]
     else passing)
    {| embed_calls := embed_calls h ++ [[Doc.text c]];
       retrieved :=
         alter (Doc.set_relevance (Float.add s (boost c))) i (retrieved h) |}.
Proof.
  intros Ec Ed. cbn [evaluate_loop]. unfold mbind at 1, Eff_bind at 1.
  rewrite embed_single_run, Ec.
  unfold mbind at 1, Eff_bind at 1, lift, cosine_similarity. rewrite Ed.
  reflexivity.
Qed.

(** The loop, when every embedding and product it asks for succeeds. *)
Lemma evaluate_loop_run t qv sim todo : forall done passing calls,
  Forall (embeds_to encode qv sim) todo ->
  evaluate_loop encode t qv (length done) todo passing
    {| embed_calls := calls; retrieved := done ++ todo |}
  = (Ok (passing ++ spec_passing t sim todo),
     {| embed_calls := calls ++ map (fun c => [Doc.text c]) todo;
        retrieved := done ++ spec_scored sim todo |}).
Proof.
  induction todo as [|c todo IH]; intros done passing calls Hall.
  - simpl. unfold spec_passing. simpl. now rewrite !app_nil_r.
  - apply Forall_cons in Hall as [(cv & Ec & Ed) Hall].
    rewrite (evaluate_loop_step _ _ _ _ _ _ _ cv (sim c) Ec Ed).
    cbn [embed_calls retrieved].
    rewrite alter_app_r_alt, Nat.sub_diag by lia. cbn [alter list_alter].
    set (combined := Float.add (sim c) (boost c)).
    replace (done ++ Doc.set_relevance combined c :: todo)
      with ((done ++ [Doc.set_relevance combined c]) ++ todo)
      by now rewrite <- app_assoc.
    replace (S (length done))
      with (length (done ++ [Doc.set_relevance combined c]))
      by (rewrite length_app; simpl; lia).
    rewrite IH by exact Hall.
    unfold spec_passing, spec_scored. cbn [map List.filter].
    change (spec_combined sim c) with combined.
    cbn [Doc.set_relevance Doc.relevance default from_option id].
    rewrite <- !app_assoc. cbn [app].
    now destruct (Qle_bool t combined); rewrite <- ?app_assoc.
Qed.

(** From the direct similarities to what the loop needs. *)
Lemma direct_similarity_embeds query sim chunks :
  chunks <> [] ->
  Forall (fun c => direct_similarity encode query c = Ok (sim c)) chunks ->
  exists qv,
    embedding encode query = Ok qv /\ Forall (embeds_to encode qv sim) chunks.
Proof.
  intros Hne Hall. destruct chunks as [|c0 chunks]; [contradiction|].
  pose proof (Forall_inv Hall) as H0. unfold direct_similarity in H0.
  destruct (embedding encode query) as [qv|] eqn:Eq; [|discriminate].
  exists qv. split; [reflexivity|].
  eapply Forall_impl; [exact Hall|]. intros c Hc. cbv beta in Hc.
  unfold direct_similarity in Hc. rewrite Eq in Hc.
  cbn [mbind result_bind] in Hc.
  destruct (embedding encode (Doc.text c)) as [cv|] eqn:Ec; [|discriminate].
  exists cv. auto.
Qed.

(** The gate, when the similarities are defined. *)
Lemma evaluate_run query chunks threshold calls sim :
  Forall (fun c => direct_similarity encode query c = Ok (sim c)) chunks ->
  evaluate encode query chunks threshold
    {| embed_calls := calls; retrieved := chunks |}
  = (Ok (spec_evaluate (threshold_or_default threshold) sim chunks),
     {| embed_calls :=
          if Py.is_nil chunks then calls
          else (calls ++ [[query]]) ++ map (fun c => [Doc.text c]) chunks;
        retrieved := spec_scored sim chunks |}).
Proof.
  intros Hall. destruct chunks as [|c0 chunks]; [reflexivity|].
  destruct (direct_similarity_embeds query sim (c0 :: chunks))
    as (qv & Eq & Hemb); [discriminate | exact Hall|].
  unfold evaluate. cbn [Py.is_nil].
  unfold mbind at 1, Eff_bind at 1. rewrite embed_single_run, Eq.
  unfold mbind at 1, Eff_bind at 1.
  rewrite (evaluate_loop_run _ qv sim (c0 :: chunks) [] [] _ Hemb).
  cbn [app]. unfold spec_evaluate, spec_pass_ratio.
  now destruct (Py.is_nil (spec_passing _ sim (c0 :: chunks))).
Qed.

(** A failure of the query embedding is the outcome of the gate. *)
Lemma evaluate_query_raises query chunks threshold h e :
  chunks <> [] ->
  embedding encode query = Raise e ->
  fst (evaluate encode query chunks threshold h) = Raise e.
Proof.
  intros Hne He. destruct chunks as [|c chunks]; [contradiction|].
  unfold evaluate. cbn [Py.is_nil]. unfold mbind at 1, Eff_bind at 1.
  now rewrite embed_single_run, He.
Qed.

(** The loop raises what the first failing embedding raises. *)
Lemma evaluate_loop_raises t qv sim pre c post e : forall i passing h,
  Forall (embeds_to encode qv sim) pre ->
  embedding encode (Doc.text c) = Raise e ->
  fst (evaluate_loop encode t qv i (pre ++ c :: post) passing h) = Raise e.
Proof.
  induction pre as [|c0 pre IH]; intros i passing h Hpre He.
  - cbn [app evaluate_loop]. unfold mbind at 1, Eff_bind at 1.
    now rewrite embed_single_run, He.
  - apply Forall_cons in Hpre as [(cv & Ec & Ed) Hpre]. cbn [app].
    rewrite (evaluate_loop_step _ _ _ _ _ _ _ cv (sim c0) Ec Ed).
    now apply IH.
Qed.

(** The loop does not return when an embedding it asks for fails. *)
Lemma evaluate_loop_not_ok t qv c e todo : forall i passing h,
  In c todo -> embedding encode (Doc.text c) = Raise e ->
  exists e', fst (evaluate_loop encode t qv i todo passing h) = Raise e'.
Proof.
  induction todo as [|c0 todo IH]; intros i passing h Hin He; [destruct Hin|].
  destruct (embedding encode (Doc.text c0)) as [cv|e0] eqn:Ec.
  - destruct (dot qv cv) as [s|e1] eqn:Ed.
    + rewrite (evaluate_loop_step _ _ _ _ _ _ _ cv s Ec Ed).
      destruct Hin as [->|Hin]; [congruence | now apply IH].
    + exists e1. cbn [evaluate_loop]. unfold mbind at 1, Eff_bind at 1.
      rewrite embed_single_run, Ec.
      unfold mbind at 1, Eff_bind at 1, lift, cosine_similarity.
      now rewrite Ed.
  - exists e0. cbn [evaluate_loop]. unfold mbind at 1, Eff_bind at 1.
    now rewrite embed_single_run, Ec.
Qed.

(** [passingCount / totalCount >= 0.5], on the counts. *)
Lemma pass_ratio_half (p n : nat) :
  (0 < n)%nat ->
  Qle_bool (1 # 2) (inject_Z (Z.of_nat p) / inject_Z (Z.of_nat n)) = true
  <-> (n <= 2 * p)%nat.
Proof.
  intros Hn. rewrite Qle_bool_iff.
  assert (Hpos : (0 < inject_Z (Z.of_nat n))%Q)
    by (unfold Qlt; simpl; lia).
  rewrite <- (Qmult_le_r _ _ _ Hpos).
  assert (E : (inject_Z (Z.of_nat p) / inject_Z (Z.of_nat n)
               * inject_Z (Z.of_nat n) == inject_Z (Z.of_nat p))%Q).
  { field. intros H. rewrite H in Hpos. now apply Qlt_irrefl in Hpos. }
  rewrite E. unfold Qle. simpl. lia.
Qed.


End GateFacts.




(** C7. On the empty list the gate answers "insufficient" without calling
    the embedding model. On a non-empty list: when the embedding of the
    query raises, the gate raises the same exception; when the embedding of
    a chunk raises after those before it succeeded, the gate raises the same
    exception; and whenever the embedding of any chunk raises, the gate
    raises and returns no status. *)
Theorem gate_propagates_embedding_failure
    (encode : list string -> result (list (list Q)))
    (query : string) (chunks : list Doc.t) (threshold : option Q)
    (h : Crag.heap) :
  Crag.evaluate encode query [] threshold h = (Ok ("insufficient", []), h) /\
  (forall text h', fst (Crag.embed_single encode text h')
                   = Crag.embedding encode text) /\
  (chunks <> [] ->
   (forall e, Crag.embedding encode query = Raise e ->
      fst (Crag.evaluate encode query chunks threshold h) = Raise e) /\
   (forall qv sim pre c post e,
      chunks = pre ++ c :: post ->
      Crag.embedding encode query = Ok qv ->
      Forall (Crag.embeds_to encode qv sim) pre ->
      Crag.embedding encode (Doc.text c) = Raise e ->
      fst (Crag.evaluate encode query chunks threshold h) = Raise e) /\
   (forall c e,
      In c chunks -> Crag.embedding encode (Doc.text c) = Raise e ->
      exists e', fst (Crag.evaluate encode query chunks threshold h) = Raise e')).
Proof.
  split; [reflexivity|].
  split; [intros text h'; now rewrite embed_single_run|].
  intros Hne. split; [|split].
  - intros e He. now apply evaluate_query_raises.
  - intros qv sim pre c post e -> Eq Hpre He.
    unfold Crag.evaluate.
    replace (Py.is_nil (pre ++ c :: post)) with false by now destruct pre.
    rewrite (Eff_bind_ok _ _ _ _ _ (eq_trans (embed_single_run _ _ _)
                                      (f_equal2 pair Eq eq_refl))).
    apply Eff_bind_raise. now apply (evaluate_loop_raises encode _ qv sim).
  - intros c e Hin He.
    destruct (Crag.embedding encode query) as [qv|eq] eqn:Eq;
      [|exists eq; now apply evaluate_query_raises].
    unfold Crag.evaluate.
    replace (Py.is_nil chunks) with false by now destruct chunks.
    rewrite (Eff_bind_ok _ _ _ _ _ (eq_trans (embed_single_run _ _ _)
                                      (f_equal2 pair Eq eq_refl))).
    destruct (evaluate_loop_not_ok encode
                (Crag.threshold_or_default threshold) qv c e chunks
                0%nat [] {| Crag.embed_calls := Crag.embed_calls h ++ [[query]];
                            Crag.retrieved := Crag.retrieved h |} Hin He)
      as [e' R].
    exists e'. now apply Eff_bind_raise.
Qed.

Lemma gate_propagates_embedding_failure_witness :
  [Crag.sample_chunk] <> [] /\
  fst (Crag.evaluate Crag.failing_encode "q" [Crag.sample_chunk] None
         {| Crag.embed_calls := []; Crag.retrieved := [Crag.sample_chunk] |})
  = Raise (CollaboratorError "model not available").
Proof.
  split; [discriminate|].
  apply (gate_propagates_embedding_failure Crag.failing_encode "q"
           [Crag.sample_chunk] None); [discriminate | reflexivity].
Defined.

(** C10. A threshold of zero, like an absent one, is replaced by the
    default 0.20: the gate run with threshold 0.0 is the gate run with
    threshold 0.20, for every query, list, embedding model and state; and
    under threshold 0.0 the sample chunk, of combined relevance 1/10, does
    not pass although 1/10 >= 0. *)
Theorem gate_zero_threshold_is_default
    (encode : list string -> result (list (list Q)))
    (query : string) (chunks : list Doc.t) (h : Crag.heap) :
  Crag.threshold_or_default (Some 0%Q) = crag_relevance_threshold settings /\
  Crag.threshold_or_default None = crag_relevance_threshold settings /\
  crag_relevance_threshold settings = 20 # 100 /\
  Crag.evaluate encode query chunks (Some 0%Q) h
  = Crag.evaluate encode query chunks (Some (20 # 100)) h /\
  Crag.evaluate encode query chunks None h
  = Crag.evaluate encode query chunks (Some (20 # 100)) h /\
  Crag.direct_similarity Crag.sample_encode "q" Crag.sample_chunk
    = Ok (1 # 10) /\
  ((1 # 10) + Crag.boost Crag.sample_chunk == 1 # 10)%Q /\
  (0 <= 1 # 10)%Q /\
  fst (Crag.evaluate Crag.sample_encode "q" [Crag.sample_chunk] (Some 0%Q)
         {| Crag.embed_calls := []; Crag.retrieved := [Crag.sample_chunk] |})
  = Ok ("insufficient", []).
Proof.
  repeat split. vm_compute. discriminate.
Qed.

(** *** Answer generation *)

(** C9. For every configuration, question, list of context chunks and
    status other than "insufficient": when the call to the generation model
    of the configured provider raises, whatever the exception, [generate]
    returns normally, and its answer is the text "Error al conectar con el
    LLM (<provider>). Asegúrate de que Ollama esté ejecutándose con
    `ollama serve`. Error: " followed by the first 100 characters of the
    text of the exception; when the call succeeds the answer is the model's.
    Either way the citations are the same, whatever the two models do: one
    per context chunk, in order, with the document id and the file name of
    the chunk's metadata (or their defaults), the first 400 characters of
    its text (followed by "..." when the text is longer), its page as a
    number when the metadata give one, and its relevance, or else its
    fused score, or else 0, rounded to four places. *)
Theorem generate_degrades_on_failure
    (settings : Settings)
    (SYSTEM_PROMPT : string) (_build_context : list Doc.t -> string)
    (py_int : string -> option Z) (round4 : Q -> Q) (exn_str : exn -> string)
    (_call_ollama _call_openai : list Generator.message -> result string)
    (question : string) (context_chunks : list Doc.t) (crag_status : string) :
  crag_status <> "insufficient" ->
  let run := Generator.generate settings SYSTEM_PROMPT _build_context py_int
               round4 exn_str _call_ollama _call_openai
               question context_chunks crag_status in
  let messages :=
    [{| Generator.role := "system"; Generator.content := SYSTEM_PROMPT |};
     {| Generator.role := "user";
        Generator.content :=
          Generator.user_message (_build_context context_chunks) question |}] in
  let call := if String.eqb (llm_provider settings) "openai"
              then _call_openai else _call_ollama in
  (forall e, call messages = Raise e ->
     fst run
     = "Error al conectar con el LLM (" +:+ llm_provider settings
       +:+ "). Aseg" +:+ String "250"%char "rate de que Ollama est"
       +:+ String "233"%char " ejecut" +:+ String "225"%char
             "ndose con `ollama serve`. Error: "
       +:+ PyStr.slice_to (exn_str e) 100) /\
  (forall answer, call messages = Ok answer -> fst run = answer) /\
  (forall other_ollama other_openai,
     snd (Generator.generate settings SYSTEM_PROMPT _build_context py_int
            round4 exn_str other_ollama other_openai
            question context_chunks crag_status)
     = snd run) /\
  length (snd run) = length context_chunks /\
  (forall i chunk, context_chunks !! i = Some chunk ->
     exists citation,
       snd run !! i = Some citation /\
       Generator.document_id citation
       = default "" (Doc.metadata chunk !! "document_id") /\
       Generator.filename citation
       = default "Documento desconocido" (Doc.metadata chunk !! "filename") /\
       Generator.chunk_text citation
       = (if 400 <? PyStr.len (Doc.text chunk)
          then PyStr.slice_to (Doc.text chunk) 400 +:+ "..."
          else Doc.text chunk) /\
       Generator.page_number citation
       = match Doc.metadata chunk !! "page_number" with
         | Some page =>
             if String.eqb page "" || String.eqb page "unknown" then None
             else py_int page
         | None => None
         end /\
       Generator.relevance_score citation
       = round4 match Doc.relevance chunk, Doc.rrf_score chunk with
                | Some relevance, _ => relevance
                | None, Some rrf_score => rrf_score
                | None, None => 0%Q
                end).
Proof.
  intros Hstatus run messages call. subst run.
  unfold Generator.generate.
  destruct (String.eqb_spec crag_status "insufficient") as [|_];
    [contradiction|].
  fold messages. cbv zeta. cbn [fst snd].
  replace (if String.eqb (llm_provider settings) "openai"
           then _call_openai messages else _call_ollama messages)
    with (call messages) by (unfold call; now destruct (String.eqb _ _)).
  split; [|split; [|split; [|split]]].
  - now intros e ->.
  - now intros answer ->.
  - reflexivity.
  - apply length_map.
  - intros i chunk Hi. exists (Generator.citation_of py_int round4 chunk).
    unfold Generator._extract_citations.
    split; [change (map ?f ?l) with (f <$> l);
            now rewrite list_lookup_fmap, Hi|].
    unfold Generator.citation_of.
    cbn [Generator.document_id Generator.filename Generator.chunk_text
         Generator.page_number Generator.relevance_score].
    repeat split.
    + destruct (Z.ltb_spec 400 (PyStr.len (Doc.text chunk))) as [Hlt|Hle];
        [reflexivity|].
      rewrite slice_to_all by exact Hle. apply append_empty_r.
    + destruct (Doc.metadata chunk !! "page_number") as [page|];
        [|reflexivity].
      cbn [default]. destruct page as [|c page]; [reflexivity|].
      change (String.eqb (String c page) "") with false.
      unfold id. cbn [PyStr.is_empty negb andb orb].
      now destruct (String.eqb (String c page) "unknown").
Qed.

Lemma generate_degrades_on_failure_witness :
  "partial" <> "insufficient" /\
  fst (Generator.generate settings "" (fun _ => "") (fun _ => None)
         (fun x => x)
         (fun e => match e with CollaboratorError m => m | _ => "" end)
         Generator.timing_out Generator.answering "why?"
         [Crag.sample_chunk] "partial")
  = "Error al conectar con el LLM (ollama). Aseg"
    +:+ String "250"%char "rate de que Ollama est"
    +:+ String "233"%char " ejecut"
    +:+ String "225"%char "ndose con `ollama serve`. Error: timed out".
Proof.
  split; [discriminate|].
  destruct (generate_degrades_on_failure settings "" (fun _ => "")
              (fun _ => None) (fun x => x)
              (fun e => match e with CollaboratorError m => m | _ => "" end)
              Generator.timing_out Generator.answering "why?"
              [Crag.sample_chunk] "partial")
    as [G _]; [discriminate|].
  rewrite (G (CollaboratorError "timed out")); reflexivity.
Defined.

(** ** Further properties of the code *)

(** *** Text segmenter: stripping, progress, fuel *)

Section StripFacts.

Import PyStr.

Lemma rstrip_idem s : rstrip (rstrip s) = rstrip s.
Proof.
  induction s as [|c r IH]; [reflexivity|]. cbn [rstrip].
  destruct (is_empty (rstrip r) && isspace c) eqn:E; [reflexivity|].
  cbn [rstrip]. now rewrite IH, E.
Qed.

Lemma lstrip_idem s : lstrip (lstrip s) = lstrip s.
Proof.
  induction s as [|c r IH]; [reflexivity|]. cbn [lstrip].
  destruct (isspace c) eqn:E; [exact IH|]. cbn [lstrip]. now rewrite E.
Qed.

Lemma rstrip_lstrip s : rstrip s = s -> rstrip (lstrip s) = lstrip s.
Proof.
  induction s as [|c r IH]; [reflexivity|]. cbn [rstrip lstrip].
  destruct (isspace c) eqn:E; [|intros H; cbn [rstrip]; now rewrite E].
  destruct (is_empty (rstrip r) && true); [discriminate|].
  intros [= H]. now apply IH.
Qed.

Lemma strip_idem s : strip (strip s) = strip s.
Proof.
  unfold strip.
  now rewrite (rstrip_lstrip (rstrip s) (rstrip_idem s)), lstrip_idem.
Qed.

End StripFacts.

Section SegmenterMore.

Import Ingestion.
Import IngestionService.

#[local] Arguments split_step : simpl never.

Lemma is_trimmed_strip s :
  PyStr.is_empty (PyStr.strip s) = false -> is_trimmed (PyStr.strip s).
Proof.
  intros H. split; [|apply strip_idem].
  intros E. rewrite E in H. discriminate.
Qed.

Lemma split_step_trimmed cs ov st :
  Forall is_trimmed (snd st) -> Forall is_trimmed (snd (split_step cs ov st)).
Proof.
  destruct st as [t chunks]. rewrite snd_split_step. cbn [snd]. intros H.
  unfold step_chunk.
  destruct (PyStr.is_empty _) eqn:E; [exact H|].
  apply Forall_app. split; [exact H|].
  constructor; [now apply is_trimmed_strip | constructor].
Qed.

Lemma split_loop_trimmed fuel cs ov : forall st st',
  Forall is_trimmed (snd st) -> split_loop fuel cs ov st = Some st' ->
  Forall is_trimmed (snd st').
Proof.
  induction fuel as [|fuel IH]; intros st st' H; simpl;
    destruct (PyStr.len (fst st) <=? cs); try discriminate;
    try (now intros [= <-]).
  apply IH. now apply split_step_trimmed.
Qed.

Lemma recursive_split_trimmed fuel text cs ov chunks :
  _recursive_split fuel text cs ov = Some chunks -> Forall is_trimmed chunks.
Proof.
  unfold _recursive_split.
  destruct (PyStr.is_empty text || PyStr.is_empty (PyStr.strip text)) eqn:E;
    [intros [= <-]; constructor|].
  apply orb_false_iff in E as [_ E].
  destruct (PyStr.len text <=? cs).
  - intros [= <-]. constructor; [now apply is_trimmed_strip | constructor].
  - destruct (split_loop fuel cs ov (text, [])) as [[t cks]|] eqn:El;
      [|discriminate].
    apply split_loop_trimmed in El; [|constructor]. cbn [snd] in El.
    destruct (PyStr.is_empty (PyStr.strip t)) eqn:Et; intros [= <-];
      [exact El|].
    apply Forall_app. split; [exact El|].
    constructor; [now apply is_trimmed_strip | constructor].
Qed.

(** More fuel does not change a result. *)
Lemma split_loop_more_fuel fuel cs ov : forall st st' extra,
  split_loop fuel cs ov st = Some st' ->
  split_loop (fuel + extra) cs ov st = Some st'.
Proof.
  induction fuel as [|fuel IH]; intros st st' extra; simpl.
  - destruct (PyStr.len (fst st) <=? cs) eqn:E; [|discriminate].
    intros [= <-]. destruct extra; simpl; now rewrite E.
  - destruct (PyStr.len (fst st) <=? cs); [easy|]. apply IH.
Qed.

Lemma recursive_split_more_fuel fuel extra text cs ov chunks :
  _recursive_split fuel text cs ov = Some chunks ->
  _recursive_split (fuel + extra) text cs ov = Some chunks.
Proof.
  unfold _recursive_split.
  destruct (_ || _); [easy|]. destruct (_ <=? _); [easy|].
  destruct (split_loop fuel cs ov (text, [])) as [st|] eqn:E; [|discriminate].
  now rewrite (split_loop_more_fuel _ _ _ _ _ extra E).
Qed.

End SegmenterMore.

(** X1. The segmenter never returns on a text that is not blank and is
    longer than [chunk_size] when its first split point is not beyond the
    overlap; this is so for every such text as soon as the overlap is at
    least [chunk_size]. *)
Theorem segmenter_never_returns_without_progress
    (text : string) (cs ov : Z) :
  PyStr.strip text <> "" -> cs < PyStr.len text ->
  Ingestion.find_split Ingestion.boundaries text cs <= ov \/ 0 < cs <= ov ->
  forall fuel, Ingestion._recursive_split fuel text cs ov = None.
Proof.
  intros Hne Hlen Hov. apply recursive_split_stuck; [|exact Hlen|].
  - destruct (PyStr.is_empty (PyStr.strip text)) eqn:E; [|reflexivity].
    now apply is_empty_true in E.
  - destruct Hov as [H|[H1 H2]]; [exact H|].
    pose proof (find_split_range text cs H1). lia.
Qed.

Lemma segmenter_never_returns_without_progress_witness :
  Ingestion._recursive_split 1000 "abcdefgh" 3 3 = None.
Proof.
  apply segmenter_never_returns_without_progress;
    [vm_compute; discriminate | vm_compute; reflexivity | right; lia].
Defined.

(** X2. Without overlap the segmenter returns for every text and every
    positive [chunk_size]: the fuel [len text] suffices, and more fuel gives
    the same chunks. *)
Theorem segmenter_returns_without_overlap (text : string) (cs : Z) :
  0 < cs ->
  exists chunks,
    forall fuel, (String.length text <= fuel)%nat ->
      Ingestion._recursive_split fuel text cs 0 = Some chunks.
Proof.
  intros Hcs.
  destruct (recursive_split_no_overlap_total text cs Hcs) as [chunks E].
  exists chunks. intros fuel Hfuel.
  replace fuel with (String.length text + (fuel - String.length text))%nat
    by lia.
  now apply recursive_split_more_fuel.
Qed.

Lemma segmenter_returns_without_overlap_witness :
  0 < 4 /\
  exists chunks,
    Ingestion._recursive_split 12 "a bcdefgh" 4 0 = Some chunks.
Proof.
  split; [lia|].
  destruct (segmenter_returns_without_overlap "a bcdefgh" 4) as [chunks H];
    [lia|].
  exists chunks. apply H. simpl. lia.
Defined.

(** X3. Every chunk the segmenter returns is non-empty and has no leading
    or trailing whitespace: stripping it again changes nothing. *)
Theorem segmenter_chunks_are_trimmed
    (fuel : nat) (text : string) (cs ov : Z) (chunks : list string) :
  Ingestion._recursive_split fuel text cs ov = Some chunks ->
  Forall (fun c => c <> "" /\ PyStr.strip c = c) chunks.
Proof. apply recursive_split_trimmed. Qed.

Lemma segmenter_chunks_are_trimmed_witness :
  Forall (fun c => c <> "" /\ PyStr.strip c = c) ["a"; "bcde"; "fgh"].
Proof.
  apply (segmenter_chunks_are_trimmed 3 "a bcdefgh" 4 0). reflexivity.
Defined.

(** *** Chunking of pages *)

(** Every chunk of a returned result fits in [chunk_size]. *)
Lemma segment_shape_fits fuel text cs ov chunks :
  0 < cs -> Ingestion._recursive_split fuel text cs ov = Some chunks ->
  Forall (fun c => PyStr.len c <= cs) chunks.
Proof.
  intros Hcs. unfold Ingestion._recursive_split.
  destruct (_ || _); [intros [= <-]; constructor|].
  destruct (Z.leb_spec (PyStr.len text) cs) as [Hle|Hgt].
  - intros [= <-]. constructor; [|constructor].
    pose proof (len_strip text). lia.
  - destruct (Ingestion.split_loop fuel cs ov (text, [])) as [[t cks]|] eqn:E;
      [|discriminate].
    apply split_loop_fits in E as [Hfits Hrest]; [|exact Hcs|constructor].
    simpl in Hfits, Hrest.
    destruct (PyStr.is_empty (PyStr.strip t)); intros [= <-]; [exact Hfits|].
    apply Forall_app. split; [exact Hfits|].
    constructor; [|constructor]. pose proof (len_strip t). lia.
Qed.

Section ChunkingFacts.

Import IngestionService.

Variable uuid4 : nat -> string.
Variables document_id filename collection_name : string.

#[local] Abbreviation mk :=
  (make_chunk uuid4 document_id filename collection_name).

(** The inner loop on segments that are trimmed: every one becomes a
    chunk. *)
Lemma fold_chunk_text pn raw : forall chunks idx drawn,
  Forall is_trimmed raw ->
  fold_left (chunk_text uuid4 document_id filename collection_name pn) raw
    (chunks, idx, drawn)
  = (chunks ++ imap (fun i t => mk pn (idx + Z.of_nat i) (drawn + i)%nat t) raw,
     idx + Z.of_nat (length raw), (drawn + length raw)%nat).
Proof.
  induction raw as [|t raw IH]; intros chunks idx drawn Hall.
  - simpl. rewrite app_nil_r, Z.add_0_r, Nat.add_0_r. reflexivity.
  - apply Forall_cons in Hall as [[Hne Ht] Hall]. cbn [fold_left chunk_text].
    rewrite Ht. destruct t as [|c t]; [contradiction|]. cbn [PyStr.is_empty].
    rewrite IH by exact Hall. rewrite <- app_assoc. cbn [app imap length].
    rewrite Z.add_0_r, Nat.add_0_r. f_equal; [f_equal|]; [f_equal| |]; try lia.
    f_equal. apply imap_ext. intros i x _. cbn. f_equal; lia.
Qed.

Lemma chunk_pages_from_run fuel pages : forall chunks idx drawn,
  chunk_pages_from uuid4 fuel document_id filename collection_name
    (chunks, idx, drawn) pages
  = match tagged_segments fuel pages with
    | None => None
    | Some tagged =>
        Some (chunks ++
                imap (fun i pt => mk (fst pt) (idx + Z.of_nat i)
                                    (drawn + i)%nat (snd pt)) tagged,
              idx + Z.of_nat (length tagged), (drawn + length tagged)%nat)
    end.
Proof.
  induction pages as [|p pages IH]; intros chunks idx drawn.
  - simpl. now rewrite app_nil_r, Z.add_0_r, Nat.add_0_r.
  - cbn [chunk_pages_from tagged_segments]. unfold chunk_page.
    destruct (Ingestion._recursive_split fuel (page_text p) _ _)
      as [raw|] eqn:Er; [|reflexivity].
    rewrite fold_chunk_text by (eapply recursive_split_trimmed; exact Er).
    rewrite IH. destruct (tagged_segments fuel pages) as [more|];
      [|reflexivity].
    rewrite imap_app, imap_fmap, length_app, length_map, <- app_assoc.
    f_equal. f_equal; [f_equal|]; [f_equal| |]; try lia.
    f_equal. apply imap_ext. intros i x _. cbn. f_equal; lia.
Qed.

(** [_chunk_pages] is the indexed map over the segments of the pages. *)
Lemma chunk_pages_run fuel drawn pages :
  _chunk_pages uuid4 fuel drawn pages document_id filename collection_name
  = chunks_of_segments uuid4 document_id filename collection_name drawn
      <$> tagged_segments fuel pages.
Proof.
  unfold _chunk_pages. rewrite chunk_pages_from_run.
  destruct (tagged_segments fuel pages) as [tagged|]; reflexivity.
Qed.

Lemma tagged_segments_trimmed fuel pages : forall tagged,
  tagged_segments fuel pages = Some tagged ->
  Forall (fun pt => is_trimmed (snd pt) /\
                    PyStr.len (snd pt) <= chunk_size settings) tagged.
Proof.
  induction pages as [|p pages IH]; intros tagged; cbn [tagged_segments].
  - intros [= <-]. constructor.
  - destruct (Ingestion._recursive_split fuel (page_text p) _ _)
      as [raw|] eqn:Er; [|discriminate].
    destruct (tagged_segments fuel pages) as [more|]; [|discriminate].
    intros [= <-]. apply Forall_app. split; [|now apply IH].
    apply Forall_fmap.
    pose proof (recursive_split_trimmed _ _ _ _ _ Er) as Ht.
    pose proof (segment_shape_fits fuel (page_text p) (chunk_size settings)
                  (chunk_overlap settings) raw eq_refl Er) as Hf.
    clear Er. induction Ht as [|c raw Hc _ IHt]; [constructor|].
    apply Forall_cons in Hf as [Hf1 Hf]. constructor; [split; assumption|].
    now apply IHt.
Qed.

End ChunkingFacts.

(** X4. Every chunk [_chunk_pages] returns carries its provenance: the
    chunk at position [i] has [chunk_index = i] and the identifier drawn at
    the [i]-th call; it has the document id and the file name given, and its
    metadata are exactly the document id, the file name, the collection name
    and the page label, which is "unknown" for a page without number and for
    page 0. When the identifiers drawn are distinct, so are the chunk ids. *)
Theorem chunk_pages_provenance (uuid4 : nat -> string)
    (fuel drawn : nat) (pages : list IngestionService.page)
    (document_id filename collection_name : string) (chunks : list Chunk.t) :
  IngestionService._chunk_pages uuid4 fuel drawn pages
    document_id filename collection_name = Some chunks ->
  (forall (i : nat) c, chunks !! i = Some c ->
     Chunk.chunk_index c = Z.of_nat i /\
     Chunk.chunk_id c = uuid4 (drawn + i)%nat /\
     Chunk.document_id c = document_id /\
     Chunk.filename c = filename /\
     Chunk.metadata c
       = {[ "document_id" := document_id; "filename" := filename;
            "collection_name" := collection_name;
            "page_number" :=
              IngestionService.page_label (Chunk.page_number c) ]} /\
     (Chunk.page_number c = None \/ Chunk.page_number c = Some 0 ->
      Chunk.metadata c !! "page_number" = Some "unknown")) /\
  ((forall m n, uuid4 m = uuid4 n -> m = n) ->
   List.NoDup (map Chunk.chunk_id chunks)).
Proof.
  rewrite chunk_pages_run.
  destruct (IngestionService.tagged_segments fuel pages) as [tagged|];
    [|discriminate].
  intros [= <-]. unfold IngestionService.chunks_of_segments. split.
  - intros i c. rewrite list_lookup_imap.
    destruct (tagged !! i) as [[pn t]|]; [|discriminate].
    intros [= <-]. cbn. repeat split.
    intros [->| ->]; reflexivity.
  - intros Hinj. apply NoDup_ListNoDup.
    apply NoDup_alt. intros i j x.
    rewrite !list_lookup_fmap, !list_lookup_imap.
    destruct (tagged !! i) as [[pn t]|]; [|discriminate].
    destruct (tagged !! j) as [[pn' t']|]; [|discriminate].
    cbn. intros [= <-] [= E]. apply Hinj in E. lia.
Qed.

Lemma chunk_pages_provenance_witness :
  IngestionService._chunk_pages IngestionService.sample_uuid4 1 1
    IngestionService.sample_pages "D" "notes.md" "default"
  = Some
      [IngestionService.make_chunk IngestionService.sample_uuid4
         "D" "notes.md" "default" (Some 1) 0 1 "first page";
       IngestionService.make_chunk IngestionService.sample_uuid4
         "D" "notes.md" "default" None 1 2 "second page"] /\
  Chunk.chunk_index
    (IngestionService.make_chunk IngestionService.sample_uuid4
       "D" "notes.md" "default" None 1 2 "second page") = 1.
Proof.
  assert (E : IngestionService._chunk_pages IngestionService.sample_uuid4 1 1
                IngestionService.sample_pages "D" "notes.md" "default"
              = Some
                  [IngestionService.make_chunk IngestionService.sample_uuid4
                     "D" "notes.md" "default" (Some 1) 0 1 "first page";
                   IngestionService.make_chunk IngestionService.sample_uuid4
                     "D" "notes.md" "default" None 1 2 "second page"])
    by reflexivity.
  split; [exact E|].
  destruct (chunk_pages_provenance _ _ _ _ _ _ _ _ E) as [H _].
  apply (H 1%nat). reflexivity.
Defined.

(** X5. [_chunk_pages] returns exactly when the segmenter returns on every
    page, and then the texts of its chunks are the segments of the pages,
    page after page and in order, each with the number of its page; every
    text is non-empty, stripped, and at most [chunk_size] long. *)
Theorem chunk_pages_texts (uuid4 : nat -> string)
    (fuel drawn : nat) (pages : list IngestionService.page)
    (document_id filename collection_name : string) :
  match IngestionService.tagged_segments fuel pages with
  | None =>
      IngestionService._chunk_pages uuid4 fuel drawn pages
        document_id filename collection_name = None
  | Some tagged =>
      exists chunks,
        IngestionService._chunk_pages uuid4 fuel drawn pages
          document_id filename collection_name = Some chunks /\
        map (fun c => (Chunk.page_number c, Chunk.text c)) chunks = tagged /\
        Forall (fun c => Chunk.text c <> "" /\
                         PyStr.strip (Chunk.text c) = Chunk.text c /\
                         PyStr.len (Chunk.text c) <= chunk_size settings)
               chunks
  end.
Proof.
  rewrite chunk_pages_run.
  destruct (IngestionService.tagged_segments fuel pages) as [tagged|] eqn:E;
    [|reflexivity].
  eexists. split; [reflexivity|].
  apply tagged_segments_trimmed in E.
  unfold IngestionService.chunks_of_segments. split.
  - apply list_eq. intros i. rewrite list_lookup_fmap, list_lookup_imap.
    destruct (tagged !! i) as [[pn t]|] eqn:Ei; [|reflexivity].
    apply (Forall_lookup_1 _ _ _ _ E) in Ei as [[_ Ht] _].
    cbn [fst snd] in Ht. cbn [fmap option_fmap option_map].
    unfold IngestionService.make_chunk.
    cbn [Chunk.page_number Chunk.text fst snd]. now rewrite Ht.
  - apply Forall_lookup_2. intros i c. rewrite list_lookup_imap.
    destruct (tagged !! i) as [[pn t]|] eqn:Ei; [|discriminate].
    apply (Forall_lookup_1 _ _ _ _ E) in Ei as [[Hne Ht] Hlen].
    cbn [fst snd] in Hne, Ht, Hlen. intros [= <-].
    unfold IngestionService.make_chunk. cbn [Chunk.text snd].
    rewrite Ht. auto.
Qed.

(** *** Lexical index: durability, round trips, search results *)

Section IndexMore.

Import BM25Store.

Variable words : string -> list string.
Variable get_scores : list (list string) -> list string -> list Q.

Lemma with_model_current s b :
  model_current words s ->
  with_model words
    {| _chunk_ids := _chunk_ids s; _chunk_texts := _chunk_texts s;
       _chunk_metadatas := _chunk_metadatas s; _bm25 := b |} = s.
Proof.
  destruct s as [ids texts metas model]. unfold model_current, with_model.
  cbn. intros ->. now destruct (Py.is_nil texts).
Qed.

Lemma tokenless_with_model s :
  tokenless words (with_model words s) = tokenless words s.
Proof. unfold with_model. now destruct (Py.is_nil (_chunk_texts s)). Qed.

Lemma init_pickle_current s :
  model_current words s -> tokenless words s = false ->
  __init__ words (pickle s) = {| index := s; disk := pickle s |}.
Proof.
  intros H Ht. rewrite init_pickle. cbv zeta.
  change (tokenless words _) with (tokenless words s).
  now rewrite Ht, with_model_current.
Qed.

Lemma rows_store_of_rows rs : rows (store_of_rows words rs) = rs.
Proof. apply rows_of_fields. Qed.

Lemma model_current_store_of_rows rs :
  model_current words (store_of_rows words rs).
Proof. reflexivity. Qed.

Lemma tokenless_store_of_rows rs b :
  tokenless words (store_of_rows words rs)
  = tokenless words (store_with rs b).
Proof. reflexivity. Qed.

(** An operation that returns leaves a file from which a new process builds
    the same index; an operation that raises leaves the file it found. *)
Lemma run_op_durable o w :
  aligned (index w) -> __init__ words (disk w) = w ->
  match fst (run_op words o w) with
  | Ok _ =>
      __init__ words (disk (snd (run_op words o w))) = snd (run_op words o w)
  | Raise e =>
      e = ZeroDivisionError /\ disk (snd (run_op words o w)) = disk w
  end.
Proof.
  intros Ha Hw. destruct o as [chunks|document_id|all_chunks|]; cbn [run_op].
  - rewrite add_chunks_run. cbv zeta.
    destruct (tokenless _ _) eqn:Et; cbn [fst snd disk]; [auto|].
    apply init_pickle_current; [apply with_model_fields|].
    now rewrite tokenless_with_model.
  - rewrite delete_document_run by exact Ha.
    destruct (forallb _ (_chunk_metadatas (index w))); [exact Hw|].
    cbv zeta. destruct (tokenless _ _) eqn:Et; cbn [fst snd disk]; [auto|].
    apply init_pickle_current; [apply model_current_store_of_rows|].
    now rewrite (tokenless_store_of_rows _ (_bm25 (index w))).
  - rewrite rebuild_from_store_run. cbv zeta.
    destruct (tokenless _ _) eqn:Et; cbn [fst snd disk]; [auto|].
    apply init_pickle_current; [apply with_model_fields|].
    now rewrite tokenless_with_model.
  - cbn [fst snd]. now rewrite !Hw.
Qed.

Lemma run_durable ops : forall w,
  aligned (index w) -> file_aligned (disk w) ->
  __init__ words (disk w) = w ->
  returns words ops w = true ->
  __init__ words (disk (run words ops w)) = run words ops w.
Proof.
  induction ops as [|o ops IH]; intros w Ha Hf Hw Hr; simpl; [exact Hw|].
  destruct (run_op_aligned words o w Ha Hf) as (_ & Ha' & Hf').
  pose proof (run_op_durable o w Ha Hw) as Hd.
  cbn [returns] in Hr.
  destruct (run_op words o w) as [[[]|e] w1]; [|discriminate].
  now apply IH.
Qed.

(** Adding chunks that all carry one document id and deleting that id
    leaves the rows of the other documents. *)
Lemma kept_app document_id rs1 rs2 :
  kept document_id (rs1 ++ rs2) = kept document_id rs1 ++ kept document_id rs2.
Proof. apply List.filter_app. Qed.

Lemma kept_none document_id (chunks : list Chunk.t) :
  Forall (fun c => Chunk.metadata c !! "document_id" = Some document_id) chunks ->
  kept document_id (map chunk_row chunks) = [].
Proof.
  induction 1 as [|c chunks Hc _ IH]; [reflexivity|].
  cbn [map kept List.filter]. unfold other_document at 1. cbn [snd chunk_row].
  rewrite bool_decide_eq_false_2 by (intros H; now apply H). exact IH.
Qed.

Lemma add_delete_rows document_id chunks w :
  aligned (index w) ->
  Forall (fun c => Chunk.metadata c !! "document_id" = Some document_id) chunks ->
  rows (index (snd (delete_document words document_id
                      (snd (add_chunks words chunks w)))))
  = kept document_id (rows (index w)).
Proof.
  intros Ha Hall.
  destruct (add_chunks_index words chunks w Ha) as [Hrows Ha'].
  destruct (delete_document_index words document_id _ Ha') as [-> _].
  now rewrite Hrows, kept_app, kept_none, app_nil_r.
Qed.

End IndexMore.

(** X6. The lexical index is durable as long as its operations return:
    after a sequence of operations from the first start, each of which
    returned, starting the process again on the file it left gives the same
    index (identifiers, texts, metadata and model) and the same file. An
    operation that then raises, raises [ZeroDivisionError] and leaves the
    file as it was: the next process starts from the index as it stood
    before that operation. *)
Theorem index_survives_restart (words : string -> list string)
    (ops : list BM25Store.op) :
  let w := BM25Store.run words ops (BM25Store.__init__ words BM25Store.Absent) in
  BM25Store.returns words ops (BM25Store.__init__ words BM25Store.Absent)
  = true ->
  BM25Store.__init__ words (BM25Store.disk w) = w /\
  forall o e,
    fst (BM25Store.run_op words o w) = Raise e ->
    e = ZeroDivisionError /\
    BM25Store.__init__ words (BM25Store.disk (snd (BM25Store.run_op words o w)))
    = w.
Proof.
  intros w Hr.
  assert (Ha : BM25Store.aligned (BM25Store.index w) /\
               BM25Store.file_aligned (BM25Store.disk w))
    by (apply run_aligned; [split|]; reflexivity).
  assert (Hw : BM25Store.__init__ words (BM25Store.disk w) = w)
    by (apply run_durable; [split| | |exact Hr]; reflexivity).
  split; [exact Hw|]. intros o e He.
  pose proof (run_op_durable words o w (proj1 Ha) Hw) as Hd.
  rewrite He in Hd. destruct Hd as [-> Hd]. now rewrite Hd.
Qed.

Lemma index_survives_restart_witness :
  BM25Store.__init__ BM25Store.sample_words
    (BM25Store.disk BM25Store.stop_word_world)
  = BM25Store.stop_word_world /\
  forall o e,
    fst (BM25Store.run_op BM25Store.sample_words o BM25Store.stop_word_world)
    = Raise e ->
    e = ZeroDivisionError /\
    BM25Store.__init__ BM25Store.sample_words
      (BM25Store.disk
         (snd (BM25Store.run_op BM25Store.sample_words o
                 BM25Store.stop_word_world)))
    = BM25Store.stop_word_world.
Proof.
  apply (index_survives_restart BM25Store.sample_words
           [BM25Store.AddChunks [BM25Store.sample_chunk "c1" "D1" "alpha"];
            BM25Store.AddChunks [BM25Store.sample_chunk "c2" "D2" "a";
                                 BM25Store.sample_chunk "c3" "D2" "de"]]).
  vm_compute. reflexivity.
Defined.

(** X7. Adding chunks that all carry one document id and then deleting
    that id leaves exactly the entries of the other documents, in their
    order; if the index held no entry of that document before, its three
    sequences are what they were. *)
Theorem add_then_delete_round_trip (words : string -> list string)
    (document_id : string) (chunks : list Chunk.t) (w : BM25Store.world) :
  BM25Store.aligned (BM25Store.index w) ->
  Forall (fun c => Chunk.metadata c !! "document_id" = Some document_id)
    chunks ->
  let w' := snd (BM25Store.delete_document words document_id
                   (snd (BM25Store.add_chunks words chunks w))) in
  BM25Store.rows (BM25Store.index w')
  = BM25Store.kept document_id (BM25Store.rows (BM25Store.index w)) /\
  ((forall m, In m (BM25Store._chunk_metadatas (BM25Store.index w)) ->
      m !! "document_id" <> Some document_id) ->
   BM25Store._chunk_ids (BM25Store.index w')
     = BM25Store._chunk_ids (BM25Store.index w) /\
   BM25Store._chunk_texts (BM25Store.index w')
     = BM25Store._chunk_texts (BM25Store.index w) /\
   BM25Store._chunk_metadatas (BM25Store.index w')
     = BM25Store._chunk_metadatas (BM25Store.index w)).
Proof.
  intros Ha Hall w'.
  pose proof (add_delete_rows words document_id chunks w Ha Hall) as Hrows.
  fold w' in Hrows. split; [exact Hrows|].
  intros Hnone.
  assert (Hk : BM25Store.kept document_id (BM25Store.rows (BM25Store.index w))
               = BM25Store.rows (BM25Store.index w)).
  { apply kept_all; [exact Ha|]. apply forallb_forall. intros m Hm.
    apply bool_decide_eq_true. now apply Hnone. }
  rewrite Hk in Hrows.
  assert (Ha' : BM25Store.aligned (BM25Store.index w')).
  { subst w'. apply delete_document_index.
    now apply add_chunks_index. }
  destruct (rows_fields _ Ha) as (<- & <- & <-).
  destruct (rows_fields _ Ha') as (<- & <- & <-).
  now rewrite Hrows.
Qed.

Lemma add_then_delete_round_trip_witness :
  BM25Store.rows
    (BM25Store.index
       (snd (BM25Store.delete_document BM25Store.sample_words "D3"
               (snd (BM25Store.add_chunks BM25Store.sample_words
                       [BM25Store.sample_chunk "c4" "D3" "delta"]
                       BM25Store.sample_world)))))
  = BM25Store.kept "D3"
      (BM25Store.rows (BM25Store.index BM25Store.sample_world)).
Proof.
  apply (add_then_delete_round_trip BM25Store.sample_words "D3").
  - split; reflexivity.
  - repeat constructor.
Defined.

Section SearchFacts.

Import BM25Store.

Variable words : string -> list string.
Variable get_scores : list (list string) -> list string -> list Q.

Lemma fold_max_ge (l : list Q) : forall acc,
  (acc <= fold_left (fun m y => if Py.Qltb m y then y else m) l acc)%Q /\
  (forall x, In x l ->
     (x <= fold_left (fun m y => if Py.Qltb m y then y else m) l acc)%Q).
Proof.
  induction l as [|y l IH]; intros acc; simpl.
  - split; [apply Qle_refl | tauto].
  - destruct (IH (if Py.Qltb acc y then y else acc)) as [H1 H2].
    destruct (Py.Qltb acc y) eqn:E.
    + apply Qltb_lt in E. split.
      * eapply Qle_trans; [apply Qlt_le_weak, E | exact H1].
      * intros x [<-|Hx]; [exact H1 | now apply H2].
    + apply Qltb_ge in E. split; [exact H1|].
      intros x [<-|Hx]; [|now apply H2].
      eapply Qle_trans; [exact E | exact H1].
Qed.

Lemma py_max_ge l m x : py_max l = Ok m -> In x l -> (x <= m)%Q.
Proof.
  destruct l as [|y l]; [discriminate|]. intros [= <-] Hin.
  destruct (fold_max_ge l y) as [H1 H2].
  destruct Hin as [<-|Hx]; [exact H1 | now apply H2].
Qed.

Lemma indexed_In {A} (l : list A) : forall start i x,
  In (i, x) (Py.indexed start l) -> In x l.
Proof.
  induction l as [|y l IH]; intros start i x; simpl; [tauto|].
  intros [[= _ <-]|H]; [now left | right; eapply IH, H].
Qed.

(** What the loop of [search] establishes for every hit. *)
Lemma collect_hits_shape s cn (R : Q -> Prop) (P : Doc.t -> Prop) scored :
  (forall h i q,
     R q -> Qle_bool q (1 # 1000) = false ->
     Doc.score h = Some q -> Doc.rrf_score h = None ->
     Doc.relevance h = None ->
     nth_error (_chunk_ids s) i = Some (Doc.id h) ->
     nth_error (_chunk_texts s) i = Some (Doc.text h) ->
     nth_error (_chunk_metadatas s) i = Some (Doc.metadata h) ->
     other_collection cn (Doc.metadata h) = false -> P h) ->
  forall hits out,
    (forall i q, In (i, q) scored -> R q) ->
    collect_hits s cn hits scored = Ok out ->
    Forall P hits -> Forall P out.
Proof.
  intros HP. induction scored as [|[i q] scored IH]; intros hits out HR; simpl.
  - now intros [= <-].
  - assert (HR' : forall i q, In (i, q) scored -> R q)
      by (intros; eapply HR; right; eauto).
    destruct (Qle_bool q (1 # 1000)) eqn:Eq; [now apply IH|].
    unfold Py.item.
    destruct (nth_error (_chunk_metadatas s) i) as [meta|] eqn:Em;
      simpl; [|discriminate].
    destruct (other_collection cn meta) eqn:Ec; [now apply IH|].
    destruct (nth_error (_chunk_ids s) i) as [id|] eqn:Ei;
      simpl; [|discriminate].
    destruct (nth_error (_chunk_texts s) i) as [text|] eqn:Et;
      simpl; [|discriminate].
    intros E Hh. apply (IH _ _ HR' E). apply Forall_app. split; [exact Hh|].
    constructor; [|constructor].
    apply (HP _ i q); auto. apply (HR i q). now left.
Qed.

Lemma descending_take {A} (key : A -> Q) n l :
  Py.descending key l -> Py.descending key (take n l).
Proof.
  unfold Py.descending. revert n. induction l as [|a l IH]; intros [|n] H;
    simpl; try constructor.
  - apply IH. now apply StronglySorted_inv in H.
  - apply StronglySorted_inv in H as [_ H]. now apply Forall_take.
Qed.

(** X8. Whatever the scorer answers, the hits a lexical search returns are
    at most [top_k] (for [top_k >= 0]), in descending order of score; every
    hit has a score above 0.001 and at most 1, no fusion score and no
    relevance; it is an entry of the index (identifier, text and metadata of
    one position); and under a collection filter it belongs to that
    collection, an entry without collection counting as "default". *)
Theorem lexical_search_hits (s : store) (query : string) (cn : option string)
    (top_k : Z) (hits : list Doc.t) :
  search words get_scores s query cn top_k = Ok hits ->
  (0 <= top_k -> Z.of_nat (length hits) <= top_k) /\
  Py.descending (fun h => default 0%Q (Doc.score h)) hits /\
  Forall (fun h =>
            (exists q, Doc.score h = Some q /\ (1 # 1000 < q)%Q /\ (q <= 1)%Q) /\
            Doc.rrf_score h = None /\ Doc.relevance h = None /\
            (exists i,
               nth_error (_chunk_ids s) i = Some (Doc.id h) /\
               nth_error (_chunk_texts s) i = Some (Doc.text h) /\
               nth_error (_chunk_metadatas s) i = Some (Doc.metadata h)) /\
            (forall c, cn = Some c -> c <> "" ->
               default "default" (Doc.metadata h !! "collection_name") = c))
         hits.
Proof.
  unfold search.
  destruct (_bm25 s) as [model|];
    [|intros [= <-]; repeat split; try constructor; simpl; lia].
  destruct (Py.is_nil (_chunk_texts s));
    [intros [= <-]; repeat split; try constructor; simpl; lia|].
  destruct (py_max _) as [m|] eqn:Em; simpl; [|discriminate].
  destruct (collect_hits _ _ _ _) as [found|] eqn:E; simpl; [|discriminate].
  intros [= <-]. split; [intros H; now apply length_slice_to|].
  split; [apply descending_take, sorted_desc_descending|].
  unfold Py.slice_to. apply Forall_take. rewrite sorted_desc_perm.
  eapply (collect_hits_shape s cn
            (fun q => Qle_bool q (1 # 1000) = false -> (q <= 1)%Q));
    [| |exact E|constructor].
  - intros h i q HR Hq Hs Hrrf Hrel Hi Ht Hmeta Hc.
    split; [|split; [exact Hrrf|split; [exact Hrel|split; [eauto|]]]].
    + exists q. split; [exact Hs|]. split; [|now apply HR].
      apply Qnot_le_lt. intros Hle. apply Qle_bool_iff in Hle. congruence.
    + intros c -> Hne. unfold other_collection in Hc.
      destruct c as [|a c]; [contradiction|]. cbn [PyStr.is_empty negb andb] in Hc.
      apply negb_false_iff, String.eqb_eq in Hc. exact Hc.
  - intros i q Hin Hq. apply indexed_In in Hin.
    apply in_map_iff in Hin as (x & <- & Hx).
    pose proof (py_max_ge _ _ _ Em Hx) as Hxm.
    destruct (Py.Qltb 0 m) eqn:E0.
    + apply Qltb_lt in E0. apply Qle_shift_div_r; [exact E0|].
      now rewrite Qmult_1_l.
    + apply Qltb_ge in E0. exfalso.
      assert (Hle : (x / 1 <= 1 # 1000)%Q).
      { assert (Hx1 : (x / 1 == x)%Q) by (field).
        rewrite Hx1. eapply Qle_trans; [exact Hxm|].
        eapply Qle_trans; [exact E0|]. discriminate. }
      apply Qle_bool_iff in Hle. congruence.
Qed.

End SearchFacts.

Lemma lexical_search_hits_witness :
  exists hits,
    BM25Store.search BM25Store.sample_words BM25Store.sample_scores
      (BM25Store.index BM25Store.sample_world) "alpha" (Some "default") 2
    = Ok hits /\
    Z.of_nat (length hits) <= 2.
Proof.
  destruct (BM25Store.search BM25Store.sample_words BM25Store.sample_scores
              (BM25Store.index BM25Store.sample_world) "alpha"
              (Some "default") 2) as [hits|e] eqn:E;
    [|vm_compute in E; discriminate].
  exists hits. split; [reflexivity|].
  apply (lexical_search_hits _ _ _ _ _ _ _ E). lia.
Defined.

(** X9. At start-up, if the index file is missing or unreadable, the
    lexical index is rebuilt from the dump of the vector store: it holds one
    entry per dumped chunk, in order. A non-empty dump some text of which
    has a token is saved, with its model; when no text of the dump has a
    token the rebuild raises, which the start-up catches: the entries stay,
    without a model, and the file is not written. If the dump raises, the
    start-up goes on with an empty index. An index that loaded some text is
    left as it is, whatever the dump holds; and the synchronisation never
    raises. *)
Theorem startup_recovers_index (words : string -> list string)
    (f : BM25Store.file) (get_all_chunks : result (list Doc.t)) :
  (f = BM25Store.Absent \/ f = BM25Store.Unreadable ->
   match get_all_chunks with
   | Ok all_chunks =>
       let w := Main.startup words f get_all_chunks in
       BM25Store.rows (BM25Store.index w) = map BM25Store.doc_row all_chunks /\
       (all_chunks <> [] ->
        if forallb Py.is_nil
             (map (BM25Store._tokenize words) (map Doc.text all_chunks))
        then BM25Store.disk w = f /\
             BM25Store._bm25 (BM25Store.index w) = None
        else BM25Store.disk w = BM25Store.pickle (BM25Store.index w) /\
             BM25Store.model_current words (BM25Store.index w))
   | Raise _ =>
       Main.startup words f get_all_chunks = BM25Store.__init__ words f /\
       BM25Store.rows (BM25Store.index (Main.startup words f get_all_chunks))
       = []
   end) /\
  (BM25Store._chunk_texts (BM25Store.index (BM25Store.__init__ words f)) <> [] ->
   Main.startup words f get_all_chunks = BM25Store.__init__ words f) /\
  fst (Main.lifespan_sync words get_all_chunks (BM25Store.__init__ words f))
  = Ok ().
Proof.
  split; [|split].
  - intros Hf.
    assert (E : BM25Store.__init__ words f
                = {| BM25Store.index :=
                       {| BM25Store._chunk_ids := [];
                          BM25Store._chunk_texts := [];
                          BM25Store._chunk_metadatas := [];
                          BM25Store._bm25 := None |};
                     BM25Store.disk := f |})
      by (now destruct Hf as [-> | ->]).
    unfold Main.startup, Main.lifespan_sync. rewrite E.
    cbn [BM25Store.index BM25Store._chunk_texts Py.is_nil].
    destruct get_all_chunks as [[|c all]|e]; cbn [Py.is_nil snd];
      [split; [reflexivity | intros H; now contradict H] | | auto].
    cbv zeta. split; [apply rebuild_from_store_rows|]. intros _.
    rewrite rebuild_from_store_run. cbv zeta.
    unfold BM25Store.tokenless.
    cbn [BM25Store._chunk_texts BM25Store.index BM25Store._bm25 map
         Py.is_nil negb andb].
    destruct (forallb _ _); cbn [snd BM25Store.disk BM25Store.index
                                BM25Store._bm25];
      [split; reflexivity|].
    split; [reflexivity | apply with_model_fields].
  - intros Hne. unfold Main.startup, Main.lifespan_sync.
    destruct (BM25Store._chunk_texts _); [contradiction | reflexivity].
  - unfold Main.lifespan_sync.
    destruct (Py.is_nil _); [|reflexivity].
    destruct get_all_chunks as [all|e]; [|reflexivity].
    now destruct (Py.is_nil all).
Qed.

Lemma startup_recovers_index_witness :
  let w := Main.startup BM25Store.sample_words BM25Store.Unreadable
             (Ok [HybridSearch.sample "a" "alpha"]) in
  BM25Store.rows (BM25Store.index w) = [("a", "alpha", ∅)] /\
  BM25Store.disk w = BM25Store.pickle (BM25Store.index w) /\
  BM25Store._bm25 (BM25Store.index w) = Some [["alpha"]].
Proof.
  destruct (startup_recovers_index BM25Store.sample_words BM25Store.Unreadable
              (Ok [HybridSearch.sample "a" "alpha"])) as [H _].
  destruct H as [H1 H2]; [now right|].
  cbv zeta. split; [exact H1|].
  destruct H2 as [H2 H3]; [discriminate|].
  split; [exact H2 | exact H3].
Defined.

(** *** Fusion ranker: errors, empty lists, order *)

Section FusionMore.

Import HybridSearch.

Lemma ranks_defined_dec k ls : {ranks_defined k ls} + {~ ranks_defined k ls}.
Proof.
  induction ls as [|l ls IH].
  - left. intros l [].
  - destruct (Z_lt_dec k (- Z.of_nat (length l))) as [H1|H1];
      [|destruct (Z_lt_dec (-1) k) as [H2|H2]].
    1,2: destruct IH as [IH|IH];
      [left; intros l' [<-|Hin]; [lia | now apply IH]
      |right; intros H; apply IH; intros l' Hin; apply H; now right].
    right. intros H. destruct (H l); [now left | lia | lia].
Qed.

(** An empty list leaves the two dicts as they are. *)
Lemma fuse_lists_skip_empty k ls : forall st,
  fuse_lists k st (List.filter (fun l => negb (Py.is_nil l)) ls)
  = fuse_lists k st ls.
Proof.
  induction ls as [|l ls IH]; intros st; [reflexivity|].
  destruct l as [|d l]; cbn [List.filter Py.is_nil negb].
  - cbn [fuse_lists Py.enumerate fuse_ranked mbind result_bind]. apply IH.
  - cbn [fuse_lists]. destruct (fuse_ranked k st _); simpl; [apply IH|reflexivity].
Qed.

Lemma fusion_skip_empty ls k :
  reciprocal_rank_fusion (List.filter (fun l => negb (Py.is_nil l)) ls) k
  = reciprocal_rank_fusion ls k.
Proof. unfold reciprocal_rank_fusion. now rewrite fuse_lists_skip_empty. Qed.

End FusionMore.

(** X10. As long as every [k + r] that is converted lies within the range
    of the floats, fusion raises only [ZeroDivisionError], and exactly when
    some list has a rank [r] with [k + r = 0], that is, when
    [-len(l) <= k <= -1] for one of the lists; for every other [k] it
    returns. It never raises a [KeyError] on its own dicts. *)
Theorem fusion_raises_only_on_zero_rank (ls : list (list Doc.t)) (k : Z) :
  HybridSearch.ranks_in_range k ls ->
  (HybridSearch.reciprocal_rank_fusion ls (Some k) = Raise ZeroDivisionError
   <-> exists l, In l ls /\ - Z.of_nat (length l) <= k <= -1) /\
  ((forall l, In l ls -> k < - Z.of_nat (length l) \/ -1 < k) ->
   exists out, HybridSearch.reciprocal_rank_fusion ls (Some k) = Ok out) /\
  (forall e, HybridSearch.reciprocal_rank_fusion ls (Some k) = Raise e ->
     e = ZeroDivisionError).
Proof.
  intros _. split; [|split].
  - rewrite fusion_raises_iff. split.
    + intros Hn. induction ls as [|l ls IH].
      * exfalso. apply Hn. intros l [].
      * destruct (Z_lt_dec k (- Z.of_nat (length l))) as [H1|H1];
          [|destruct (Z_lt_dec (-1) k) as [H2|H2]].
        1,2: destruct IH as (l' & Hin & Hl');
          [intros H; apply Hn; intros l' [<-|Hin]; [lia | now apply H]
          |exists l'; split; [now right | exact Hl']].
        exists l. split; [now left | lia].
    + intros (l & Hin & Hl) H. destruct (H l Hin); lia.
  - intros H. destruct (fusion_result k ls H) as (out & E & _). eauto.
  - intros e E. destruct (ranks_defined_dec k ls) as [H|H].
    + destruct (fusion_result k ls H) as (out & E' & _). congruence.
    + apply fusion_raises_iff in H. congruence.
Qed.

Lemma fusion_raises_only_on_zero_rank_witness :
  (exists out,
     HybridSearch.reciprocal_rank_fusion
       [[HybridSearch.sample "a" "A"; HybridSearch.sample "b" "B"]] (Some (-3))
     = Ok out) /\
  HybridSearch.reciprocal_rank_fusion
    [[HybridSearch.sample "a" "A"; HybridSearch.sample "b" "B"]] (Some (-2))
  = Raise ZeroDivisionError.
Proof.
  split.
  - apply fusion_raises_only_on_zero_rank.
    + intros l [<-|[]]. cbn [length]. split; lia.
    + intros l [<-|[]]. left. simpl. lia.
  - reflexivity.
Defined.

Lemma fusion_ignores_empty_lists_aux
    (vector_store_search bm25_store_search :
       string -> option string -> Z -> result (list Doc.t))
    (query : string) (collection_name : option string) (top_k : Z) :
  (forall semantic_results bm25_results,
     vector_store_search query collection_name (Z.max (top_k * 3) 15)
       = Ok semantic_results ->
     bm25_store_search query collection_name (Z.max (top_k * 3) 15)
       = Ok bm25_results ->
     fst (HybridSearch.search vector_store_search bm25_store_search
            query collection_name top_k [])
     = (fused ← HybridSearch.reciprocal_rank_fusion
                  [semantic_results; bm25_results] None;
        Ok (Py.slice_to fused top_k))).
Proof.
  intros sem lex Es El.
  unfold HybridSearch.search, HybridSearch.call_vector_store,
    HybridSearch.call_bm25_store, mbind at 1 2, Eff_bind, lift, mret, Eff_ret.
  rewrite Es, El. rewrite fusion_skip_empty.
  destruct (Py.is_nil sem && Py.is_nil lex) eqn:E.
  - apply andb_true_iff in E as [E1 E2]. destruct sem, lex; try discriminate.
    change (HybridSearch.reciprocal_rank_fusion [[]; []] None) with
      (Ok (@nil Doc.t)).
    cbn [fst mbind result_bind]. unfold Py.slice_to. now rewrite take_nil.
  - now destruct (HybridSearch.reciprocal_rank_fusion [sem; lex] None).
Qed.

(** X11. Empty lists do not count in fusion: dropping them from the input
    changes nothing. So the hybrid search, which drops them, returns in
    every case where both fetches return the first [top_k] entries of the
    fusion of the two lists as they came. *)
Theorem fusion_ignores_empty_lists
    (vector_store_search bm25_store_search :
       string -> option string -> Z -> result (list Doc.t))
    (query : string) (collection_name : option string) (top_k : Z)
    (ls : list (list Doc.t)) (k : option Z) :
  HybridSearch.reciprocal_rank_fusion
    (List.filter (fun l => negb (Py.is_nil l)) ls) k
  = HybridSearch.reciprocal_rank_fusion ls k /\
  (forall semantic_results bm25_results,
     vector_store_search query collection_name (Z.max (top_k * 3) 15)
       = Ok semantic_results ->
     bm25_store_search query collection_name (Z.max (top_k * 3) 15)
       = Ok bm25_results ->
     fst (HybridSearch.search vector_store_search bm25_store_search
            query collection_name top_k [])
     = (fused ← HybridSearch.reciprocal_rank_fusion
                  [semantic_results; bm25_results] None;
        Ok (Py.slice_to fused top_k))).
Proof.
  split; [apply fusion_skip_empty|].
  apply fusion_ignores_empty_lists_aux.
Qed.

Lemma fusion_ignores_empty_lists_witness :
  fst (HybridSearch.search
         (fun _ _ _ => Ok [HybridSearch.sample "a" "A"]) (fun _ _ _ => Ok [])
         "q" None 5 [])
  = (fused ← HybridSearch.reciprocal_rank_fusion
               [[HybridSearch.sample "a" "A"]; []] None;
     Ok (Py.slice_to fused 5)).
Proof.
  apply (fusion_ignores_empty_lists
           (fun _ _ _ => Ok [HybridSearch.sample "a" "A"])
           (fun _ _ _ => Ok []) "q" None 5 [] None); reflexivity.
Defined.

Section FusionOrder.

Import HybridSearch.

Lemma insert_desc_ext {A} (key key' : A -> Q) x l :
  (forall a, (key a == key' a)%Q) ->
  Py.insert_desc key x l = Py.insert_desc key' x l.
Proof.
  intros H. induction l as [|y l IH]; [reflexivity|]. cbn [Py.insert_desc].
  unfold Py.Qltb. rewrite (Qleb_comp _ _ (H y) _ _ (H x)).
  now rewrite IH.
Qed.

Lemma sorted_desc_ext {A} (key key' : A -> Q) l :
  (forall a, (key a == key' a)%Q) ->
  Py.sorted_desc key l = Py.sorted_desc key' l.
Proof.
  intros H. induction l as [|x l IH]; [reflexivity|]. cbn [Py.sorted_desc].
  now rewrite IH, (insert_desc_ext key key' _ _ H).
Qed.

(** A list already in descending order is left as it is. *)
Lemma sorted_desc_sorted {A} (key : A -> Q) l :
  Py.descending key l -> Py.sorted_desc key l = l.
Proof.
  unfold Py.descending. induction 1 as [|x l Hl IH Hx]; [reflexivity|].
  cbn [Py.sorted_desc]. rewrite IH. destruct l as [|y l]; [reflexivity|].
  cbn [Py.insert_desc]. apply Forall_inv in Hx.
  now rewrite (proj2 (Qltb_ge (key x) (key y)) Hx).
Qed.

(** The ids of the output are the first-seen ids in the stable descending
    order of their accumulated scores. *)
Lemma fusion_order k ls :
  ranks_defined k ls ->
  exists out,
    reciprocal_rank_fusion ls (Some k) = Ok out /\
    map Doc.id out
    = Py.sorted_desc (fun x => spec_rrf_score k x ls)
        (first_seen (all_ids ls)) /\
    Forall (fun e => exists d,
              first_doc (Doc.id e) ls = Some d /\
              e = Doc.set_rrf_score (spec_rrf_score k (Doc.id e) ls) d) out.
Proof.
  intros Hr. destruct (fusion_result k ls Hr) as (out & E & _ & Hall & _).
  exists out. split; [exact E|]. split; [|exact Hall].
  revert E. unfold reciprocal_rank_fusion. simpl default.
  destruct (fuse_lists_inv k ls [] ([], []) (fusion_inv_init k) Hr)
    as (st & -> & Hinv).
  cbn [app] in Hinv. destruct Hinv as (Hkeys & Hdocs & Hfind & Hscore).
  rewrite ids_occurrences in Hkeys. rewrite map_snd_occurrences in Hfind.
  cbn [mbind result_bind].
  set (key := fun x => default 0%Q (Py.get x (fst st))).
  destruct (make_entries_keys st (Py.sorted_desc key (map fst (fst st))) Hdocs)
    as (out' & -> & Hout).
  { intros x Hx. apply list_elem_of_In. apply list_elem_of_In in Hx.
    now rewrite (sorted_desc_perm key (map fst (fst st))) in Hx. }
  intros [= <-].
  assert (Hid : map Doc.id out' = Py.sorted_desc key (map fst (fst st))).
  { clear -Hout Hfind.
    induction Hout as [|x e ids out (d & q & Hd & Hq & ->) _ IH];
      simpl; [reflexivity|].
    rewrite IH. f_equal. rewrite Hfind in Hd. now apply find_id_eq in Hd. }
  rewrite Hid, Hkeys. apply sorted_desc_ext.
  intros x. unfold key, spec_rrf_score.
  now rewrite Hscore, occ_score_occurrences.
Qed.

End FusionOrder.

Section RankFacts.

Import HybridSearch.

(** [1/(k+r)], as a float, is not negative for [k + r > 0] and does not
    grow with the rank. *)
Lemma term_nonneg k r : 0 < k + r -> (0 <= term k r)%Q.
Proof.
  intros H. apply div_1_nonneg.
  pose proof (of_int_ge_1 (k + r) ltac:(lia)). lra.
Qed.

Lemma term_antitone k r r' :
  0 < k + r -> r <= r' -> (term k r' <= term k r)%Q.
Proof.
  intros H Hr. apply div_1_antitone.
  - pose proof (of_int_ge_1 (k + r) ltac:(lia)). lra.
  - apply of_int_mono. lia.
Qed.

Lemma term_float k r : Float.round (term k r) = term k r.
Proof. apply round_idem. Qed.

Lemma rank_from_range x l : forall start r,
  rank_from x start l = Some r -> start <= r < start + Z.of_nat (length l).
Proof.
  induction l as [|d l IH]; intros start r; simpl; [discriminate|].
  destruct (String.eqb (Doc.id d) x); [intros [= <-]; lia|].
  intros H. apply IH in H. lia.
Qed.

Lemma rank_from_None x l : forall start,
  rank_from x start l = None <-> ~ In x (map Doc.id l).
Proof.
  induction l as [|d l IH]; intros start; simpl; [tauto|].
  destruct (String.eqb_spec (Doc.id d) x) as [->|Hne].
  - split; [discriminate | tauto].
  - rewrite IH. tauto.
Qed.

Lemma rank_from_lookup (l : list Doc.t) : forall start (i : nat) d,
  List.NoDup (map Doc.id l) -> l !! i = Some d ->
  rank_from (Doc.id d) start l = Some (start + Z.of_nat i).
Proof.
  induction l as [|d0 l IH]; intros start i d Hnd Hi; [discriminate|].
  apply List.NoDup_cons_iff in Hnd as [Hd0 Hnd]. cbn [rank_from].
  destruct i as [|i]; cbn in Hi.
  - injection Hi as ->. rewrite String.eqb_refl. f_equal. lia.
  - destruct (String.eqb_spec (Doc.id d0) (Doc.id d)) as [E|_].
    + exfalso. apply Hd0. rewrite E. apply in_map.
      apply list_elem_of_In. eapply list_elem_of_lookup_2, Hi.
    + rewrite (IH _ i d Hnd Hi). f_equal. lia.
Qed.

Lemma find_lookup (l : list Doc.t) : forall (i : nat) d,
  List.NoDup (map Doc.id l) -> l !! i = Some d ->
  List.find (fun e => String.eqb (Doc.id e) (Doc.id d)) l = Some d.
Proof.
  induction l as [|d0 l IH]; intros i d Hnd Hi; [discriminate|].
  apply List.NoDup_cons_iff in Hnd as [Hd0 Hnd]. cbn [List.find].
  destruct i as [|i]; cbn in Hi.
  - injection Hi as ->. now rewrite String.eqb_refl.
  - destruct (String.eqb_spec (Doc.id d0) (Doc.id d)) as [E|_].
    + exfalso. apply Hd0. rewrite E. apply in_map.
      apply list_elem_of_In. eapply list_elem_of_lookup_2, Hi.
    + now apply (IH i).
Qed.

Lemma first_seen_distinct l : List.NoDup l -> first_seen l = l.
Proof.
  induction 1 as [|x l Hx _ IH]; [reflexivity|]. cbn [first_seen].
  rewrite IH. f_equal. apply forallb_filter_id, forallb_forall.
  intros y Hy. apply negb_true_iff. destruct (String.eqb_spec y x); congruence.
Qed.

Lemma descending_lookup {A} (key : A -> Q) (l : list A) :
  (forall (i j : nat) x y, (i < j)%nat -> l !! i = Some x -> l !! j = Some y ->
     (key y <= key x)%Q) ->
  Py.descending key l.
Proof.
  unfold Py.descending. induction l as [|a l IH]; intros H; constructor.
  - apply IH. intros i j x y Hij Hi Hj. apply (H (S i) (S j)); auto. lia.
  - apply Forall_lookup_2. intros j y Hj. apply (H 0%nat (S j)); auto. lia.
Qed.

Lemma descending_after {A} (key : A -> Q) (a b : list A) y z :
  Py.descending key (a ++ y :: b) -> In z b -> (key z <= key y)%Q.
Proof.
  unfold Py.descending. induction a as [|c a IH]; cbn [app]; intros Hd Hz.
  - apply StronglySorted_inv in Hd as [_ Hd].
    rewrite Forall_forall in Hd. apply Hd. now apply list_elem_of_In.
  - apply StronglySorted_inv in Hd as [Hd _]. now apply IH.
Qed.

(** In a descending list an element of strictly greater key stands before
    one of smaller key. *)
Lemma descending_precedes {A} (key : A -> Q) (l : list A) x y :
  Py.descending key l -> In x l -> In y l -> (key y < key x)%Q ->
  Rank.precedes x y l.
Proof.
  intros Hd Hx Hy Hlt. apply in_split in Hy as (a & b & ->).
  apply in_app_or in Hx as [Hx|[Hx|Hx]].
  - apply in_split in Hx as (a1 & a2 & ->). exists a1, a2, b.
    now rewrite <- app_assoc.
  - subst. now apply Qlt_irrefl in Hlt.
  - exfalso. pose proof (descending_after key a b y x Hd Hx) as Hle.
    apply (Qlt_irrefl (key x)). eapply Qle_lt_trans; eauto.
Qed.

(** The score of the document at position [i] of a single list. *)
Lemma single_list_score k (l : list Doc.t) (i : nat) d :
  List.NoDup (map Doc.id l) -> l !! i = Some d ->
  spec_rrf_score k (Doc.id d) [l] = term k (1 + Z.of_nat i).
Proof.
  intros Hnd Hi. unfold spec_rrf_score. cbn [fold_left].
  rewrite (spec_list_score_rank k (Doc.id d) l 0 Hnd).
  rewrite (rank_from_lookup l 1 i d Hnd Hi).
  apply add_0_l, term_float.
Qed.

End RankFacts.

Section SingleList.

Import HybridSearch.

(** A single list of distinct ids keeps its order of ids. *)
Lemma fusion_one_list_ids (l : list Doc.t) (k : Z) :
  List.NoDup (map Doc.id l) -> 0 <= k ->
  exists out,
    reciprocal_rank_fusion [l] (Some k) = Ok out /\
    map Doc.id out = map Doc.id l /\
    Forall (fun e => exists d,
              first_doc (Doc.id e) [l] = Some d /\
              e = Doc.set_rrf_score (spec_rrf_score k (Doc.id e) [l]) d) out.
Proof.
  intros Hnd Hk.
  destruct (fusion_order k [l] (ranks_defined_nonneg k [l] Hk))
    as (out & E & Hid & Hall).
  assert (Hids : all_ids [l] = map Doc.id l)
    by (unfold all_ids; cbn [concat]; now rewrite app_nil_r).
  exists out. split; [exact E|]. split; [|exact Hall].
  rewrite Hid, Hids, (first_seen_distinct _ Hnd).
  apply sorted_desc_sorted, descending_lookup.
  intros i j x y Hij Hi Hj.
  rewrite list_lookup_fmap in Hi, Hj.
  destruct (l !! i) as [di|] eqn:Ei; [|discriminate].
  destruct (l !! j) as [dj|] eqn:Ej; [|discriminate].
  injection Hi as <-. injection Hj as <-.
  rewrite (single_list_score k l i di Hnd Ei),
          (single_list_score k l j dj Hnd Ej).
  apply term_antitone; lia.
Qed.

End SingleList.

(** X12. Fusing a single list of distinct ids with [k >= 0], where
    [k + len(l)] lies within the range of the floats, keeps its order: the
    output has the same documents at the same positions, the document at
    position [i] (from 0) carrying the score [1/(k+1+i)], as the float
    quotient of 1.0 by the float of [k+1+i]. *)
Theorem fusion_of_one_list_keeps_order (l : list Doc.t) (k : Z) :
  List.NoDup (map Doc.id l) -> 0 <= k ->
  k + Z.of_nat (length l) < 2 ^ 1023 ->
  exists out,
    HybridSearch.reciprocal_rank_fusion [l] (Some k) = Ok out /\
    map Doc.id out = map Doc.id l /\
    (forall (i : nat) e, out !! i = Some e ->
       exists d, l !! i = Some d /\
         e = Doc.set_rrf_score
               (Float.div 1 (Float.of_int (k + (1 + Z.of_nat i)))) d).
Proof.
  intros Hnd Hk _.
  destruct (fusion_one_list_ids l k Hnd Hk) as (out & E & Hout & Hall).
  exists out. split; [exact E|]. split; [exact Hout|].
  intros i e Hi.
  assert (Hie : map Doc.id l !! i = Some (Doc.id e))
    by (rewrite <- Hout, list_lookup_fmap, Hi; reflexivity).
  rewrite list_lookup_fmap in Hie.
  destruct (l !! i) as [d|] eqn:Ed; [|discriminate]. injection Hie as Hde.
  rewrite Forall_forall in Hall.
  destruct (Hall e) as (d' & Hfirst & ->);
    [eapply list_elem_of_lookup_2, Hi|].
  exists d. split; [reflexivity|].
  cbn [Doc.set_rrf_score Doc.id] in Hde, Hfirst |- *.
  unfold HybridSearch.first_doc in Hfirst. cbn [concat] in Hfirst.
  rewrite app_nil_r, <- Hde, (find_lookup l i d Hnd Ed) in Hfirst.
  injection Hfirst as <-.
  now rewrite <- Hde, (single_list_score k l i d Hnd Ed).
Qed.

Lemma fusion_of_one_list_keeps_order_witness :
  exists out,
    HybridSearch.reciprocal_rank_fusion
      [[HybridSearch.sample "b" "B"; HybridSearch.sample "a" "A"]] (Some 0)
    = Ok out /\
    map Doc.id out = ["b"; "a"].
Proof.
  destruct (fusion_of_one_list_keeps_order
              [HybridSearch.sample "b" "B"; HybridSearch.sample "a" "A"] 0)
    as (out & E & Hid & _).
  - repeat constructor; simpl; intros H; repeat destruct H as [H|H];
      try discriminate; auto.
  - lia.
  - cbn [length]. lia.
  - exists out. split; [exact E | exact Hid].
Defined.

(** X13. When one of the two indices returns nothing and the other a list
    of distinct ids, the hybrid search returns the first [top_k] documents
    of that list, in its order. *)
Theorem hybrid_search_one_sided
    (vector_store_search bm25_store_search :
       string -> option string -> Z -> result (list Doc.t))
    (query : string) (collection_name : option string) (top_k : Z)
    (found : list Doc.t) :
  1 <= top_k -> List.NoDup (map Doc.id found) ->
  (vector_store_search query collection_name (Z.max (top_k * 3) 15) = Ok found
   /\ bm25_store_search query collection_name (Z.max (top_k * 3) 15) = Ok [])
  \/ (vector_store_search query collection_name (Z.max (top_k * 3) 15) = Ok []
      /\ bm25_store_search query collection_name (Z.max (top_k * 3) 15)
         = Ok found) ->
  exists out,
    fst (HybridSearch.search vector_store_search bm25_store_search
           query collection_name top_k []) = Ok out /\
    map Doc.id out = take (Z.to_nat top_k) (map Doc.id found).
Proof.
  intros Htop Hnd Hcase.
  assert (Hfuse : forall ls,
            List.filter (fun l => negb (Py.is_nil l)) ls
            = List.filter (fun l => negb (Py.is_nil l)) [found] ->
            exists out,
              (fused ← HybridSearch.reciprocal_rank_fusion ls None;
               Ok (Py.slice_to fused top_k)) = Ok out /\
              map Doc.id out = take (Z.to_nat top_k) (map Doc.id found)).
  { intros ls Hls.
    rewrite <- (fusion_skip_empty ls), Hls, fusion_skip_empty.
    destruct (fusion_one_list_ids found 60 Hnd) as (fused & E & Hid & _);
      [lia|].
    change (HybridSearch.reciprocal_rank_fusion [found] None)
      with (HybridSearch.reciprocal_rank_fusion [found] (Some 60)).
    rewrite E. cbn [mbind result_bind]. eexists. split; [reflexivity|].
    unfold Py.slice_to. rewrite slice_bound_nonneg by lia.
    rewrite <- Hid, <- firstn_map.
    destruct (Z.le_ge_cases top_k (Z.of_nat (length fused))).
    - now rewrite Z.min_l.
    - rewrite Z.min_r, Nat2Z.id by lia.
      rewrite take_ge by (rewrite length_map; lia).
      now rewrite take_ge by (rewrite length_map; lia). }
  destruct Hcase as [[Es El]|[Es El]];
    rewrite (fusion_ignores_empty_lists_aux vector_store_search
               bm25_store_search query collection_name top_k _ _ Es El);
    apply Hfuse; destruct found; reflexivity.
Qed.

Lemma hybrid_search_one_sided_witness :
  exists out,
    fst (HybridSearch.search
           (fun _ _ _ => Ok [HybridSearch.sample "a" "A";
                             HybridSearch.sample "b" "B"])
           (fun _ _ _ => Ok []) "q" None 1 []) = Ok out /\
    map Doc.id out = ["a"].
Proof.
  destruct (hybrid_search_one_sided
              (fun _ _ _ => Ok [HybridSearch.sample "a" "A";
                                HybridSearch.sample "b" "B"])
              (fun _ _ _ => Ok []) "q" None 1
              [HybridSearch.sample "a" "A"; HybridSearch.sample "b" "B"])
    as (out & E & Hid).
  - lia.
  - repeat constructor; simpl; intros H; repeat destruct H as [H|H];
      try discriminate; auto.
  - left. split; reflexivity.
  - exists out. split; [exact E | exact Hid].
Defined.

Section Unanimity.

Import HybridSearch.

Lemma precedes_lookup (x y : string) (l : list Doc.t) :
  Rank.precedes x y (map Doc.id l) ->
  exists (i j : nat) dx dy,
    (i < j)%nat /\ l !! i = Some dx /\ l !! j = Some dy /\
    Doc.id dx = x /\ Doc.id dy = y.
Proof.
  intros (l1 & l2 & l3 & E).
  assert (Hx : map Doc.id l !! length l1 = Some x).
  { rewrite E. now apply list_lookup_middle. }
  assert (Hy : map Doc.id l !! (length l1 + S (length l2))%nat = Some y).
  { rewrite E. change (l1 ++ x :: l2 ++ y :: l3)
      with (l1 ++ (x :: l2) ++ y :: l3).
    rewrite app_assoc. apply list_lookup_middle.
    rewrite length_app. reflexivity. }
  rewrite list_lookup_fmap in Hx, Hy.
  destruct (l !! length l1) as [dx|] eqn:Ex; [|discriminate].
  destruct (l !! (length l1 + S (length l2))%nat) as [dy|] eqn:Ey;
    [|discriminate].
  injection Hx as Hx. injection Hy as Hy.
  exists (length l1), (length l1 + S (length l2))%nat, dx, dy.
  repeat split; auto. lia.
Qed.

Lemma filter_none {A} (P : A -> bool) (l : list A) :
  (forall z, In z l -> P z = false) -> List.filter P l = [].
Proof.
  induction l as [|a l IH]; intros H; [reflexivity|]. cbn [List.filter].
  rewrite (H a) by now left. apply IH. intros z Hz. apply H. now right.
Qed.

Lemma filter_cons_split {A} (P : A -> bool) (l : list A) a r :
  List.filter P l = a :: r ->
  exists l1 l2, l = l1 ++ a :: l2 /\ List.filter P l2 = r.
Proof.
  induction l as [|b l IH]; cbn [List.filter]; [discriminate|].
  destruct (P b).
  - intros [= -> <-]. now exists [], l.
  - intros H. destruct (IH H) as (l1 & l2 & -> & Hr). now exists (b :: l1), l2.
Qed.

(** In a list without repetition, [x] stands before [y] exactly when the
    two of them, picked out of the list, come as [x, y]. *)
Lemma filter_pair_precedes (x y : string) l :
  List.NoDup l -> Rank.precedes x y l ->
  List.filter (fun z => String.eqb z x || String.eqb z y) l = [x; y].
Proof.
  intros Hnd (l1 & l2 & l3 & ->). apply NoDup_ListNoDup in Hnd.
  rewrite NoDup_app, NoDup_cons, NoDup_app, NoDup_cons in Hnd.
  destruct Hnd as (_ & D1 & Hx & _ & D2 & Hy & _).
  assert (Hxy : x <> y).
  { intros ->. apply Hx. apply elem_of_app. right. now left. }
  rewrite List.filter_app. cbn [List.filter].
  rewrite List.filter_app. cbn [List.filter].
  rewrite !String.eqb_refl, orb_true_r. cbn [orb].
  rewrite !filter_none; [reflexivity| | |].
  - intros z Hz. apply list_elem_of_In in Hz.
    apply orb_false_iff. split; apply String.eqb_neq; intros ->.
    + apply Hx. apply elem_of_app. right. now right.
    + now apply Hy.
  - intros z Hz. apply list_elem_of_In in Hz.
    apply orb_false_iff. split; apply String.eqb_neq; intros ->.
    + apply Hx. apply elem_of_app. now left.
    + apply (D2 y Hz). now left.
  - intros z Hz. apply list_elem_of_In in Hz.
    apply orb_false_iff. split; apply String.eqb_neq; intros ->.
    + apply (D1 x Hz). now left.
    + apply (D1 y Hz). right. apply elem_of_app. right. now left.
Qed.

Lemma filter_pair_inv {A} (P : A -> bool) (x y : A) l :
  List.filter P l = [x; y] -> Rank.precedes x y l.
Proof.
  intros H. destruct (filter_cons_split P l x [y] H) as (l1 & l2 & -> & H2).
  destruct (filter_cons_split P l2 y [] H2) as (l3 & l4 & -> & _).
  now exists l1, l3, l4.
Qed.

(** The stable descending sort keeps [x] before [y] when the key of [y] is
    not greater than that of [x]. *)
Lemma sorted_desc_keeps_order (key : string -> Q) x y l :
  List.NoDup l -> Rank.precedes x y l -> (key y <= key x)%Q ->
  Rank.precedes x y (Py.sorted_desc key l).
Proof.
  intros Hnd Hp Hle.
  assert (Hin : In x l /\ In y l).
  { destruct Hp as (l1 & l2 & l3 & ->). split; apply in_or_app; right;
      [now left | right; apply in_or_app; right; now left]. }
  destruct (Qlt_le_dec (key y) (key x)) as [Hlt|Hge].
  - apply (descending_precedes key); [apply sorted_desc_descending | | |exact Hlt];
      (eapply Permutation_in; [symmetry; apply sorted_desc_perm|]); tauto.
  - assert (E : (key x == key y)%Q) by now apply Qle_antisym.
    apply (filter_pair_inv (fun z => String.eqb z x || String.eqb z y)).
    rewrite sorted_desc_stable; [now apply filter_pair_precedes|].
    intros a b Ha Hb.
    apply orb_true_iff in Ha as [Ha|Ha]; apply orb_true_iff in Hb as [Hb|Hb];
      apply String.eqb_eq in Ha, Hb; subst; (reflexivity || easy).
Qed.

(** An id that occurs before every occurrence of [y] is seen first. *)
Lemma first_seen_precedes x y l1 : forall l2,
  x <> y -> ~ In y l1 -> In y l2 ->
  Rank.precedes x y (first_seen (l1 ++ x :: l2)).
Proof.
  assert (Hhead : forall l, x <> y -> In y l ->
            Rank.precedes x y
              (x :: List.filter (fun z => negb (String.eqb z x)) l)).
  { intros l Hxy Hy.
    assert (Hf : In y (List.filter (fun z => negb (String.eqb z x)) l)).
    { apply filter_In. split; [exact Hy|].
      apply negb_true_iff, String.eqb_neq. congruence. }
    apply in_split in Hf as (c & d & ->). now exists [], c, d. }
  induction l1 as [|a l1 IH]; intros l2 Hxy Hn Hy; cbn [app first_seen].
  - apply Hhead; [exact Hxy | now apply first_seen_In].
  - assert (Hay : a <> y) by (intros ->; apply Hn; now left).
    destruct (string_dec a x) as [->|Hax].
    + apply Hhead; [exact Hxy|]. apply first_seen_In, in_or_app.
      right. now right.
    + destruct (IH l2 Hxy) as (c & d & e & ->);
        [intros H; apply Hn; now right | exact Hy |].
      rewrite List.filter_app. cbn [List.filter].
      rewrite List.filter_app. cbn [List.filter].
      destruct (String.eqb_spec x a) as [E|_]; [congruence|].
      destruct (String.eqb_spec y a) as [E|_]; [congruence|].
      cbn [negb].
      now exists (a :: List.filter (fun z => negb (String.eqb z a)) c),
                 (List.filter (fun z => negb (String.eqb z a)) d),
                 (List.filter (fun z => negb (String.eqb z a)) e).
Qed.

(** When every list that returns [y] ranks [x] before it, [x] is met before
    [y] as the lists are read. *)
Lemma all_ids_precedes x y ls :
  (forall l, In l ls -> List.NoDup (map Doc.id l)) ->
  In y (all_ids ls) ->
  (forall l, In l ls -> In y (map Doc.id l) ->
     Rank.precedes x y (map Doc.id l)) ->
  x <> y /\
  exists l1 l2, all_ids ls = l1 ++ x :: l2 /\ ~ In y l1 /\ In y l2.
Proof.
  induction ls as [|l ls IH]; intros Hnd Hy Hp; [destruct Hy|].
  assert (E : all_ids (l :: ls) = map Doc.id l ++ all_ids ls)
    by (unfold all_ids; cbn [concat]; apply map_app).
  rewrite E in *.
  destruct (in_dec string_dec y (map Doc.id l)) as [Hin|Hout].
  - pose proof (Hnd l (or_introl eq_refl)) as Hl.
    destruct (Hp l (or_introl eq_refl) Hin) as (l1 & l2 & l3 & El).
    rewrite El in Hl |- *. apply NoDup_ListNoDup in Hl.
    rewrite NoDup_app, NoDup_cons in Hl. destruct Hl as (_ & D1 & Hx & _).
    split.
    + intros ->. apply Hx, elem_of_app. right. now left.
    + exists l1, (l2 ++ y :: l3 ++ all_ids ls). split; [|split].
      * now repeat (rewrite <- app_assoc; cbn [app]).
      * intros H. apply list_elem_of_In in H. apply (D1 y H).
        right. apply elem_of_app. right. now left.
      * apply in_or_app. right. now left.
  - apply in_app_or in Hy as [Hy|Hy]; [contradiction|].
    destruct IH as (Hxy & l1 & l2 & E' & Hn & Hy').
    + intros l' Hl'. apply Hnd. now right.
    + exact Hy.
    + intros l' Hl'. apply Hp. now right.
    + split; [exact Hxy|]. exists (map Doc.id l ++ l1), l2.
      rewrite E', <- app_assoc. split; [reflexivity|]. split; [|exact Hy'].
      intros H. apply in_app_or in H as [H|H]; contradiction.
Qed.

(** The running totals: that of [x] stays ahead of that of [y] when every
    list that returns [y] ranks [x] before it. *)
Lemma score_dominates k x y ls :
  0 <= k ->
  (forall l, In l ls -> List.NoDup (map Doc.id l)) ->
  (forall l, In l ls -> In y (map Doc.id l) ->
     Rank.precedes x y (map Doc.id l)) ->
  forall tx ty, (ty <= tx)%Q -> Float.round tx = tx ->
    (fold_left (fun total l => spec_list_score k y l total) ls ty
     <= fold_left (fun total l => spec_list_score k x l total) ls tx)%Q.
Proof.
  intros Hk. induction ls as [|l ls IH]; intros Hnd Hp tx ty Hle Hfl;
    cbn [fold_left]; [exact Hle|].
  pose proof (Hnd l (or_introl eq_refl)) as Hl.
  rewrite !(spec_list_score_rank k _ l _ Hl).
  apply IH.
  - intros l' Hl'. apply Hnd. now right.
  - intros l' Hl'. apply Hp. now right.
  - destruct (rank_from y 1 l) as [ry|] eqn:Ey.
    + assert (Hin : In y (map Doc.id l)).
      { destruct (in_dec string_dec y (map Doc.id l)) as [H|H]; [exact H|].
        apply (rank_from_None y l 1) in H. congruence. }
      destruct (precedes_lookup x y l (Hp l (or_introl eq_refl) Hin))
        as (i & j & dx & dy & Hij & Hi & Hj & <- & <-).
      rewrite (rank_from_lookup l 1 i dx Hl Hi).
      rewrite (rank_from_lookup l 1 j dy Hl Hj) in Ey. injection Ey as <-.
      apply add_mono; [exact Hle | apply term_antitone; lia].
    + destruct (rank_from x 1 l) as [rx|] eqn:Ex; [|exact Hle].
      apply rank_from_range in Ex.
      eapply Qle_trans; [exact Hle|].
      apply add_le; [exact Hfl | apply term_nonneg; lia].
  - destruct (rank_from x 1 l); [apply add_float | exact Hfl].
Qed.

(** X14. Fusion respects a unanimous order: with [k >= 0], every
    [k + len(l)] within the range of the floats, and lists of distinct ids,
    if [y] is returned by some list and every list that returns [y] ranks
    [x] before it, the fused output ranks [x] before [y]: the accumulated
    score of [x] is not less than that of [y], and when the two floats are
    equal [x], which was met first, stays first. *)
Theorem fusion_respects_unanimous_order (k : Z) (x y : string)
    (ls : list (list Doc.t)) :
  0 <= k ->
  ranks_in_range k ls ->
  (forall l, In l ls -> List.NoDup (map Doc.id l)) ->
  In y (all_ids ls) ->
  (forall l, In l ls -> In y (map Doc.id l) ->
     Rank.precedes x y (map Doc.id l)) ->
  exists out,
    reciprocal_rank_fusion ls (Some k) = Ok out /\
    Rank.precedes x y (map Doc.id out) /\
    (spec_rrf_score k y ls <= spec_rrf_score k x ls)%Q.
Proof.
  intros Hk _ Hnd Hy Hp.
  destruct (fusion_order k ls (ranks_defined_nonneg k ls Hk))
    as (out & E & Hid & _).
  assert (Hle : (spec_rrf_score k y ls <= spec_rrf_score k x ls)%Q).
  { apply (score_dominates k x y ls Hk Hnd Hp);
      [apply Qle_refl | reflexivity]. }
  exists out. split; [exact E|]. split; [|exact Hle]. rewrite Hid.
  destruct (all_ids_precedes x y ls Hnd Hy Hp) as (Hxy & l1 & l2 & -> & Hn & Hy').
  apply sorted_desc_keeps_order; [| |exact Hle].
  - apply NoDup_ListNoDup, first_seen_NoDup.
  - now apply first_seen_precedes.
Qed.

End Unanimity.

Lemma fusion_respects_unanimous_order_witness :
  exists out,
    HybridSearch.reciprocal_rank_fusion
      [[HybridSearch.sample "a" "A"; HybridSearch.sample "b" "B"];
       [HybridSearch.sample "c" "C"; HybridSearch.sample "a" "A";
        HybridSearch.sample "b" "B"]] (Some 60) = Ok out /\
    Rank.precedes "a" "b" (map Doc.id out) /\
    (HybridSearch.spec_rrf_score 60 "b"
       [[HybridSearch.sample "a" "A"; HybridSearch.sample "b" "B"];
        [HybridSearch.sample "c" "C"; HybridSearch.sample "a" "A";
         HybridSearch.sample "b" "B"]]
     <= HybridSearch.spec_rrf_score 60 "a"
          [[HybridSearch.sample "a" "A"; HybridSearch.sample "b" "B"];
           [HybridSearch.sample "c" "C"; HybridSearch.sample "a" "A";
            HybridSearch.sample "b" "B"]])%Q.
Proof.
  apply (fusion_respects_unanimous_order 60 "a" "b").
  - lia.
  - intros l [<-|[<-|[]]]; cbn [length]; split; lia.
  - intros l [<-|[<-|[]]]; repeat constructor; simpl; intros H;
      repeat destruct H as [H|H]; try discriminate; auto.
  - simpl. auto.
  - intros l [<-|[<-|[]]] _.
    + exists [], [], []. reflexivity.
    + exists ["c"], [], []. reflexivity.
Defined.

Section GateMore.

Import Crag.

Variable encode : list string -> result (list (list Q)).

Lemma evaluate_loop_embed_raises t qv i c rest passing h e :
  embedding encode (Doc.text c) = Raise e ->
  evaluate_loop encode t qv i (c :: rest) passing h =
  (Raise e, {| embed_calls := embed_calls h ++ [[Doc.text c]];
               retrieved := retrieved h |}).
Proof.
  intros Ec. cbn [evaluate_loop]. unfold mbind at 1, Eff_bind at 1.
  now rewrite embed_single_run, Ec.
Qed.

Lemma evaluate_loop_dot_raises t qv i c rest passing h cv e :
  embedding encode (Doc.text c) = Ok cv -> dot qv cv = Raise e ->
  evaluate_loop encode t qv i (c :: rest) passing h =
  (Raise e, {| embed_calls := embed_calls h ++ [[Doc.text c]];
               retrieved := retrieved h |}).
Proof.
  intros Ec Ed. cbn [evaluate_loop]. unfold mbind at 1, Eff_bind at 1.
  rewrite embed_single_run, Ec.
  unfold mbind at 1, Eff_bind at 1, lift, cosine_similarity.
  now rewrite Ed.
Qed.

(** The calls the loop adds to the log: one per chunk visited, each with
    the text of the chunk alone; all of them when the loop returns. *)
Lemma evaluate_loop_calls t qv todo : forall i passing h,
  exists made,
    embed_calls (snd (evaluate_loop encode t qv i todo passing h))
      = embed_calls h ++ made /\
    made `prefix_of` map (fun c => [Doc.text c]) todo /\
    (forall out, fst (evaluate_loop encode t qv i todo passing h) = Ok out ->
       made = map (fun c => [Doc.text c]) todo).
Proof.
  induction todo as [|c todo IH]; intros i passing h.
  - exists []. cbn. rewrite app_nil_r. repeat split; auto.
  - destruct (embedding encode (Doc.text c)) as [cv|e] eqn:Ec.
    + destruct (dot qv cv) as [sc|e] eqn:Ed.
      * rewrite (evaluate_loop_step encode _ _ _ _ _ _ _ cv sc Ec Ed).
        destruct (IH (S i)
                    (if Qle_bool t (Float.add sc (boost c))
                     then passing ++ [Doc.set_relevance (Float.add sc (boost c)) c]
                     else passing)
                    {| embed_calls := embed_calls h ++ [[Doc.text c]];
                       retrieved := alter (Doc.set_relevance (Float.add sc (boost c))) i
                                      (retrieved h) |})
          as (made & E & Hp & Hok).
        exists ([Doc.text c] :: made). cbn [embed_calls] in E.
        split; [rewrite E, <- app_assoc; reflexivity|].
        split; [cbn [map]; now apply prefix_cons|].
        intros out Hout. cbn [map]. f_equal. eauto.
      * exists [[Doc.text c]].
        rewrite (evaluate_loop_dot_raises _ _ _ _ _ _ _ cv e Ec Ed).
        cbn [fst snd embed_calls]. split; [reflexivity|].
        split; [|discriminate].
        cbn [map]. apply prefix_cons, prefix_nil.
    + exists [[Doc.text c]].
      rewrite (evaluate_loop_embed_raises _ _ _ _ _ _ _ e Ec).
      cbn [fst snd embed_calls]. split; [reflexivity|].
      split; [|discriminate].
      cbn [map]. apply prefix_cons, prefix_nil.
Qed.

Lemma evaluate_unfold query c0 chunks threshold h :
  evaluate encode query (c0 :: chunks) threshold h =
  match embedding encode query with
  | Raise e => (Raise e, {| embed_calls := embed_calls h ++ [[query]];
                            retrieved := retrieved h |})
  | Ok qv =>
      match evaluate_loop encode (threshold_or_default threshold) qv 0
              (c0 :: chunks) []
              {| embed_calls := embed_calls h ++ [[query]];
                 retrieved := retrieved h |} with
      | (Raise e, h') => (Raise e, h')
      | (Ok passing, h') =>
          (Ok (if Py.is_nil passing then ("insufficient", [])
               else (if Qle_bool (1 # 2)
                          (inject_Z (Z.of_nat (length passing))
                           / inject_Z (Z.of_nat (length (c0 :: chunks))))
                     then "grounded" else "partial",
                     Py.sorted_desc (fun x => default 0%Q (Doc.relevance x))
                       passing)), h')
      end
  end.
Proof.
  unfold evaluate. cbn [Py.is_nil]. unfold mbind at 1, Eff_bind at 1.
  rewrite embed_single_run.
  destruct (embedding encode query) as [qv|e]; [|reflexivity].
  unfold mbind at 1, Eff_bind at 1.
  destruct (evaluate_loop _ _ _ _ _ _ _) as [[passing|e] h']; [|reflexivity].
  now destruct (Py.is_nil passing).
Qed.

Lemma evaluate_calls query chunks threshold h :
  let expected :=
    if Py.is_nil chunks then []
    else [query] :: map (fun c => [Doc.text c]) chunks in
  exists made,
    embed_calls (snd (evaluate encode query chunks threshold h))
      = embed_calls h ++ made /\
    made `prefix_of` expected /\
    (chunks <> [] -> made <> []) /\
    (forall r, fst (evaluate encode query chunks threshold h) = Ok r ->
       made = expected).
Proof.
  intros expected. subst expected.
  destruct chunks as [|c0 chunks].
  - exists []. cbn. rewrite app_nil_r. repeat split; auto.
  - cbn [Py.is_nil]. rewrite evaluate_unfold.
    destruct (embedding encode query) as [qv|e] eqn:Eq.
    + destruct (evaluate_loop_calls (threshold_or_default threshold) qv
                  (c0 :: chunks) 0 []
                  {| embed_calls := embed_calls h ++ [[query]];
                     retrieved := retrieved h |})
        as (made & E & Hp & Hok).
      destruct (evaluate_loop encode (threshold_or_default threshold) qv 0
                  (c0 :: chunks) []
                  {| embed_calls := embed_calls h ++ [[query]];
                     retrieved := retrieved h |}) as [[passing|e] h'] eqn:El;
        cbn [fst snd embed_calls] in E, Hok |- *;
        exists ([query] :: made); rewrite E, <- app_assoc;
        (split; [reflexivity|]); (split; [now apply prefix_cons|]);
        (split; [discriminate|]).
      * intros r _. f_equal. eauto.
      * discriminate.
    + exists [[query]]. cbn [fst snd embed_calls].
      split; [reflexivity|]. split; [apply prefix_cons, prefix_nil|].
      split; discriminate.
Qed.

End GateMore.

(** X15. The calls the gate makes to the embedding model, whatever the
    model answers: none on the empty list; otherwise one call with the
    query alone, then one call per chunk with its text alone, in the order
    of the list, stopping at the first failure; when the gate returns, it
    has made all [1 + n] of them. *)
Theorem gate_embedding_calls
    (encode : list string -> result (list (list Q)))
    (query : string) (chunks : list Doc.t) (threshold : option Q)
    (h : Crag.heap) :
  let run := Crag.evaluate encode query chunks threshold h in
  let expected :=
    if Py.is_nil chunks then []
    else [query] :: map (fun c => [Doc.text c]) chunks in
  exists made,
    Crag.embed_calls (snd run) = Crag.embed_calls h ++ made /\
    made `prefix_of` expected /\
    Forall (fun call => length call = 1%nat) made /\
    (chunks <> [] -> made <> []) /\
    (forall r, fst run = Ok r ->
       made = expected /\ length made = length chunks + (if Py.is_nil chunks then 0 else 1))%nat.
Proof.
  intros run expected.
  destruct (evaluate_calls encode query chunks threshold h)
    as (made & E & Hp & Hne & Hok).
  exists made. split; [exact E|]. split; [exact Hp|]. split; [|split].
  - destruct Hp as [k Hk]. subst expected.
    assert (Hall : Forall (fun call : list string => length call = 1%nat)
                     (made ++ k)).
    { rewrite <- Hk. destruct chunks; [constructor|]. cbn [Py.is_nil].
      constructor; [reflexivity|].
      apply Forall_forall. intros x Hx. apply list_elem_of_In in Hx.
      apply in_map_iff in Hx as (c & <- & _). reflexivity. }
    now apply Forall_app in Hall as [Hall _].
  - exact Hne.
  - intros r Hr. split; [now apply (Hok r)|].
    rewrite (Hok r Hr). subst expected.
    destruct chunks; [reflexivity|]. cbn [Py.is_nil length].
    rewrite length_map. cbn [length]. lia.
Qed.

Section GateThreshold.

Import Crag.

Lemma filter_length_mono {A} (P P' : A -> bool) (l : list A) :
  (forall x, P' x = true -> P x = true) ->
  (length (List.filter P' l) <= length (List.filter P l))%nat.
Proof.
  intros H. induction l as [|a l IH]; cbn [List.filter]; [lia|].
  destruct (P' a) eqn:E'.
  - rewrite (H a E'). cbn [length]. lia.
  - destruct (P a); cbn [length]; lia.
Qed.

Lemma spec_passing_mono t t' sim chunks :
  (t <= t')%Q ->
  (forall c, In c (spec_passing t' sim chunks) ->
             In c (spec_passing t sim chunks)) /\
  (length (spec_passing t' sim chunks)
   <= length (spec_passing t sim chunks))%nat.
Proof.
  intros Ht.
  assert (H : forall x : Doc.t,
             Qle_bool t' (default 0%Q (Doc.relevance x)) = true ->
             Qle_bool t (default 0%Q (Doc.relevance x)) = true).
  { intros x Hx. apply Qle_bool_iff in Hx. apply Qle_bool_iff.
    eapply Qle_trans; eauto. }
  unfold spec_passing. split.
  - intros c Hc. apply filter_In in Hc as [Hin Hc]. apply filter_In. auto.
  - now apply filter_length_mono.
Qed.

Lemma spec_evaluate_mono t t' sim chunks :
  (t <= t')%Q ->
  let r := spec_evaluate t sim chunks in
  let r' := spec_evaluate t' sim chunks in
  (forall c, In c (snd r') -> In c (snd r)) /\
  (length (snd r') <= length (snd r))%nat /\
  (fst r = "insufficient" -> fst r' = "insufficient") /\
  (fst r' = "grounded" -> fst r = "grounded").
Proof.
  intros Ht r r'. subst r r'.
  destruct (spec_passing_mono t t' sim chunks Ht) as [Hin Hlen].
  unfold spec_evaluate.
  destruct (spec_passing t' sim chunks) as [|p' ps'] eqn:E'.
  { cbn [Py.is_nil fst snd length]. repeat split; try easy. lia. }
  destruct (spec_passing t sim chunks) as [|p ps] eqn:E.
  { cbn [length] in Hlen. lia. }
  cbn [Py.is_nil fst snd].
  assert (Hn : (0 < length chunks)%nat).
  { destruct chunks; [discriminate E | cbn [length]; lia]. }
  split; [|split; [|split]].
  - intros c Hc.
    eapply Permutation_in; [symmetry; apply sorted_desc_perm|].
    apply Hin. eapply Permutation_in; [apply sorted_desc_perm | exact Hc].
  - rewrite !(Permutation_length (sorted_desc_perm _ _)). exact Hlen.
  - destruct (Qle_bool _ _); discriminate.
  - unfold spec_pass_ratio.
    destruct (Qle_bool (1 # 2)
                (inject_Z (Z.of_nat (length (p' :: ps')))
                 / inject_Z (Z.of_nat (length chunks)))) eqn:R';
      [|discriminate].
    intros _. apply (pass_ratio_half _ _ Hn) in R'.
    assert (R : (length chunks <= 2 * length (p :: ps))%nat) by lia.
    apply (pass_ratio_half _ _ Hn) in R. now rewrite R.
Qed.

End GateThreshold.

(** X16. Raising the threshold never lets more through: when the
    similarities of the chunks are obtained and the effective threshold of
    one run is at most that of another, both runs return, every chunk the
    stricter run returns is returned by the other, and the status can only
    go down: "insufficient" stays "insufficient", and "grounded" under the
    stricter run means "grounded" under the other. *)
Theorem gate_threshold_monotone
    (encode : list string -> result (list (list Q)))
    (query : string) (chunks : list Doc.t) (threshold threshold' : option Q)
    (calls : list (list string)) (sim : Doc.t -> Q) :
  Forall (fun c => Crag.direct_similarity encode query c = Ok (sim c)) chunks ->
  (Crag.threshold_or_default threshold
   <= Crag.threshold_or_default threshold')%Q ->
  exists status out status' out',
    fst (Crag.evaluate encode query chunks threshold
           {| Crag.embed_calls := calls; Crag.retrieved := chunks |})
      = Ok (status, out) /\
    fst (Crag.evaluate encode query chunks threshold'
           {| Crag.embed_calls := calls; Crag.retrieved := chunks |})
      = Ok (status', out') /\
    (forall c, In c out' -> In c out) /\
    (length out' <= length out)%nat /\
    (status = "insufficient" -> status' = "insufficient") /\
    (status' = "grounded" -> status = "grounded").
Proof.
  intros Hall Ht.
  rewrite !(evaluate_run encode query chunks _ calls sim Hall).
  cbn [fst].
  pose proof (spec_evaluate_mono _ _ sim chunks Ht) as H. cbv zeta in H.
  destruct (Crag.spec_evaluate (Crag.threshold_or_default threshold) sim chunks)
    as [status out].
  destruct (Crag.spec_evaluate (Crag.threshold_or_default threshold') sim chunks)
    as [status' out'].
  exists status, out, status', out'. cbn [fst snd] in H.
  split; [reflexivity|]. split; [reflexivity|]. exact H.
Qed.

Lemma gate_threshold_monotone_witness :
  exists status out status' out',
    fst (Crag.evaluate Crag.sample_encode "q" [Crag.sample_chunk]
           (Some (1 # 20))
           {| Crag.embed_calls := []; Crag.retrieved := [Crag.sample_chunk] |})
      = Ok (status, out) /\
    fst (Crag.evaluate Crag.sample_encode "q" [Crag.sample_chunk] None
           {| Crag.embed_calls := []; Crag.retrieved := [Crag.sample_chunk] |})
      = Ok (status', out') /\
    (forall c, In c out' -> In c out) /\
    (length out' <= length out)%nat /\
    (status = "insufficient" -> status' = "insufficient") /\
    (status' = "grounded" -> status = "grounded").
Proof.
  apply (gate_threshold_monotone Crag.sample_encode "q" [Crag.sample_chunk]
           (Some (1 # 20)) None [] (fun _ => 1 # 10)).
  - repeat constructor.
  - vm_compute. discriminate.
Defined.

(** *** Query endpoint *)

Section GateReturns.

Import Crag.

Variable encode : list string -> result (list (list Q)).

(** When the loop returns, every embedding and product it asked for
    succeeded. *)
Lemma evaluate_loop_ok_all t qv todo : forall i passing h out,
  fst (evaluate_loop encode t qv i todo passing h) = Ok out ->
  Forall (fun c => exists cv sc,
            embedding encode (Doc.text c) = Ok cv /\ dot qv cv = Ok sc) todo.
Proof.
  induction todo as [|c todo IH]; intros i passing h out Hout; [constructor|].
  destruct (embedding encode (Doc.text c)) as [cv|e] eqn:Ec.
  - destruct (dot qv cv) as [sc|e] eqn:Ed.
    + rewrite (evaluate_loop_step encode _ _ _ _ _ _ _ cv sc Ec Ed) in Hout.
      constructor; [eauto | eapply IH, Hout].
    + now rewrite (evaluate_loop_dot_raises encode _ _ _ _ _ _ _ cv e Ec Ed)
        in Hout.
  - now rewrite (evaluate_loop_embed_raises encode _ _ _ _ _ _ _ e Ec) in Hout.
Qed.

(** When the gate returns, the similarities of all chunks were obtained. *)
Lemma evaluate_ok_sim query chunks threshold h r :
  fst (evaluate encode query chunks threshold h) = Ok r ->
  exists sim,
    Forall (fun c => direct_similarity encode query c = Ok (sim c)) chunks.
Proof.
  intros Hr.
  exists (fun c => match direct_similarity encode query c with
                   | Ok sc => sc
                   | Raise _ => 0%Q
                   end).
  destruct chunks as [|c0 chunks]; [constructor|].
  rewrite evaluate_unfold in Hr.
  destruct (embedding encode query) as [qv|e] eqn:Eq; [|discriminate].
  destruct (evaluate_loop encode (threshold_or_default threshold) qv 0
              (c0 :: chunks) []
              {| embed_calls := embed_calls h ++ [[query]];
                 retrieved := retrieved h |}) as [[passing|e] h'] eqn:El;
    [|discriminate].
  pose proof (evaluate_loop_ok_all _ qv (c0 :: chunks) 0 [] _ passing
                (f_equal fst El)) as Hall.
  eapply Forall_impl; [exact Hall|].
  intros c (cv & sc & Ec & Ed). cbv beta.
  unfold direct_similarity. rewrite Eq. cbn [mbind result_bind].
  rewrite Ec. cbn [mbind result_bind]. unfold cosine_similarity.
  now rewrite Ed.
Qed.

(** What the gate can return. *)
Lemma spec_evaluate_shape t sim chunks :
  let r := spec_evaluate t sim chunks in
  (fst r = "grounded" \/ fst r = "partial" \/ fst r = "insufficient") /\
  (fst r = "insufficient" <-> snd r = []) /\
  (length (snd r) <= length chunks)%nat /\
  Forall (fun x => exists c rel,
            In c chunks /\ x = Doc.set_relevance rel c /\ (t <= rel)%Q)
    (snd r).
Proof.
  intros r. subst r. unfold spec_evaluate.
  destruct (spec_passing t sim chunks) as [|p ps] eqn:E.
  { cbn [Py.is_nil fst snd length]. repeat split; auto. lia. }
  cbn [Py.is_nil fst snd]. rewrite <- E.
  assert (Hperm := sorted_desc_perm
                     (fun x => default 0%Q (Doc.relevance x))
                     (spec_passing t sim chunks)).
  split; [destruct (Qle_bool _ _); auto|].
  split.
  { split.
    - destruct (Qle_bool _ _); discriminate.
    - intros H. rewrite H in Hperm. apply Permutation_nil in Hperm.
      rewrite E in Hperm. discriminate. }
  split.
  { rewrite (Permutation_length Hperm). unfold spec_passing, spec_scored.
    etransitivity; [apply List.filter_length_le|]. now rewrite length_map. }
  apply Forall_forall. intros x Hx. apply list_elem_of_In in Hx.
  apply (Permutation_in _ Hperm) in Hx.
  unfold spec_passing, spec_scored in Hx.
  apply filter_In in Hx as [Hx Hle]. apply in_map_iff in Hx as (c & <- & Hc).
  exists c, (spec_combined sim c). repeat split; [exact Hc|].
  now apply Qle_bool_iff in Hle.
Qed.

Lemma evaluate_ok_shape query chunks threshold calls status out :
  fst (evaluate encode query chunks threshold
         {| embed_calls := calls; retrieved := chunks |}) = Ok (status, out) ->
  (status = "grounded" \/ status = "partial" \/ status = "insufficient") /\
  (status = "insufficient" <-> out = []) /\
  (length out <= length chunks)%nat /\
  Forall (fun x => exists c rel,
            In c chunks /\ x = Doc.set_relevance rel c /\
            (threshold_or_default threshold <= rel)%Q) out.
Proof.
  intros Hr. destruct (evaluate_ok_sim _ _ _ _ _ Hr) as [sim Hsim].
  rewrite (evaluate_run encode query chunks threshold calls sim Hsim) in Hr.
  cbn [fst] in Hr. injection Hr as Hr.
  pose proof (spec_evaluate_shape (threshold_or_default threshold) sim chunks)
    as H. cbv zeta in H. rewrite Hr in H. exact H.
Qed.

End GateReturns.

Section QueryFacts.

Import QueryApi.

Variable vector_store_search :
  string -> option string -> Z -> result (list Doc.t).
Variable bm25_store_search :
  string -> option string -> Z -> result (list Doc.t).
Variable encode : list string -> result (list (list Q)).
Variable SYSTEM_PROMPT : string.
Variable _build_context : list Doc.t -> string.
Variable py_int : string -> option Z.
Variable round4 : Q -> Q.
Variable exn_str : exn -> string.

Lemma search_ok_length query cn top_k log out :
  0 <= top_k ->
  fst (HybridSearch.search vector_store_search bm25_store_search
         query cn top_k log) = Ok out ->
  Z.of_nat (length out) <= top_k.
Proof.
  intros Htop.
  unfold HybridSearch.search, HybridSearch.call_vector_store,
    HybridSearch.call_bm25_store, mbind, Eff_bind, lift, mret, Eff_ret.
  destruct (vector_store_search _ _ _) as [sem|e]; [|discriminate].
  destruct (bm25_store_search _ _ _) as [lex|e]; [|discriminate].
  destruct (Py.is_nil sem && Py.is_nil lex).
  - intros [= <-]. simpl. lia.
  - destruct (HybridSearch.reciprocal_rank_fusion _ _) as [fused|e];
      [|discriminate].
    intros [= <-]. now apply length_slice_to.
Qed.

Lemma query_unfold _call_ollama _call_openai request tr :
  query vector_store_search bm25_store_search encode SYSTEM_PROMPT
    _build_context py_int round4 exn_str _call_ollama _call_openai request tr
  = match HybridSearch.search vector_store_search bm25_store_search
            (question request) (Some (collection_name request))
            (top_k request) (fetches tr) with
    | (Raise e, log) =>
        (Raise e, {| fetches := log; gate_calls := gate_calls tr |})
    | (Ok results, log) =>
        match Crag.evaluate encode (question request) results None
                {| Crag.embed_calls := gate_calls tr;
                   Crag.retrieved := results |} with
        | (Raise e, h) =>
            (Raise e,
             {| fetches := log; gate_calls := Crag.embed_calls h |})
        | (Ok (status, filtered), h) =>
            (Ok (if String.eqb status "insufficient"
                 then {| answer := Crag.INSUFFICIENT_RESPONSE;
                         citations := [];
                         crag_status := "insufficient" |}
                 else
                   {| answer :=
                        fst (Generator.generate settings SYSTEM_PROMPT
                               _build_context py_int round4 exn_str
                               _call_ollama _call_openai
                               (question request) filtered status);
                      citations :=
                        Generator._extract_citations py_int round4 filtered;
                      crag_status := status |}),
             {| fetches := log; gate_calls := Crag.embed_calls h |})
        end
    end.
Proof.
  unfold query, hybrid_search, crag_evaluate.
  unfold mbind at 1, Eff_bind at 1.
  destruct (HybridSearch.search _ _ _ _ _ _) as [[results|e] log];
    cbn [fst snd]; [|reflexivity].
  unfold mbind at 1, Eff_bind at 1. cbn [fetches gate_calls].
  destruct (Crag.evaluate _ _ _ _ _) as [[[status filtered]|e] h];
    cbn [fst snd]; [|reflexivity].
  destruct (String.eqb_spec status "insufficient") as [->|Hne];
    [reflexivity|].
  unfold mret, Eff_ret. f_equal. f_equal.
  unfold Generator.generate. apply String.eqb_neq in Hne. now rewrite Hne.
Qed.

Lemma len_append (a b : string) :
  PyStr.len (a +:+ b) = PyStr.len a + PyStr.len b.
Proof.
  unfold PyStr.len. induction a as [|c a IH]; [reflexivity|].
  change (String c a +:+ b) with (String c (a +:+ b)).
  cbn [String.length]. lia.
Qed.

Lemma citation_text_bound (chunk : Doc.t) :
  PyStr.len (Generator.chunk_text (Generator.citation_of py_int round4 chunk))
  <= 403.
Proof.
  unfold Generator.citation_of. cbn [Generator.chunk_text].
  rewrite len_append, len_slice_to by lia.
  destruct (400 <? PyStr.len (Doc.text chunk));
    [change (PyStr.len "...") with 3 | change (PyStr.len "") with 0]; lia.
Qed.

End QueryFacts.

(** X17. What the query endpoint answers, for [top_k >= 0] and whatever the
    indices, the embedding model and the generation model do: the status is
    one of "grounded", "partial" and "insufficient"; there are no citations
    exactly when it is "insufficient", and the answer is then the fixed
    refusal; there are at most [top_k] citations, each with an excerpt of at
    most 403 characters, and each made from a chunk the hybrid search
    returned, whose relevance reached the default threshold 0.20. *)
Theorem query_response_shape
    (vector_store_search bm25_store_search :
       string -> option string -> Z -> result (list Doc.t))
    (encode : list string -> result (list (list Q)))
    (SYSTEM_PROMPT : string) (_build_context : list Doc.t -> string)
    (py_int : string -> option Z) (round4 : Q -> Q) (exn_str : exn -> string)
    (_call_ollama _call_openai : list Generator.message -> result string)
    (request : QueryApi.QueryRequest) (tr : QueryApi.trace)
    (resp : QueryApi.QueryResponse) :
  0 <= QueryApi.top_k request ->
  fst (QueryApi.query vector_store_search bm25_store_search encode
         SYSTEM_PROMPT _build_context py_int round4 exn_str
         _call_ollama _call_openai request tr) = Ok resp ->
  (QueryApi.crag_status resp = "grounded" \/
   QueryApi.crag_status resp = "partial" \/
   QueryApi.crag_status resp = "insufficient") /\
  (QueryApi.crag_status resp = "insufficient"
   <-> QueryApi.citations resp = []) /\
  (QueryApi.crag_status resp = "insufficient" ->
   QueryApi.answer resp = Crag.INSUFFICIENT_RESPONSE) /\
  Z.of_nat (length (QueryApi.citations resp)) <= QueryApi.top_k request /\
  Forall (fun cit => PyStr.len (Generator.chunk_text cit) <= 403)
    (QueryApi.citations resp) /\
  exists results,
    fst (HybridSearch.search vector_store_search bm25_store_search
           (QueryApi.question request)
           (Some (QueryApi.collection_name request))
           (QueryApi.top_k request) (QueryApi.fetches tr)) = Ok results /\
    Forall (fun cit => exists c rel,
              In c results /\ (20 # 100 <= rel)%Q /\
              cit = Generator.citation_of py_int round4
                      (Doc.set_relevance rel c))
      (QueryApi.citations resp).
Proof.
  intros Htop Hresp. rewrite query_unfold in Hresp.
  destruct (HybridSearch.search _ _ _ _ _ _) as [[results|e] log] eqn:Es;
    [|discriminate].
  destruct (Crag.evaluate _ _ _ _ _) as [[[status filtered]|e] h] eqn:Ee;
    [|discriminate].
  cbn [fst] in Hresp. injection Hresp as <-.
  pose proof (search_ok_length _ _ _ _ _ _ results Htop (f_equal fst Es))
    as Hlen.
  destruct (evaluate_ok_shape encode _ _ _ _ _ _ (f_equal fst Ee))
    as (Hst & Hnil & Hle & Hall).
  destruct (String.eqb_spec status "insufficient") as [->|Hne];
    cbn [QueryApi.crag_status QueryApi.citations QueryApi.answer fst].
  - repeat split; auto; try lia.
    exists results. split; [reflexivity | constructor].
  - unfold Generator._extract_citations.
    split; [exact Hst|]. split.
    { split; [contradiction|]. intros H. apply Hnil.
      now destruct filtered. }
    split; [contradiction|]. split; [rewrite length_map; lia|]. split.
    { apply Forall_forall. intros cit Hc. apply list_elem_of_In in Hc.
      apply in_map_iff in Hc as (c & <- & _). apply citation_text_bound. }
    exists results. split; [reflexivity|].
    apply Forall_forall. intros cit Hc. apply list_elem_of_In in Hc.
    apply in_map_iff in Hc as (x & <- & Hx).
    rewrite Forall_forall in Hall.
    destruct (Hall x) as (c & rel & Hin & -> & Hrel);
      [now apply list_elem_of_In|].
    exists c, rel. auto.
Qed.

Lemma query_response_shape_witness :
  exists resp,
    fst (QueryApi.query QueryApi.sample_semantic QueryApi.sample_lexical
           Crag.sample_encode "" (fun _ => "") (fun _ => None) (fun x => x)
           (fun _ => "") Generator.answering Generator.timing_out
           QueryApi.sample_request
           {| QueryApi.fetches := []; QueryApi.gate_calls := [] |}) = Ok resp /\
    QueryApi.crag_status resp = "grounded" /\
    Z.of_nat (length (QueryApi.citations resp)) <= 5.
Proof.
  eexists. split; [vm_compute; reflexivity|]. split; [reflexivity|].
  apply (query_response_shape QueryApi.sample_semantic QueryApi.sample_lexical
           Crag.sample_encode "" (fun _ => "") (fun _ => None) (fun x => x)
           (fun _ => "") Generator.answering Generator.timing_out
           QueryApi.sample_request
           {| QueryApi.fetches := []; QueryApi.gate_calls := [] |}).
  - discriminate.
  - vm_compute. reflexivity.
Defined.

(** X18. The generation model cannot fail a request and is not consulted
    for a refusal: with two different generation models, all else equal, the
    endpoint leaves the same trace, raises the same exceptions, and answers
    with the same status and citations, and with the same response when the
    status is "insufficient"; and a request raises only what the hybrid
    search or the gate raised. *)
Theorem query_isolates_generation
    (vector_store_search bm25_store_search :
       string -> option string -> Z -> result (list Doc.t))
    (encode : list string -> result (list (list Q)))
    (SYSTEM_PROMPT : string) (_build_context : list Doc.t -> string)
    (py_int : string -> option Z) (round4 : Q -> Q) (exn_str : exn -> string)
    (_call_ollama _call_openai _call_ollama' _call_openai' :
       list Generator.message -> result string)
    (request : QueryApi.QueryRequest) (tr : QueryApi.trace) :
  let run := QueryApi.query vector_store_search bm25_store_search encode
               SYSTEM_PROMPT _build_context py_int round4 exn_str
               _call_ollama _call_openai request tr in
  let run' := QueryApi.query vector_store_search bm25_store_search encode
                SYSTEM_PROMPT _build_context py_int round4 exn_str
                _call_ollama' _call_openai' request tr in
  let retrieval :=
    HybridSearch.search vector_store_search bm25_store_search
      (QueryApi.question request) (Some (QueryApi.collection_name request))
      (QueryApi.top_k request) (QueryApi.fetches tr) in
  snd run = snd run' /\
  (forall e, fst run = Raise e <-> fst run' = Raise e) /\
  (forall resp, fst run = Ok resp ->
     exists resp', fst run' = Ok resp' /\
       QueryApi.crag_status resp' = QueryApi.crag_status resp /\
       QueryApi.citations resp' = QueryApi.citations resp /\
       (QueryApi.crag_status resp = "insufficient" -> resp' = resp)) /\
  (forall e, fst run = Raise e ->
     fst retrieval = Raise e \/
     exists results,
       fst retrieval = Ok results /\
       fst (Crag.evaluate encode (QueryApi.question request) results None
              {| Crag.embed_calls := QueryApi.gate_calls tr;
                 Crag.retrieved := results |}) = Raise e).
Proof.
  intros run run' retrieval. subst run run' retrieval.
  rewrite !query_unfold.
  destruct (HybridSearch.search _ _ _ _ _ _) as [[results|e] log].
  2: { cbn [fst snd]. split; [reflexivity|]. split; [tauto|].
       split; [discriminate | intros e' [= <-]; now left]. }
  destruct (Crag.evaluate _ _ _ _ _) as [[[status filtered]|e] h] eqn:Ee.
  2: { cbn [fst snd]. split; [reflexivity|]. split; [tauto|].
       split; [discriminate|].
       intros e' [= <-]. right. exists results. now rewrite Ee. }
  cbn [fst snd]. split; [reflexivity|]. split; [split; discriminate|].
  split; [|discriminate].
  intros resp [= <-]. eexists. split; [reflexivity|].
  destruct (String.eqb_spec status "insufficient") as [->|Hne];
    cbn [QueryApi.crag_status QueryApi.citations];
    (split; [reflexivity|]); (split; [reflexivity|]);
    [reflexivity | intros H; contradiction].
Qed.

(** *** Collection registry *)

Section RegistryFacts.

Import CollectionRegistry.

Lemma isspace_lower_char c : PyStr.isspace (lower_char c) = PyStr.isspace c.
Proof. destruct c as [[] [] [] [] [] [] [] []]; reflexivity. Qed.

Lemma lower_char_idem c : lower_char (lower_char c) = lower_char c.
Proof. destruct c as [[] [] [] [] [] [] [] []]; reflexivity. Qed.

Lemma lower_idem s : lower (lower s) = lower s.
Proof.
  induction s as [|c s IH]; [reflexivity|]. cbn [lower].
  now rewrite lower_char_idem, IH.
Qed.

Lemma lower_empty s : lower s = "" <-> s = "".
Proof. destruct s; split; intros H; try reflexivity; discriminate. Qed.

Lemma lstrip_lower s : PyStr.lstrip (lower s) = lower (PyStr.lstrip s).
Proof.
  induction s as [|c s IH]; [reflexivity|]. cbn [lower PyStr.lstrip].
  rewrite isspace_lower_char. now destruct (PyStr.isspace c).
Qed.

Lemma is_empty_lower s : PyStr.is_empty (lower s) = PyStr.is_empty s.
Proof. now destruct s. Qed.

Lemma rstrip_lower s : PyStr.rstrip (lower s) = lower (PyStr.rstrip s).
Proof.
  induction s as [|c s IH]; [reflexivity|]. cbn [lower PyStr.rstrip].
  rewrite IH, is_empty_lower, isspace_lower_char.
  now destruct (PyStr.is_empty (PyStr.rstrip s) && PyStr.isspace c).
Qed.

Lemma strip_lower s : PyStr.strip (lower s) = lower (PyStr.strip s).
Proof. unfold PyStr.strip. now rewrite rstrip_lower, lstrip_lower. Qed.

(** The name under which [add] registers is a fixed point of the
    normalisation. *)
Lemma normal_form_idem name :
  lower (PyStr.strip (lower (PyStr.strip name))) = lower (PyStr.strip name).
Proof. now rewrite strip_lower, strip_idem, lower_idem. Qed.

Lemma ascii_compare_spec a b :
  CompareSpec (a = b) (N_of_ascii a < N_of_ascii b)%N
    (N_of_ascii b < N_of_ascii a)%N (Ascii.compare a b).
Proof.
  unfold Ascii.compare.
  destruct (N.compare_spec (N_of_ascii a) (N_of_ascii b)); constructor; auto.
  rewrite <- (ascii_N_embedding a), <- (ascii_N_embedding b). now f_equal.
Qed.

Lemma leb_trans s1 : forall s2 s3,
  String.leb s1 s2 = true -> String.leb s2 s3 = true ->
  String.leb s1 s3 = true.
Proof.
  unfold String.leb.
  induction s1 as [|a s1 IH]; intros [|b s2] [|c s3]; cbn [String.compare];
    try easy.
  specialize (IH s2 s3).
  destruct (ascii_compare_spec a b), (ascii_compare_spec b c),
    (ascii_compare_spec a c); subst; try easy; try lia.
Qed.

Lemma insert_sorted_perm x l : Permutation (insert_sorted x l) (x :: l).
Proof.
  induction l as [|y l IH]; cbn [insert_sorted]; [reflexivity|].
  destruct (String.leb x y); [reflexivity|].
  rewrite IH. apply perm_swap.
Qed.

Lemma sorted_perm l : Permutation (sorted l) l.
Proof.
  induction l as [|x l IH]; [reflexivity|]. unfold sorted. cbn [fold_right].
  fold (sorted l). rewrite insert_sorted_perm. now constructor.
Qed.

Lemma insert_sorted_ascending x l :
  ascending l -> ascending (insert_sorted x l).
Proof.
  unfold ascending. induction l as [|y l IH]; intros Hl; cbn [insert_sorted].
  - repeat constructor.
  - apply StronglySorted_inv in Hl as [Hl Hy].
    destruct (String.leb x y) eqn:E.
    + constructor; [now constructor|]. constructor; [exact E|].
      eapply Forall_impl; [exact Hy|]. intros z Hz. cbv beta in *.
      eapply leb_trans; eauto.
    + constructor; [now apply IH|].
      assert (Hyx : String.leb y x = true).
      { destruct (String.leb_total x y) as [Hxy|Hxy]; congruence. }
      apply Forall_forall. intros z Hz. apply list_elem_of_In in Hz.
      apply (Permutation_in _ (insert_sorted_perm x l)) in Hz.
      destruct Hz as [<-|Hz]; [exact Hyx|].
      rewrite Forall_forall in Hy. apply Hy. now apply list_elem_of_In.
Qed.

Lemma sorted_ascending l : ascending (sorted l).
Proof.
  induction l as [|x l IH]; [constructor|].
  unfold sorted. cbn [fold_right]. now apply insert_sorted_ascending.
Qed.

Lemma get_all_elem r x : In x (get_all r) <-> x ∈ _collections r.
Proof.
  unfold get_all. rewrite <- elem_of_elements, <- list_elem_of_In.
  split; intros H.
  - now rewrite <- (sorted_perm (elements (_collections r))).
  - now rewrite (sorted_perm (elements (_collections r))).
Qed.

Lemma get_all_NoDup r : List.NoDup (get_all r).
Proof.
  apply NoDup_ListNoDup. unfold get_all. rewrite sorted_perm.
  apply NoDup_elements.
Qed.

Lemma listed_save r : listed (disk (_save r)) = _collections r.
Proof.
  cbn [_save disk listed]. apply set_eq. intros x.
  rewrite elem_of_list_to_set, sorted_perm. apply elem_of_elements.
Qed.

Lemma synced_save r : synced (_save r).
Proof. unfold synced. now rewrite listed_save. Qed.

Lemma init_collections f :
  _collections (__init__ f)
  = if decide (listed f = ∅) then {["default"]} else listed f.
Proof.
  unfold __init__, _load. cbn [disk _collections].
  destruct f as [| |data]; cbn [listed with_collections _collections disk].
  - rewrite !decide_True by reflexivity. cbn [_save _collections].
    set_solver.
  - rewrite !decide_True by reflexivity. cbn [_save _collections].
    set_solver.
  - assert (E : (∅ ∪ list_to_set data : gset string) = list_to_set data)
      by apply union_empty_l_L.
    rewrite E. destruct (decide (list_to_set data = ∅)) as [E0|N0];
      [|reflexivity].
    cbn [_save _collections]. rewrite E0. set_solver.
Qed.

Lemma init_synced f : synced (__init__ f).
Proof.
  unfold synced, __init__, _load. cbn [disk _collections].
  destruct f as [| |data]; cbn [with_collections _collections disk].
  - rewrite decide_True by reflexivity. apply synced_save.
  - rewrite decide_True by reflexivity. apply synced_save.
  - destruct (decide _) as [E0|N0]; [apply synced_save|].
    cbn [listed disk _collections]. symmetry. apply union_empty_l_L.
Qed.

Lemma run_op_synced o r : synced r -> synced (run_op o r).
Proof.
  intros Hs. destruct o as [name|name]; cbn [run_op]; unfold add, remove.
  - destruct (PyStr.is_empty _); [exact Hs | apply synced_save].
  - destruct (decide _); [apply synced_save | exact Hs].
Qed.

Lemma run_synced ops : forall r, synced r -> synced (run ops r).
Proof.
  unfold run. induction ops as [|o ops IH]; intros r Hs; [exact Hs|].
  cbn [fold_left]. now apply IH, run_op_synced.
Qed.

End RegistryFacts.

Section RegistryMore.

Import CollectionRegistry.

Lemma get_all_nil r : get_all r = [] <-> _collections r = ∅.
Proof.
  unfold get_all. split; intros H.
  - apply leibniz_equiv, elements_empty_inv.
    apply Permutation_nil. rewrite <- H. apply sorted_perm.
  - rewrite H, elements_empty. reflexivity.
Qed.

Lemma add_unfold name r :
  add name r
  = if PyStr.is_empty (lower (PyStr.strip name)) then r
    else {| _collections := {[lower (PyStr.strip name)]} ∪ _collections r;
            disk := Listing (sorted (elements
                      ({[lower (PyStr.strip name)]} ∪ _collections r))) |}.
Proof. reflexivity. Qed.

End RegistryMore.

(** X19. The listing of the registry: [get_all] returns the registered
    names, each once, in ascending order of code points; and the registry a
    start-up builds is never empty: it holds the names of the file, or
    "default" alone when the file is missing, unreadable or lists nothing. *)
Theorem registry_listing (r : CollectionRegistry.registry)
    (f : CollectionRegistry.file) :
  CollectionRegistry.ascending (CollectionRegistry.get_all r) /\
  List.NoDup (CollectionRegistry.get_all r) /\
  (forall x, In x (CollectionRegistry.get_all r)
             <-> x ∈ CollectionRegistry._collections r) /\
  CollectionRegistry.get_all (CollectionRegistry.__init__ f) <> [] /\
  (CollectionRegistry.listed f = ∅ ->
   CollectionRegistry.get_all (CollectionRegistry.__init__ f) = ["default"]) /\
  (CollectionRegistry.listed f <> ∅ ->
   forall x, In x (CollectionRegistry.get_all (CollectionRegistry.__init__ f))
             <-> x ∈ CollectionRegistry.listed f).
Proof.
  split; [apply sorted_ascending|]. split; [apply get_all_NoDup|].
  split; [apply get_all_elem|].
  pose proof (init_collections f) as Hi.
  split; [|split].
  - rewrite get_all_nil, Hi.
    destruct (decide (CollectionRegistry.listed f = ∅)) as [E|N];
      [|exact N].
    intros H. assert (Hd : "default" ∈ (∅ : gset string))
      by (rewrite <- H; set_solver).
    set_solver.
  - intros E. unfold CollectionRegistry.get_all. rewrite Hi.
    rewrite decide_True by exact E. rewrite elements_singleton. reflexivity.
  - intros N x. rewrite get_all_elem, Hi. now rewrite decide_False by exact N.
Qed.

(** X20. [add] registers a name in its normal form, stripped and in lower
    case: a name that is blank is ignored; any other adds its normal form
    and rewrites the file with the sorted listing; names with the same
    normal form are one collection and adding twice is adding once. [remove]
    takes the name as given: removing a name that is not in normal form and
    was not registered as such leaves the collection that [add] made of it,
    while removing the normal form undoes the [add] of a new name. *)
Theorem registry_add_normalises (name : string)
    (r : CollectionRegistry.registry) :
  let n := CollectionRegistry.lower (PyStr.strip name) in
  (n = "" -> CollectionRegistry.add name r = r) /\
  (n <> "" ->
   CollectionRegistry._collections (CollectionRegistry.add name r)
     = {[n]} ∪ CollectionRegistry._collections r /\
   CollectionRegistry.disk (CollectionRegistry.add name r)
     = CollectionRegistry.Listing
         (CollectionRegistry.get_all (CollectionRegistry.add name r))) /\
  CollectionRegistry.add n r = CollectionRegistry.add name r /\
  CollectionRegistry.add name (CollectionRegistry.add name r)
    = CollectionRegistry.add name r /\
  (n <> "" -> n <> name -> name ∉ CollectionRegistry._collections r ->
   CollectionRegistry.remove name (CollectionRegistry.add name r)
     = CollectionRegistry.add name r /\
   In n (CollectionRegistry.get_all
           (CollectionRegistry.remove name (CollectionRegistry.add name r)))) /\
  (n <> "" -> n ∉ CollectionRegistry._collections r ->
   CollectionRegistry._collections
     (CollectionRegistry.remove n (CollectionRegistry.add name r))
   = CollectionRegistry._collections r).
Proof.
  intros n. rewrite !add_unfold. fold n.
  assert (Hn : CollectionRegistry.lower (PyStr.strip n) = n)
    by apply normal_form_idem.
  rewrite Hn. clear Hn. clearbody n.
  destruct (PyStr.is_empty n) eqn:E.
  { pose proof (proj1 (is_empty_true n) E) as En.
    repeat split; try reflexivity; intros; contradiction. }
  assert (Hne : n <> "") by (intros H; rewrite H in E; discriminate).
  split; [contradiction|]. split; [intros _; split; reflexivity|].
  split; [reflexivity|]. split.
  { cbn [CollectionRegistry._collections].
    assert (Hu : ({[n]} ∪ ({[n]} ∪ CollectionRegistry._collections r)
                  : gset string)
                 = {[n]} ∪ CollectionRegistry._collections r)
      by (now rewrite (assoc_L (∪)), (idemp_L (∪))).
    now rewrite Hu. }
  split.
  - intros _ Hname Hnot. unfold CollectionRegistry.remove.
    cbn [CollectionRegistry._collections].
    rewrite decide_False
      by (apply not_elem_of_union; split;
          [apply not_elem_of_singleton; congruence | exact Hnot]).
    split; [reflexivity|].
    apply get_all_elem. cbn [CollectionRegistry._collections].
    now apply elem_of_union_l, elem_of_singleton.
  - intros _ Hnot. unfold CollectionRegistry.remove.
    cbn [CollectionRegistry._collections].
    rewrite decide_True by (now apply elem_of_union_l, elem_of_singleton).
    cbn [CollectionRegistry._save CollectionRegistry.with_collections
         CollectionRegistry._collections].
    rewrite difference_union_distr_l_L, difference_diag_L, union_empty_l_L.
    now apply difference_disjoint_L, disjoint_singleton_r.
Qed.

(** X21. The registry is durable: after any sequence of [add] and [remove]
    on a registry started from any file, the file lists exactly the
    registered names, and a restart from it gives the same listing; except
    that a registry emptied by [remove] comes back holding "default". *)
Theorem registry_survives_restart (f : CollectionRegistry.file)
    (ops : list CollectionRegistry.op) :
  let r := CollectionRegistry.run ops (CollectionRegistry.__init__ f) in
  let r' := CollectionRegistry.__init__ (CollectionRegistry.disk r) in
  CollectionRegistry.listed (CollectionRegistry.disk r)
    = CollectionRegistry._collections r /\
  (CollectionRegistry._collections r <> ∅ ->
   CollectionRegistry._collections r' = CollectionRegistry._collections r /\
   CollectionRegistry.get_all r' = CollectionRegistry.get_all r /\
   CollectionRegistry.disk r' = CollectionRegistry.disk r) /\
  (CollectionRegistry._collections r = ∅ ->
   CollectionRegistry.get_all r = [] /\
   CollectionRegistry.get_all r' = ["default"]).
Proof.
  intros r r'.
  assert (Hs : CollectionRegistry.synced r)
    by (apply run_synced, init_synced).
  split; [exact Hs|].
  pose proof (init_collections (CollectionRegistry.disk r)) as Hi.
  fold r' in Hi. rewrite Hs in Hi.
  split.
  - intros N. rewrite decide_False in Hi by exact N.
    split; [exact Hi|]. split.
    + unfold CollectionRegistry.get_all. now rewrite Hi.
    + subst r'. unfold CollectionRegistry.__init__, CollectionRegistry._load.
      cbn [CollectionRegistry.disk CollectionRegistry._collections].
      unfold CollectionRegistry.synced in Hs.
      destruct (CollectionRegistry.disk r) as [| |data] eqn:Ed;
        cbn [CollectionRegistry.listed] in Hs; try (symmetry in Hs; contradiction).
      cbn [CollectionRegistry.with_collections CollectionRegistry._collections
           CollectionRegistry.disk].
      rewrite decide_False; [reflexivity|].
      rewrite union_empty_l_L, Hs. exact N.
  - intros E. rewrite decide_True in Hi by exact E.
    split; [now apply get_all_nil|].
    unfold CollectionRegistry.get_all. rewrite Hi, elements_singleton.
    reflexivity.
Qed.

(** *** Listings of the vector store *)

Section ListingFacts.

Import VectorStore.

Lemma tally_snoc {A} (key : A -> string) k l c :
  tally key k (l ++ [c])
  = tally key k l + (if String.eqb (key c) k then 1 else 0).
Proof.
  unfold tally. rewrite List.filter_app, length_app. cbn [List.filter].
  destruct (String.eqb (key c) k); cbn [length]; lia.
Qed.

Lemma tally_cons {A} (key : A -> string) k l c :
  tally key k (c :: l)
  = (if String.eqb (key c) k then 1 else 0) + tally key k l.
Proof.
  unfold tally. cbn [List.filter].
  destruct (String.eqb (key c) k); cbn [length]; lia.
Qed.

Lemma tally_nonneg {A} (key : A -> string) k l : 0 <= tally key k l.
Proof. unfold tally. lia. Qed.

(** The statistics after the first loop of [get_collections]. *)
Lemma count_chunks_get chunks name :
  Py.get name (fold_left count_chunk chunks [])
  = match in_collection name chunks with
    | [] => None
    | _ :: _ =>
        Some (list_to_set (map document_of (in_collection name chunks)),
              tally collection_of name chunks)
    end.
Proof.
  induction chunks as [|c chunks IH] using rev_ind; [reflexivity|].
  rewrite fold_left_app. cbn [fold_left]. unfold count_chunk at 1.
  rewrite tally_snoc. unfold in_collection in *.
  rewrite List.filter_app. cbn [List.filter].
  destruct (String.eqb_spec (collection_of c) name) as [->|Hne].
  - rewrite get_set_eq, IH.
    destruct (List.filter _ chunks) as [|c0 l] eqn:E.
    + cbn [app default from_option id fst snd map list_to_set].
      unfold tally. rewrite E. reflexivity.
    + cbn [app default from_option id fst snd]. f_equal. f_equal.
      change (c0 :: l ++ [c]) with ((c0 :: l) ++ [c]).
      rewrite map_app, list_to_set_app_L.
      generalize (map document_of (c0 :: l)). intros ids.
      cbn [map list_to_set]. rewrite (right_id_L ∅ (∪)). apply (comm_L (∪)).
  - rewrite get_set_ne by exact Hne. rewrite IH, app_nil_r, Z.add_0_r.
    reflexivity.
Qed.

Lemma collection_info_stats chunks name :
  collection_info (fold_left count_chunk chunks []) name
  = collection_stats chunks name.
Proof.
  unfold collection_info, collection_stats. rewrite count_chunks_get.
  destruct (in_collection name chunks) as [|c0 l] eqn:E;
    cbn [fst snd]; [|reflexivity].
  unfold tally. fold (in_collection name chunks). rewrite E. reflexivity.
Qed.

Lemma total_app l1 l2 : total (l1 ++ l2) = total l1 + total l2.
Proof.
  unfold total. induction l1 as [|x l1 IH]; cbn [app fold_right]; lia.
Qed.

Lemma total_plus {A} (f g : A -> Z) l :
  total (map (fun x => f x + g x) l) = total (map f l) + total (map g l).
Proof.
  unfold total. induction l as [|x l IH]; cbn [map fold_right]; lia.
Qed.

(** Over distinct keys, one key at most is the key of a chunk. *)
Lemma total_indicator k names :
  List.NoDup names ->
  total (map (fun n => if String.eqb k n then 1 else 0) names)
  = if existsb (String.eqb k) names then 1 else 0.
Proof.
  unfold total. induction 1 as [|n names Hn Hnd IH]; [reflexivity|].
  cbn [map fold_right existsb]. rewrite IH.
  destruct (String.eqb_spec k n) as [->|Hne]; cbn [orb]; [|lia].
  replace (existsb (String.eqb n) names) with false; [lia|].
  symmetry. apply not_true_is_false. intros H.
  apply existsb_exists in H as (x & Hx & E).
  apply String.eqb_eq in E. subst x. contradiction.
Qed.

(** Over distinct keys the counts add up to the chunks with one of the
    keys. *)
Lemma total_tally {A} (key : A -> string) names l :
  List.NoDup names ->
  total (map (fun n => tally key n l) names)
  = Z.of_nat (length (List.filter
                        (fun c => existsb (String.eqb (key c)) names) l)).
Proof.
  intros Hnd. induction l as [|c l IH].
  - unfold tally, total. cbn [List.filter length].
    induction names as [|n names IHn]; cbn [map fold_right]; [reflexivity|].
    apply List.NoDup_cons_iff in Hnd as [_ Hnd]. rewrite (IHn Hnd). lia.
  - cbn [List.filter].
    rewrite (map_ext _ (fun n => (if String.eqb (key c) n then 1 else 0)
                                 + tally key n l))
      by (intros n; apply tally_cons).
    rewrite (total_plus (fun n => if String.eqb (key c) n then 1 else 0)
               (fun n => tally key n l)).
    rewrite IH, (total_indicator _ _ Hnd).
    destruct (existsb _ names); cbn [length]; lia.
Qed.

Lemma size_documents_le name chunks :
  Z.of_nat (size (list_to_set (map document_of (in_collection name chunks))
                  : gset string))
  <= tally collection_of name chunks.
Proof.
  unfold tally. fold (in_collection name chunks).
  generalize (in_collection name chunks). intros l.
  apply inj_le. induction l as [|c l IH]; [reflexivity|].
  cbn [map list_to_set length].
  rewrite size_union_alt, size_singleton.
  assert (size (list_to_set (map document_of l) ∖ {[document_of c]}
                : gset string)
          <= size (list_to_set (map document_of l) : gset string))%nat
    by (apply subseteq_size, subseteq_difference_l; reflexivity).
  lia.
Qed.

(** The listing names the registered collections. *)
Lemma collections_names get_all_chunks r infos :
  get_collections get_all_chunks r = Ok infos ->
  map CollectionInfo.name infos = CollectionRegistry.get_all r.
Proof.
  unfold get_collections. destruct get_all_chunks as [all|e]; [|discriminate].
  cbn [mbind result_bind]. intros [= <-]. rewrite map_map.
  rewrite <- (map_id (CollectionRegistry.get_all r)) at 2.
  apply map_ext. intros name. unfold collection_info.
  now destruct (Py.get name _).
Qed.

End ListingFacts.

(** X22. The listing of collections: one entry per registered name, in the
    order of the registry (ascending, each name once), with the number of
    chunks of the collection and of the distinct documents among them, both
    zero for a registered collection without chunks; a collection that
    holds chunks but is not registered is not listed, so the chunk counts
    add up to the chunks of registered collections only. A failure to read
    the chunks is raised. *)
Theorem collections_listing (get_all_chunks : result (list Doc.t))
    (r : CollectionRegistry.registry) :
  match get_all_chunks with
  | Raise e => VectorStore.get_collections get_all_chunks r = Raise e
  | Ok all_chunks =>
      exists infos,
        VectorStore.get_collections get_all_chunks r = Ok infos /\
        infos = map (VectorStore.collection_stats all_chunks)
                  (CollectionRegistry.get_all r) /\
        map CollectionInfo.name infos = CollectionRegistry.get_all r /\
        Forall (fun i =>
                  0 <= CollectionInfo.document_count i
                    <= CollectionInfo.chunk_count i /\
                  (VectorStore.in_collection (CollectionInfo.name i) all_chunks
                     = [] ->
                   CollectionInfo.document_count i = 0 /\
                   CollectionInfo.chunk_count i = 0)) infos /\
        (forall c, In c all_chunks ->
           VectorStore.collection_of c ∉ CollectionRegistry._collections r ->
           forall i, In i infos ->
             CollectionInfo.name i <> VectorStore.collection_of c) /\
        VectorStore.total (map CollectionInfo.chunk_count infos)
        = Z.of_nat (length (List.filter
                              (VectorStore.registered
                                 (CollectionRegistry.get_all r)) all_chunks)) /\
        VectorStore.total (map CollectionInfo.chunk_count infos)
        <= Z.of_nat (length all_chunks)
  end.
Proof.
  destruct get_all_chunks as [all_chunks|e]; [|reflexivity].
  assert (Hinfos :
    map (VectorStore.collection_info
           (fold_left VectorStore.count_chunk all_chunks []))
      (CollectionRegistry.get_all r)
    = map (VectorStore.collection_stats all_chunks)
        (CollectionRegistry.get_all r)).
  { apply map_ext. intros name. apply collection_info_stats. }
  eexists. split; [reflexivity|]. cbv zeta. rewrite Hinfos.
  split; [reflexivity|].
  assert (Hnames :
    map CollectionInfo.name
      (map (VectorStore.collection_stats all_chunks)
         (CollectionRegistry.get_all r))
    = CollectionRegistry.get_all r).
  { rewrite map_map. cbn [VectorStore.collection_stats CollectionInfo.name].
    apply map_id. }
  split; [exact Hnames|].
  assert (Htotal :
    VectorStore.total
      (map CollectionInfo.chunk_count
         (map (VectorStore.collection_stats all_chunks)
            (CollectionRegistry.get_all r)))
    = Z.of_nat (length (List.filter
                          (VectorStore.registered
                             (CollectionRegistry.get_all r)) all_chunks))).
  { rewrite map_map.
    cbn [VectorStore.collection_stats CollectionInfo.chunk_count].
    apply total_tally, get_all_NoDup. }
  split; [|split; [|split; [exact Htotal|]]].
  - apply Forall_forall. intros i Hi. apply list_elem_of_In in Hi.
    apply in_map_iff in Hi as (name & <- & _).
    cbn [VectorStore.collection_stats CollectionInfo.name
         CollectionInfo.document_count CollectionInfo.chunk_count].
    split; [split; [lia | apply size_documents_le]|].
    intros E. unfold VectorStore.tally.
    fold (VectorStore.in_collection name all_chunks). now rewrite E.
  - intros c Hc Hnot i Hi Hname.
    apply (in_map CollectionInfo.name) in Hi. rewrite Hnames in Hi.
    apply get_all_elem in Hi. now rewrite Hname in Hi.
  - rewrite Htotal. apply inj_le, List.filter_length_le.
Qed.

Section DocumentsFacts.

Import VectorStore.

Variable collection_name : option string.

Lemma counted_snoc l c :
  counted collection_name (l ++ [c])
  = counted collection_name l
    ++ (if skipped collection_name c then [] else [c]).
Proof.
  unfold counted. rewrite List.filter_app. cbn [List.filter].
  now destruct (skipped collection_name c).
Qed.

Lemma of_document_snoc id l c :
  of_document id (l ++ [c])
  = of_document id l ++ (if String.eqb (document_of c) id then [c] else []).
Proof.
  unfold of_document. rewrite List.filter_app. cbn [List.filter].
  now destruct (String.eqb (document_of c) id).
Qed.

Lemma of_document_nil id l :
  of_document id l = [] <-> ~ In id (map document_of l).
Proof.
  unfold of_document. induction l as [|c l IH]; cbn [List.filter map In];
    [tauto|].
  destruct (String.eqb_spec (document_of c) id) as [E|N].
  - split; [discriminate | tauto].
  - rewrite IH. tauto.
Qed.

(** The dict [seen] after the loop of [get_documents]. *)
Lemma see_chunks_inv chunks :
  map fst (fold_left (see_chunk collection_name) chunks [])
  = HybridSearch.first_seen
      (map document_of (counted collection_name chunks)) /\
  forall id,
    Py.get id (fold_left (see_chunk collection_name) chunks [])
    = document_info (counted collection_name chunks) id.
Proof.
  induction chunks as [|c chunks [IHk IHg]] using rev_ind.
  { split; [reflexivity | intros id; reflexivity]. }
  rewrite fold_left_app, counted_snoc. cbn [fold_left].
  set (seen := fold_left (see_chunk collection_name) chunks []) in *.
  set (kept := counted collection_name chunks) in *.
  unfold see_chunk.
  destruct (skipped collection_name c); [now rewrite app_nil_r|].
  split.
  - rewrite keys_set, IHg, map_app. cbn [map].
    rewrite first_seen_snoc, IHk. unfold document_info.
    destruct (of_document (document_of c) kept) as [|c0 l] eqn:E.
    + apply of_document_nil in E. now destruct (in_dec _ _ _).
    + destruct (in_dec string_dec (document_of c) (map document_of kept))
        as [_|N]; [reflexivity|].
      apply of_document_nil in N. congruence.
  - intros id. unfold document_info.
    rewrite of_document_snoc, tally_snoc.
    destruct (String.eqb_spec (document_of c) id) as [<-|Hne].
    + rewrite get_set_eq, IHg. unfold document_info.
      destruct (of_document (document_of c) kept) as [|c0 l] eqn:E.
      * cbn [app default from_option id]. unfold tally.
        fold (of_document (document_of c) kept). rewrite E. reflexivity.
      * cbn [app default from_option id]. reflexivity.
    + rewrite get_set_ne by exact Hne. rewrite IHg, app_nil_r, Z.add_0_r.
      reflexivity.
Qed.

(** The values of a dict, by its keys. *)
Lemma values_by_keys {V} (d : list (string * V)) :
  List.NoDup (map fst d) ->
  map Some (map snd d) = map (fun k => Py.get k d) (map fst d).
Proof.
  induction d as [|[k v] d IH]; [reflexivity|]. cbn [map fst snd].
  intros Hnd. apply List.NoDup_cons_iff in Hnd as [Hk Hnd].
  cbn [Py.get]. rewrite String.eqb_refl. f_equal.
  rewrite (IH Hnd). apply map_ext_in. intros k' Hk'.
  destruct (String.eqb_spec k k') as [->|_]; [contradiction | reflexivity].
Qed.

Lemma document_info_Some chunks id d :
  document_info chunks id = Some d ->
  exists c, In c chunks /\ document_of c = id /\
    d = with_chunk_count (tally document_of id chunks) (new_document c) /\
    1 <= tally document_of id chunks.
Proof.
  unfold document_info.
  destruct (of_document id chunks) as [|c l] eqn:E; [discriminate|].
  intros [= <-].
  assert (Hc : In c (of_document id chunks)) by (rewrite E; now left).
  unfold of_document in Hc. apply filter_In in Hc as [Hc Hid].
  apply String.eqb_eq in Hid.
  exists c. repeat split; auto.
  unfold tally. fold (of_document id chunks). rewrite E. cbn [length]. lia.
Qed.

End DocumentsFacts.

(** X23. The listing of documents: among the chunks that pass the filter
    (all of them when no collection or an empty name is given), one entry
    per document id, in the order in which the ids first occur; the entry
    takes its file name and collection from the first chunk of the document
    and counts all its chunks, so every count is at least one and the
    counts add up to the number of chunks; under a filter every entry is in
    the requested collection. A failure to read the chunks is raised. *)
Theorem documents_listing (get_all_chunks : result (list Doc.t))
    (collection_name : option string) :
  match get_all_chunks with
  | Raise e => VectorStore.get_documents get_all_chunks collection_name = Raise e
  | Ok all_chunks =>
      let kept := VectorStore.counted collection_name all_chunks in
      exists docs,
        VectorStore.get_documents get_all_chunks collection_name = Ok docs /\
        map DocumentInfo.document_id docs
          = HybridSearch.first_seen (map VectorStore.document_of kept) /\
        List.NoDup (map DocumentInfo.document_id docs) /\
        Forall (fun d =>
                  exists c, In c kept /\
                    List.find (fun c' => String.eqb (VectorStore.document_of c')
                                           (DocumentInfo.document_id d)) kept
                      = Some c /\
                    d = VectorStore.with_chunk_count
                          (VectorStore.tally VectorStore.document_of
                             (DocumentInfo.document_id d) kept)
                          (VectorStore.new_document c) /\
                    1 <= DocumentInfo.chunk_count d) docs /\
        VectorStore.total (map DocumentInfo.chunk_count docs)
          = Z.of_nat (length kept) /\
        (forall name, collection_name = Some name -> name <> "" ->
           Forall (fun d => DocumentInfo.collection_name d = name) docs) /\
        (collection_name = None \/ collection_name = Some "" ->
           kept = all_chunks)
  end.
Proof.
  destruct get_all_chunks as [all_chunks|e]; [|reflexivity].
  intros kept.
  destruct (see_chunks_inv collection_name all_chunks) as [Hk Hg].
  fold kept in Hk, Hg.
  set (seen := fold_left (VectorStore.see_chunk collection_name) all_chunks [])
    in *.
  exists (map snd seen). split; [reflexivity|].
  assert (Hnd : List.NoDup (map fst seen)).
  { rewrite Hk. apply NoDup_ListNoDup, first_seen_NoDup. }
  pose proof (values_by_keys seen Hnd) as Hv.
  assert (Hall : Forall (fun kv : string * DocumentInfo.t =>
                   VectorStore.document_info kept (fst kv) = Some (snd kv))
                   seen).
  { apply Forall_forall. intros [k v] Hkv. cbn [fst snd].
    rewrite <- Hg. apply list_elem_of_In in Hkv.
    clear -Hkv Hnd. induction seen as [|[k0 v0] d IH]; [destruct Hkv|].
    cbn [map fst] in Hnd. apply List.NoDup_cons_iff in Hnd as [Hk0 Hnd].
    cbn [Py.get]. destruct Hkv as [[= -> ->]|Hkv].
    - now rewrite String.eqb_refl.
    - destruct (String.eqb_spec k0 k) as [->|_]; [|now apply IH].
      exfalso. apply Hk0. apply (in_map fst) in Hkv. exact Hkv. }
  assert (Hids : map DocumentInfo.document_id (map snd seen) = map fst seen).
  { rewrite map_map. apply map_ext_in. intros [k v] Hkv. cbn [fst snd].
    rewrite Forall_forall in Hall.
    assert (H := Hall (k, v) (proj2 (list_elem_of_In _ _) Hkv)).
    cbn [fst snd] in H.
    apply document_info_Some in H as (c & _ & Hc & -> & _).
    exact Hc. }
  split; [now rewrite Hids|]. split; [now rewrite Hids|].
  assert (Hdocs : Forall (fun d =>
            exists c, In c kept /\
              List.find (fun c' => String.eqb (VectorStore.document_of c')
                                     (DocumentInfo.document_id d)) kept
                = Some c /\
              d = VectorStore.with_chunk_count
                    (VectorStore.tally VectorStore.document_of
                       (DocumentInfo.document_id d) kept)
                    (VectorStore.new_document c) /\
              1 <= DocumentInfo.chunk_count d) (map snd seen)).
  { apply Forall_forall. intros d Hd. apply list_elem_of_In in Hd.
    apply in_map_iff in Hd as ([k v] & <- & Hkv). cbn [snd].
    rewrite Forall_forall in Hall.
    assert (H := Hall (k, v) (proj2 (list_elem_of_In _ _) Hkv)).
    cbn [fst snd] in H. unfold VectorStore.document_info in H.
    destruct (VectorStore.of_document k kept) as [|c l] eqn:E;
      [discriminate|].
    injection H as <-.
    assert (Hc : In c (VectorStore.of_document k kept))
      by (rewrite E; now left).
    unfold VectorStore.of_document in Hc, E.
    apply filter_In in Hc as [Hc Hid]. apply String.eqb_eq in Hid.
    cbn [VectorStore.with_chunk_count VectorStore.new_document
         DocumentInfo.document_id DocumentInfo.chunk_count].
    rewrite Hid. exists c. split; [exact Hc|]. split; [|split].
    - clear -E. induction kept as [|c1 kept' IH]; [discriminate|].
      cbn [List.filter List.find] in *.
      destruct (String.eqb (VectorStore.document_of c1) k);
        [now injection E as -> _ | now apply IH].
    - unfold VectorStore.with_chunk_count, VectorStore.new_document.
      cbn. now rewrite Hid.
    - unfold VectorStore.tally. rewrite E. cbn [length]. lia. }
  split; [exact Hdocs|]. split; [|split].
  - assert (Hcc : map DocumentInfo.chunk_count (map snd seen)
                  = map (fun id => VectorStore.tally VectorStore.document_of
                                     id kept) (map fst seen)).
    { rewrite <- Hids, !map_map. apply map_ext_in. intros kv Hkv.
      rewrite Forall_forall in Hdocs.
      destruct (Hdocs (snd kv)) as (c & _ & _ & Hd & _).
      { apply list_elem_of_In, in_map, Hkv. }
      rewrite Hd at 1. reflexivity. }
    rewrite Hcc, total_tally by exact Hnd. f_equal. f_equal.
    apply forallb_filter_id, forallb_forall. intros c Hc.
    apply existsb_exists. exists (VectorStore.document_of c).
    split; [|apply String.eqb_refl].
    rewrite Hk. apply first_seen_In, in_map, Hc.
  - intros name -> Hname. eapply Forall_impl; [exact Hdocs|].
    intros d (c & Hc & _ & -> & _). cbv beta.
    cbn [VectorStore.with_chunk_count VectorStore.new_document
         DocumentInfo.collection_name].
    unfold kept, VectorStore.counted in Hc. apply filter_In in Hc as [_ Hc].
    unfold VectorStore.skipped in Hc.
    destruct (PyStr.is_empty name) eqn:En;
      [now apply is_empty_true in En|].
    cbn [negb andb] in Hc. apply negb_true_iff, negb_false_iff in Hc.
    now apply String.eqb_eq in Hc.
  - intros [-> | ->]; unfold kept, VectorStore.counted;
      apply forallb_filter_id, forallb_forall; intros c _; reflexivity.
Qed.

(** *** Endpoints that delete *)

Section ApiFacts.

Import Api.

Variable words : string -> list string.
Variable exn_str : exn -> string.

Lemma remove_collections name r :
  CollectionRegistry._collections (CollectionRegistry.remove name r)
  = CollectionRegistry._collections r ∖ {[name]}.
Proof.
  unfold CollectionRegistry.remove.
  destruct (decide (name ∈ CollectionRegistry._collections r)) as [Hin|Hnot];
    [reflexivity|].
  symmetry. now apply difference_disjoint_L, disjoint_singleton_r.
Qed.

Lemma delete_collection_run vdc gac name s :
  delete_collection words exn_str vdc gac name s
  = let r' := CollectionRegistry.remove name (collection_registry s) in
    match vdc name with
    | Raise e =>
        (HTTPException 500 (exn_str e),
         {| collection_registry := r'; bm25_store := bm25_store s |})
    | Ok _ =>
        match gac with
        | Raise e =>
            (HTTPException 500 (exn_str e),
             {| collection_registry := r'; bm25_store := bm25_store s |})
        | Ok all_chunks =>
            let rebuilt :=
              BM25Store.rebuild_from_store words all_chunks (bm25_store s) in
            (match fst rebuilt with
             | Ok _ =>
                 Body ("Colecci" +:+ String "243"%char "n '" +:+ name
                       +:+ "' eliminada correctamente.")
             | Raise e => HTTPException 500 (exn_str e)
             end,
             {| collection_registry := r'; bm25_store := snd rebuilt |})
        end
    end.
Proof.
  unfold delete_collection, or_http_error, on_registry, on_bm25_store,
    mbind, Eff_bind, lift, mret, Eff_ret.
  cbn [collection_registry bm25_store].
  destruct (vdc name) as [[]|e]; [|reflexivity].
  destruct gac as [all_chunks|e]; [|reflexivity].
  cbv zeta.
  now destruct (BM25Store.rebuild_from_store words all_chunks (bm25_store s))
    as [[[]|e] w'].
Qed.

Lemma delete_document_endpoint_run vdd document_id s :
  delete_document words exn_str vdd document_id s
  = match vdd document_id with
    | Raise e => (HTTPException 404 (exn_str e), s)
    | Ok _ =>
        let deleted :=
          BM25Store.delete_document words document_id (bm25_store s) in
        (match fst deleted with
         | Ok _ =>
             Body ("Documento " +:+ PyStr.slice_to document_id 8
                   +:+ " eliminado correctamente.")
         | Raise e => HTTPException 404 (exn_str e)
         end,
         {| collection_registry := collection_registry s;
            bm25_store := snd deleted |})
    end.
Proof.
  unfold delete_document, or_http_error, on_bm25_store,
    mbind, Eff_bind, lift, mret, Eff_ret.
  destruct (vdd document_id) as [[]|e]; [|now destruct s].
  cbv zeta.
  now destruct (BM25Store.delete_document words document_id (bm25_store s))
    as [[[]|e] w'].
Qed.

End ApiFacts.

(** X24. Deleting a collection through the endpoint: the name, as given,
    leaves the registry first, and stays out even when the request then
    fails, so a listing by this process does not show it. When the vector
    store fails to delete or to list its chunks the request ends in an error
    500 with the text of the exception and the lexical index is left as it
    was. Otherwise the lexical index holds exactly the chunks the vector
    store lists; if the list is not empty and none of its texts has a token,
    the rebuild raises [ZeroDivisionError], the request ends in an error 500
    with its text and the index file is left as it was; in every other case
    the response is the message and the index is saved. *)
Theorem delete_collection_effects (words : string -> list string)
    (exn_str : exn -> string)
    (vector_store_delete_collection : string -> result unit)
    (vector_store_get_all_chunks : result (list Doc.t))
    (name : string) (s : Api.services) :
  let out := Api.delete_collection words exn_str
               vector_store_delete_collection vector_store_get_all_chunks
               name s in
  let r' := Api.collection_registry (snd out) in
  CollectionRegistry._collections r'
    = CollectionRegistry._collections (Api.collection_registry s) ∖ {[name]} /\
  ~ In name (CollectionRegistry.get_all r') /\
  (forall later_chunks,
     Forall (fun i => CollectionInfo.name i <> name)
       (Api.list_collections later_chunks (snd out))) /\
  match vector_store_delete_collection name, vector_store_get_all_chunks with
  | Ok _, Ok all_chunks =>
      BM25Store.rows (BM25Store.index (Api.bm25_store (snd out)))
        = map BM25Store.doc_row all_chunks /\
      if negb (Py.is_nil all_chunks)
         && forallb Py.is_nil
              (map (BM25Store._tokenize words) (map Doc.text all_chunks))
      then
        fst out = Api.HTTPException 500 (exn_str ZeroDivisionError) /\
        BM25Store.disk (Api.bm25_store (snd out))
          = BM25Store.disk (Api.bm25_store s)
      else
        fst out = Api.Body ("Colecci" +:+ String "243"%char "n '" +:+ name
                            +:+ "' eliminada correctamente.") /\
        BM25Store.disk (Api.bm25_store (snd out))
          = BM25Store.pickle (BM25Store.index (Api.bm25_store (snd out)))
  | Raise e, _ | Ok _, Raise e =>
      fst out = Api.HTTPException 500 (exn_str e) /\
      Api.bm25_store (snd out) = Api.bm25_store s
  end.
Proof.
  intros out r'.
  assert (Hr : r' = CollectionRegistry.remove name (Api.collection_registry s)).
  { subst r' out. rewrite delete_collection_run. cbv zeta.
    destruct (vector_store_delete_collection name) as [[]|e]; [|reflexivity].
    now destruct vector_store_get_all_chunks. }
  assert (Hc : CollectionRegistry._collections r'
               = CollectionRegistry._collections (Api.collection_registry s)
                   ∖ {[name]})
    by (rewrite Hr; apply remove_collections).
  assert (Hn : ~ In name (CollectionRegistry.get_all r')).
  { rewrite get_all_elem, Hc, elem_of_difference, elem_of_singleton. tauto. }
  split; [exact Hc|]. split; [exact Hn|]. split.
  - intros later. unfold Api.list_collections. fold r'.
    pose proof (collections_names later r') as Hnames.
    destruct (VectorStore.get_collections later r') as [raw|e];
      [|constructor].
    apply Forall_forall. intros i Hi Hname. apply list_elem_of_In in Hi.
    apply Hn. rewrite <- Hname, <- (Hnames raw eq_refl).
    now apply in_map.
  - subst out. rewrite delete_collection_run. cbv zeta.
    destruct (vector_store_delete_collection name) as [[]|e];
      [|split; reflexivity].
    destruct vector_store_get_all_chunks as [all_chunks|e];
      [|split; reflexivity].
    cbn [fst snd Api.bm25_store]. split; [apply rebuild_from_store_rows|].
    rewrite rebuild_from_store_run. cbv zeta.
    replace (negb (Py.is_nil all_chunks)
             && forallb Py.is_nil
                  (map (BM25Store._tokenize words) (map Doc.text all_chunks)))
      with (BM25Store.tokenless words
              {| BM25Store._chunk_ids := map Doc.id all_chunks;
                 BM25Store._chunk_texts := map Doc.text all_chunks;
                 BM25Store._chunk_metadatas := map Doc.metadata all_chunks;
                 BM25Store._bm25 :=
                   BM25Store._bm25 (BM25Store.index (Api.bm25_store s)) |})
      by (now destruct all_chunks).
    destruct (BM25Store.tokenless _ _); split; reflexivity.
Qed.

(** X25. Deleting a document through the endpoint, on an aligned lexical
    index: when the vector store fails, the request ends in an error 404
    with the text of the exception, whatever the failure, and nothing has
    changed. Otherwise the registry is untouched and the lexical index keeps
    exactly the entries of the other documents, in their order, and is
    aligned; when the index held no entry of the document, the response is
    the message and nothing has changed; when the entries that remain have
    texts and none has a token, the rebuild raises [ZeroDivisionError], the
    request ends in an error 404 with its text and the index file is left
    as it was; in every other case the response is the message and the
    index is saved. *)
Theorem delete_document_endpoint (words : string -> list string)
    (exn_str : exn -> string)
    (vector_store_delete_document : string -> result unit)
    (document_id : string) (s : Api.services) :
  BM25Store.aligned (BM25Store.index (Api.bm25_store s)) ->
  let out := Api.delete_document words exn_str vector_store_delete_document
               document_id s in
  let message := "Documento " +:+ PyStr.slice_to document_id 8
                 +:+ " eliminado correctamente." in
  let rs := BM25Store.kept document_id
              (BM25Store.rows (BM25Store.index (Api.bm25_store s))) in
  match vector_store_delete_document document_id with
  | Raise e => out = (Api.HTTPException 404 (exn_str e), s)
  | Ok _ =>
      Api.collection_registry (snd out) = Api.collection_registry s /\
      BM25Store.rows (BM25Store.index (Api.bm25_store (snd out))) = rs /\
      BM25Store.aligned (BM25Store.index (Api.bm25_store (snd out))) /\
      if forallb (BM25Store.other_document document_id)
           (BM25Store._chunk_metadatas (BM25Store.index (Api.bm25_store s)))
      then out = (Api.Body message, s)
      else if BM25Store.tokenless words (BM25Store.store_with rs None)
      then
        fst out = Api.HTTPException 404 (exn_str ZeroDivisionError) /\
        BM25Store.disk (Api.bm25_store (snd out))
          = BM25Store.disk (Api.bm25_store s)
      else
        fst out = Api.Body message /\
        BM25Store.disk (Api.bm25_store (snd out))
          = BM25Store.pickle (BM25Store.index (Api.bm25_store (snd out)))
  end.
Proof.
  intros Ha out message rs. subst out message rs.
  rewrite (delete_document_endpoint_run words exn_str).
  destruct (vector_store_delete_document document_id) as [[]|e];
    [|reflexivity].
  cbv zeta. cbn [fst snd Api.bm25_store Api.collection_registry].
  split; [reflexivity|].
  destruct (delete_document_index words document_id _ Ha) as [Hrows Ha'].
  split; [exact Hrows|]. split; [exact Ha'|].
  rewrite (delete_document_run words document_id _ Ha).
  destruct (forallb _ _) eqn:E; [now destruct s|].
  cbv zeta.
  change (BM25Store.tokenless words
            (BM25Store.store_with
               (BM25Store.kept document_id
                  (BM25Store.rows (BM25Store.index (Api.bm25_store s))))
               (BM25Store._bm25 (BM25Store.index (Api.bm25_store s)))))
    with (BM25Store.tokenless words
            (BM25Store.store_with
               (BM25Store.kept document_id
                  (BM25Store.rows (BM25Store.index (Api.bm25_store s))))
               None)).
  destruct (BM25Store.tokenless _ _); split; reflexivity.
Qed.

Lemma delete_document_endpoint_witness :
  fst (Api.delete_document BM25Store.sample_words (fun _ => "")
         (fun _ => Ok ()) "D1"
         {| Api.collection_registry :=
              CollectionRegistry.__init__ CollectionRegistry.Absent;
            Api.bm25_store := BM25Store.sample_world |})
  = Api.Body "Documento D1 eliminado correctamente." /\
  fst (Api.delete_document BM25Store.sample_words (fun _ => "division by zero")
         (fun _ => Ok ()) "D1"
         {| Api.collection_registry :=
              CollectionRegistry.__init__ CollectionRegistry.Absent;
            Api.bm25_store := BM25Store.stop_word_world |})
  = Api.HTTPException 404 "division by zero".
Proof.
  pose proof (delete_document_endpoint BM25Store.sample_words (fun _ => "")
                (fun _ => Ok ()) "D1"
                {| Api.collection_registry :=
                     CollectionRegistry.__init__ CollectionRegistry.Absent;
                   Api.bm25_store := BM25Store.sample_world |}
                (conj eq_refl eq_refl)) as (_ & _ & _ & H1).
  pose proof (delete_document_endpoint BM25Store.sample_words
                (fun _ => "division by zero")
                (fun _ => Ok ()) "D1"
                {| Api.collection_registry :=
                     CollectionRegistry.__init__ CollectionRegistry.Absent;
                   Api.bm25_store := BM25Store.stop_word_world |}
                (conj eq_refl eq_refl)) as (_ & _ & _ & H2).
  split; [exact (proj1 H1) | exact (proj1 H2)].
Defined.

(** *** Semantic search *)

Section SemanticFacts.

Import VectorStore.

Lemma item_Ok {A} (l : list A) i x : Py.item l i = Ok x -> nth_error l i = Some x.
Proof. unfold Py.item. destruct (nth_error l i); [intros [= ->]; reflexivity | discriminate]. Qed.

Lemma hit_Ok res ids0 i doc_id h :
  nth_error (ids res) 0 = Some ids0 -> nth_error ids0 i = Some doc_id ->
  hit res i doc_id = Ok h -> Doc.id h = doc_id /\ record_of res i h.
Proof.
  intros Hids Hid. unfold hit.
  destruct (Py.item (distances res) 0) as [ds|] eqn:E1; [|discriminate].
  cbn [mbind result_bind].
  destruct (Py.item ds i) as [d|] eqn:E2; [|discriminate].
  cbn [mbind result_bind].
  destruct (Py.item (documents res) 0) as [texts|] eqn:E3; [|discriminate].
  cbn [mbind result_bind].
  destruct (Py.item texts i) as [text|] eqn:E4; [|discriminate].
  cbn [mbind result_bind].
  destruct (Py.item (metadatas res) 0) as [metas|] eqn:E5; [|discriminate].
  cbn [mbind result_bind].
  destruct (Py.item metas i) as [meta|] eqn:E6; [|discriminate].
  cbn [mbind result_bind]. intros [= <-]. split; [reflexivity|].
  apply item_Ok in E1, E2, E3, E4, E5, E6.
  exists ids0, ds, texts, metas, d. cbn. repeat split; assumption.
Qed.

Lemma hits_of_shape res ids0 todo : forall start hits,
  nth_error (ids res) 0 = Some ids0 ->
  (forall j x, nth_error todo j = Some x ->
     nth_error ids0 (start + j) = Some x) ->
  hits_of res (Py.indexed start todo) = Ok hits ->
  map Doc.id hits = todo /\
  forall (j : nat) h, hits !! j = Some h -> record_of res (start + j) h.
Proof.
  induction todo as [|x todo IH]; intros start hits Hids Hsub.
  - intros [= <-]. split; [reflexivity | intros j h H; discriminate].
  - cbn [Py.indexed hits_of].
    destruct (hit res start x) as [h0|] eqn:Eh; [|discriminate].
    cbn [mbind result_bind].
    destruct (hits_of res (Py.indexed (S start) todo)) as [hs|] eqn:Ehs;
      [|discriminate].
    cbn [mbind result_bind]. intros [= <-].
    destruct (hit_Ok res ids0 start x h0 Hids) as [Hid Hrec];
      [rewrite <- (Nat.add_0_r start); now apply Hsub | exact Eh |].
    destruct (IH (S start) hs Hids) as [Hmap Hall]; [|exact Ehs|].
    { intros j y Hj. replace (S start + j)%nat with (start + S j)%nat by lia.
      now apply Hsub. }
    split; [cbn [map]; now rewrite Hid, Hmap|].
    intros [|j] h Hj; cbn in Hj.
    + injection Hj as <-. now rewrite Nat.add_0_r.
    + replace (start + S j)%nat with (S start + j)%nat by lia. now apply Hall.
Qed.

Lemma ascending_lookup (ds : list Q) (i j : nat) a b :
  ascending ds -> (i < j)%nat ->
  nth_error ds i = Some a -> nth_error ds j = Some b -> (a <= b)%Q.
Proof.
  unfold ascending. intros Hs. revert i j.
  induction Hs as [|x ds Hs IH Hx]; intros i j Hij Hi Hj;
    [now destruct i|].
  destruct j as [|j]; [lia|]. cbn in Hj.
  destruct i as [|i]; cbn in Hi.
  - injection Hi as <-. rewrite Forall_forall in Hx. apply Hx.
    apply list_elem_of_In. eapply nth_error_In, Hj.
  - apply (IH i j); auto. lia.
Qed.

End SemanticFacts.

(** X26. The hits of a semantic search that returns: the store was asked
    for [min(top_k, max(1, count))] records, without filter when no
    collection or an empty name is given; the hits are the records of the
    first list of the answer, one per id and in its order, each with its
    text and metadata and the score [1 - distance / 2]; so they are in
    descending order of score when the distances are ascending, and the
    scores are within [0, 1] when the distances are within [0, 2]. *)
Theorem semantic_search_hits
    (embed_single : string -> result (list Q)) (collection_count : result Z)
    (collection_query :
       list (list Q) -> Z -> option string -> result VectorStore.QueryResult)
    (query : string) (collection_name : option string) (top_k : Z)
    (hits : list Doc.t) :
  VectorStore.search embed_single collection_count collection_query
    query collection_name top_k = Ok hits ->
  exists qv count res,
    embed_single query = Ok qv /\ collection_count = Ok count /\
    collection_query [qv] (Z.min top_k (Z.max 1 count))
      (VectorStore.where_filter collection_name) = Ok res /\
    (collection_name = None \/ collection_name = Some "" ->
     VectorStore.where_filter collection_name = None) /\
    (VectorStore.ids res = [] -> hits = []) /\
    (forall ids0, nth_error (VectorStore.ids res) 0 = Some ids0 ->
       map Doc.id hits = ids0) /\
    (forall (i : nat) h, hits !! i = Some h -> VectorStore.record_of res i h) /\
    (forall ds, nth_error (VectorStore.distances res) 0 = Some ds ->
       VectorStore.ascending ds ->
       Py.descending (fun h => default 0%Q (Doc.score h)) hits) /\
    (forall ds, nth_error (VectorStore.distances res) 0 = Some ds ->
       Forall (fun d => (0 <= d)%Q /\ (d <= 2)%Q) ds ->
       Forall (fun h => exists q, Doc.score h = Some q /\
                                  (0 <= q)%Q /\ (q <= 1)%Q) hits).
Proof.
  unfold VectorStore.search.
  destruct (embed_single query) as [qv|] eqn:Eq; [|discriminate].
  cbn [mbind result_bind].
  destruct collection_count as [count|]; [|discriminate].
  cbn [mbind result_bind].
  destruct (collection_query _ _ _) as [res|] eqn:Er; [|discriminate].
  cbn [mbind result_bind]. intros Hhits.
  exists qv, count, res. split; [reflexivity|]. split; [reflexivity|].
  split; [exact Er|].
  split; [intros [-> | ->]; reflexivity|].
  destruct (VectorStore.ids res) as [|ids0 rest] eqn:Ei.
  { cbn [Py.is_nil] in Hhits. injection Hhits as <-.
    split; [reflexivity|]. split; [intros ids0 H; discriminate|].
    split; [intros i h H; discriminate|].
    split; [intros; constructor | intros; constructor]. }
  cbn [Py.is_nil] in Hhits. unfold Py.item at 1 in Hhits.
  cbn [nth_error mbind result_bind] in Hhits.
  destruct (hits_of_shape res ids0 ids0 0 hits) as [Hmap Hrec];
    [now rewrite Ei | auto | exact Hhits |].
  split; [discriminate|]. split; [now intros ids0' [= <-]|].
  split; [exact Hrec|]. split.
  - intros ds Hds Hasc. apply descending_lookup.
    intros i j x y Hij Hi Hj.
    destruct (Hrec i x Hi)
      as (_ & ds1 & _ & _ & d1 & _ & _ & Hd1 & Hn1 & -> & _).
    destruct (Hrec j y Hj)
      as (_ & ds2 & _ & _ & d2 & _ & _ & Hd2 & Hn2 & -> & _).
    cbn [default from_option id].
    rewrite Hds in Hd1, Hd2. injection Hd1 as <-. injection Hd2 as <-.
    pose proof (ascending_lookup ds i j d1 d2 Hasc Hij Hn1 Hn2) as Hle.
    unfold Qminus. apply Qplus_le_compat; [apply Qle_refl|].
    apply Qopp_le_compat. unfold Qdiv. apply Qmult_le_compat_r; [exact Hle|].
    discriminate.
  - intros ds Hds Hall. apply Forall_forall. intros h Hh.
    apply list_elem_of_lookup_1 in Hh as [i Hi].
    destruct (Hrec i h Hi)
      as (_ & ds1 & _ & _ & d & _ & _ & Hd1 & Hn & Hs & _).
    rewrite Hds in Hd1. injection Hd1 as <-.
    rewrite Forall_forall in Hall.
    destruct (Hall d) as [H0 H2];
      [apply list_elem_of_In; eapply nth_error_In, Hn|].
    exists (1 - d / 2)%Q. split; [exact Hs|].
    unfold Qle, Qminus, Qdiv in *. destruct d as [n m]. cbn in *. split; nia.
Qed.

Lemma semantic_search_hits_witness :
  exists hits,
    VectorStore.search (fun _ => Ok [1%Q]) (Ok 2)
      (fun _ _ _ => Ok VectorStore.sample_result) "q" None 5 = Ok hits /\
    map Doc.id hits = ["c1"; "c2"].
Proof.
  eexists. split; [reflexivity|].
  destruct (semantic_search_hits (fun _ => Ok [1%Q]) (Ok 2)
              (fun _ _ _ => Ok VectorStore.sample_result) "q" None 5
              _ eq_refl)
    as (qv & count & res & _ & _ & Hres & _ & _ & Hids & _).
  injection Hres as <-. now apply Hids.
Defined.

(** *** From an ingested chunk to its citation *)

Section CitationFacts.

Import IngestionService.

(** [str] of an [int] is neither empty nor the label "unknown". *)
Lemma str_of_int_label n : str_of_int n <> "" /\ str_of_int n <> "unknown".
Proof.
  unfold str_of_int.
  destruct n as [|p|p]; cbn [Z.to_int NilZero.string_of_int].
  - split; discriminate.
  - pose proof (Unsigned.to_uint_nonnil p) as Hn.
    unfold NilZero.string_of_uint.
    destruct (Pos.to_uint p); try contradiction; cbn; split; discriminate.
  - split; discriminate.
Qed.

Lemma page_label_cases pn :
  (page_label pn = "unknown" /\ (pn = None \/ pn = Some 0)) \/
  (exists p, pn = Some p /\ p <> 0 /\ page_label pn = str_of_int p).
Proof.
  destruct pn as [p|]; [|left; auto]. cbn [page_label].
  destruct (Z.eqb_spec p 0) as [->|Hp]; [left; auto | right; eauto].
Qed.

End CitationFacts.

(** X27. From ingestion to citation: for a chunk that [_chunk_pages]
    returned, stored and retrieved with its text and metadata, the citation
    names the document id and file name given at ingestion; its page is the
    page of the chunk when [int] reads back what [str] wrote, and absent for
    a chunk without page or of page 0; its excerpt is the text of the chunk
    when that has at most 400 characters, and its first 400 characters
    followed by "..." otherwise. *)
Theorem citation_of_ingested_chunk (uuid4 : nat -> string)
    (py_int : string -> option Z) (round4 : Q -> Q)
    (fuel drawn : nat) (pages : list IngestionService.page)
    (document_id filename collection_name : string)
    (chunks : list Chunk.t) (c : Chunk.t) (d : Doc.t) :
  IngestionService._chunk_pages uuid4 fuel drawn pages
    document_id filename collection_name = Some chunks ->
  In c chunks ->
  Doc.text d = Chunk.text c -> Doc.metadata d = Chunk.metadata c ->
  (forall p, Chunk.page_number c = Some p -> p <> 0 ->
     py_int (IngestionService.str_of_int p) = Some p) ->
  let citation := Generator.citation_of py_int round4 d in
  Generator.document_id citation = document_id /\
  Generator.filename citation = filename /\
  Generator.page_number citation
    = match Chunk.page_number c with
      | Some p => if p =? 0 then None else Some p
      | None => None
      end /\
  (PyStr.len (Chunk.text c) <= 400 ->
   Generator.chunk_text citation = Chunk.text c) /\
  (400 < PyStr.len (Chunk.text c) ->
   Generator.chunk_text citation
     = PyStr.slice_to (Chunk.text c) 400 +:+ "..." /\
   PyStr.len (Generator.chunk_text citation) = 403).
Proof.
  intros Hrun Hc Ht Hm Hint citation. subst citation.
  rewrite chunk_pages_run in Hrun.
  destruct (IngestionService.tagged_segments fuel pages) as [tagged|];
    [|discriminate].
  injection Hrun as <-. unfold IngestionService.chunks_of_segments in Hc.
  apply list_elem_of_In, list_elem_of_lookup_1 in Hc as [i Hi].
  rewrite list_lookup_imap in Hi.
  destruct (tagged !! i) as [[pn t]|]; [|discriminate].
  injection Hi as <-.
  cbn [IngestionService.make_chunk Chunk.page_number Chunk.text
       Chunk.metadata fst snd] in *.
  unfold Generator.citation_of.
  cbn [Generator.document_id Generator.filename Generator.page_number
       Generator.chunk_text].
  rewrite Hm, Ht.
  assert (Hd : ({[ "document_id" := document_id; "filename" := filename;
                   "collection_name" := collection_name;
                   "page_number" := IngestionService.page_label pn ]}
                : gmap string string) !! "document_id" = Some document_id)
    by reflexivity.
  assert (Hf : ({[ "document_id" := document_id; "filename" := filename;
                   "collection_name" := collection_name;
                   "page_number" := IngestionService.page_label pn ]}
                : gmap string string) !! "filename" = Some filename)
    by reflexivity.
  assert (Hp : ({[ "document_id" := document_id; "filename" := filename;
                   "collection_name" := collection_name;
                   "page_number" := IngestionService.page_label pn ]}
                : gmap string string) !! "page_number"
               = Some (IngestionService.page_label pn))
    by reflexivity.
  rewrite Hd, Hf, Hp. cbn [default from_option id].
  split; [reflexivity|]. split; [reflexivity|]. split; [|split].
  - destruct (page_label_cases pn) as [[-> [-> | ->]]|(p & -> & Hne & ->)];
      try reflexivity.
    destruct (str_of_int_label p) as [H1 H2].
    destruct (PyStr.is_empty (IngestionService.str_of_int p)) eqn:E1;
      [now apply is_empty_true in E1|].
    destruct (String.eqb_spec (IngestionService.str_of_int p) "unknown");
      [contradiction|].
    cbn [negb andb]. rewrite (Hint p eq_refl Hne).
    now destruct (Z.eqb_spec p 0).
  - intros Hle.
    destruct (Z.ltb_spec 400 (PyStr.len (PyStr.strip t))); [lia|].
    unfold PyStr.slice_to.
    rewrite slice_bound_nonneg by (try apply len_nonneg; lia).
    rewrite Z.min_r by lia. unfold PyStr.len. rewrite Nat2Z.id.
    generalize (PyStr.strip t). intros u.
    assert (Htake : PyStr.take (String.length u) u = u)
      by (induction u as [|a u IH]; cbn; congruence).
    rewrite Htake. clear. induction u as [|a u IH]; [reflexivity|].
    change (String a u +:+ "") with (String a (u +:+ "")). now rewrite IH.
  - intros Hgt.
    destruct (Z.ltb_spec 400 (PyStr.len (PyStr.strip t))); [|lia].
    split; [reflexivity|].
    rewrite len_append, len_slice_to by lia.
    change (PyStr.len "...") with 3. lia.
Qed.

Lemma citation_of_ingested_chunk_witness :
  Generator.page_number
    (Generator.citation_of (fun _ => Some 1) (fun x => x)
       {| Doc.id := "id1"; Doc.text := "first page";
          Doc.metadata :=
            {[ "document_id" := "D"; "filename" := "notes.md";
               "collection_name" := "default"; "page_number" := "1" ]};
          Doc.score := None; Doc.rrf_score := None; Doc.relevance := None |})
  = Some 1.
Proof.
  apply (citation_of_ingested_chunk IngestionService.sample_uuid4
           (fun _ => Some 1) (fun x => x) 1 1 IngestionService.sample_pages
           "D" "notes.md" "default"
           [IngestionService.make_chunk IngestionService.sample_uuid4
              "D" "notes.md" "default" (Some 1) 0 1 "  first page ";
            IngestionService.make_chunk IngestionService.sample_uuid4
              "D" "notes.md" "default" None 1 2 "second page"]
           (IngestionService.make_chunk IngestionService.sample_uuid4
              "D" "notes.md" "default" (Some 1) 0 1 "  first page ")).
  - reflexivity.
  - left. reflexivity.
  - reflexivity.
  - reflexivity.
  - intros p [= <-] _. reflexivity.
Defined.
